(** * oas-mcp, package [functions]: the tool adapter

    A shallow embedding of [functions/type.go]: schema inference from a
    function signature ([generateSchemaFromFunction], [getTypeSchema]), the
    coercion engine ([convertToType]), argument binding and invocation
    ([Tool.Execute]) and the protocol adapter ([Tool.ServerTool]).

    Conventions of the model.
    - [reflect.Type] is the inductive [gotype]; the universe holds Go's
      predeclared basic types, slices, arrays, maps, structs, pointers and
      the three interface types the package meets ([any], [error],
      [context.Context]).  Defined (named) types are outside the model, so a
      type's [Kind] is the head constructor of its [gotype] and a
      [switch t.Kind()] is a [match] on the type.
    - a Go value held in an [any] is a [value]; it carries its dynamic type.
    - a Go call yields [Ok], an [error] ([Err]) or a run-time panic
      ([Panic]); the three are kept apart.
    - [int] and [uint] are 64 bits wide (the repository builds with
      Go 1.24 for 64-bit targets). *)

From Stdlib Require Import ZArith String Ascii List Floats Lia.
From stdpp Require Import gmap strings list.

Set Warnings "-register-all".
#[local] Open Scope Z_scope.

(** ** Package [strings] *)

Module strings.

(** [strings.Split(s, sep)] for a one-byte separator: the pieces of [s]
    between the occurrences of [sep].  Never empty: [Split("", ",")] is
    [[""]]. *)
Fixpoint Split (s : string) (sep : ascii) : list string :=
  match s with
  | EmptyString => [EmptyString]
  | String c rest =>
      if Ascii.eqb c sep then EmptyString :: Split rest sep
      else match Split rest sep with
           | [] => [String c EmptyString]
           | piece :: pieces => String c piece :: pieces
           end
  end.

(** [strings.HasPrefix(s, prefix)]:
    [len(s) >= len(prefix) && s[:len(prefix)] == prefix]. *)
Definition HasPrefix (s prefix : string) : bool :=
  (String.length prefix <=? String.length s)%nat
  && String.eqb (substring 0 (String.length prefix) s) prefix.

(** [strings.HasSuffix(s, suffix)]:
    [len(s) >= len(suffix) && s[len(s)-len(suffix):] == suffix]. *)
Definition HasSuffix (s suffix : string) : bool :=
  (String.length suffix <=? String.length s)%nat
  && String.eqb
       (substring (String.length s - String.length suffix) (String.length suffix) s)
       suffix.

End strings.

(** [slices.Contains] on strings. *)
Definition slices_Contains (l : list string) (x : string) : bool :=
  existsb (String.eqb x) l.

(** ** Package [strconv] *)

Module strconv.

(** The two sentinel causes of a [*strconv.NumError]. *)
Inductive NumErr := ErrSyntax | ErrRange.

(** [strconv.ParseBool]: a fixed table of twelve literals. *)
Definition ParseBool (str : string) : option bool :=
  if existsb (String.eqb str) ["1"; "t"; "T"; "TRUE"; "true"; "True"]
  then Some true
  else if existsb (String.eqb str) ["0"; "f"; "F"; "FALSE"; "false"; "False"]
  then Some false
  else None.

Definition FormatBool (b : bool) : string :=
  if b then "true" else "false".

(** The value of a decimal digit byte, ['0'..'9']. *)
Definition digitOfChar (c : ascii) : option Z :=
  let n := Z.of_N (N_of_ascii c) in
  if (48 <=? n) && (n <=? 57) then Some (n - 48) else None.

Definition charOfDigit (d : Z) : ascii :=
  ascii_of_N (Z.to_N (48 + d)).

Definition maxUint64 : Z := 2 ^ 64 - 1.

(** The digit loop of [strconv.ParseUint(s, 10, 64)], [n] being the number
    read so far.  A byte that is no decimal digit is a syntax error; a
    number that leaves 64 bits is a range error.  Bytes are read left to
    right and the first error wins, as in the source. *)
Fixpoint parseDigits (s : string) (n : Z) : Z + NumErr :=
  match s with
  | EmptyString => inl n
  | String c rest =>
      match digitOfChar c with
      | None => inr ErrSyntax
      | Some d =>
          let n1 := n * 10 + d in
          if maxUint64 <? n1 then inr ErrRange else parseDigits rest n1
      end
  end.

Definition ParseUint (s : string) : Z + NumErr :=
  match s with
  | EmptyString => inr ErrSyntax
  | _ => parseDigits s 0
  end.

(** [strconv.ParseInt(s, 10, 64)]: an optional sign, then [ParseUint],
    then the check against the signed 64-bit range. *)
Definition ParseInt (s0 : string) : Z + NumErr :=
  match s0 with
  | EmptyString => inr ErrSyntax
  | String c rest =>
      let neg := Ascii.eqb c "-" in
      let s := if Ascii.eqb c "+" || neg then rest else s0 in
      match ParseUint s with
      | inr ErrSyntax => inr ErrSyntax
      | inr ErrRange => inr ErrRange
      | inl un =>
          let cutoff := 2 ^ 63 in
          if negb neg && (cutoff <=? un) then inr ErrRange
          else if neg && (cutoff <? un) then inr ErrRange
          else inl (if neg then - un else un)
      end
  end.

(** The digit loop of [strconv.FormatUint(u, 10)] ([formatBits]): digits
    are produced from the least significant one and put in front of what
    is already there.  [fuel] bounds the number of digits. *)
Fixpoint formatBits (fuel : nat) (u : Z) (acc : string) : string :=
  match fuel with
  | O => acc
  | S fuel' =>
      let acc' := String (charOfDigit (u mod 10)) acc in
      if u <? 10 then acc' else formatBits fuel' (u / 10) acc'
  end.

Definition FormatUint (u : Z) : string :=
  formatBits (S (Z.to_nat (Z.log2 u))) u EmptyString.

(** [strconv.FormatInt(i, 10)], which is also how [fmt] renders an
    integer under [%v]. *)
Definition FormatInt (i : Z) : string :=
  if i <? 0 then String "-" (FormatUint (- i)) else FormatUint i.

End strconv.

(** ** Package [reflect]: types *)

Inductive IntKind := Int | Int8 | Int16 | Int32 | Int64.
Inductive UintKind := Uint | Uint8 | Uint16 | Uint32 | Uint64.
Inductive FloatKind := Float32 | Float64.

(** The interface types of the model: [any], [error], [context.Context]. *)
Inductive Iface := IAny | IError | IContext.

(** [reflect.StructTag] in its conventional form, a sequence of
    [key:"value"] pairs. *)
Definition StructTag := list (string * string).

(** [StructTag.Get]: the value of the first pair under [key], the empty
    string when there is none. *)
Fixpoint Tag_Get (tag : StructTag) (key : string) : string :=
  match tag with
  | [] => EmptyString
  | (k, v) :: rest => if String.eqb k key then v else Tag_Get rest key
  end.

(** What [reflect.StructField] says about a field besides its type.
    [PkgPath] is empty exactly for exported fields. *)
Record FieldInfo := {
  Name : string;
  PkgPath : string;
  Tag : StructTag;
}.

Inductive gotype :=
| TBool
| TInt (k : IntKind)
| TUint (k : UintKind)
| TFloat (k : FloatKind)
| TString
| TSlice (elem : gotype)
| TArray (len : nat) (elem : gotype)
| TMap (key elem : gotype)
| TStruct (fields : list (FieldInfo * gotype))
| TPtr (elem : gotype)
| TInterface (i : Iface).

Abbreviation StructField := (FieldInfo * gotype)%type.

Definition intBits (k : IntKind) : Z :=
  match k with Int => 64 | Int8 => 8 | Int16 => 16 | Int32 => 32 | Int64 => 64 end.

Definition IntKind_eqb (a b : IntKind) : bool :=
  match a, b with
  | Int, Int | Int8, Int8 | Int16, Int16 | Int32, Int32 | Int64, Int64 => true
  | _, _ => false
  end.

Definition UintKind_eqb (a b : UintKind) : bool :=
  match a, b with
  | Uint, Uint | Uint8, Uint8 | Uint16, Uint16 | Uint32, Uint32
  | Uint64, Uint64 => true
  | _, _ => false
  end.

Definition FloatKind_eqb (a b : FloatKind) : bool :=
  match a, b with
  | Float32, Float32 | Float64, Float64 => true
  | _, _ => false
  end.

Definition Iface_eqb (a b : Iface) : bool :=
  match a, b with
  | IAny, IAny | IError, IError | IContext, IContext => true
  | _, _ => false
  end.

Fixpoint StructTag_eqb (a b : StructTag) : bool :=
  match a, b with
  | [], [] => true
  | (k1, v1) :: a', (k2, v2) :: b' =>
      String.eqb k1 k2 && String.eqb v1 v2 && StructTag_eqb a' b'
  | _, _ => false
  end.

Definition FieldInfo_eqb (a b : FieldInfo) : bool :=
  String.eqb (Name a) (Name b) && String.eqb (PkgPath a) (PkgPath b)
  && StructTag_eqb (Tag a) (Tag b).

(** Type identity.  Two struct types are identical when their fields agree
    in name, package path, tag and type, in order. *)
Fixpoint gotype_eqb (a b : gotype) {struct a} : bool :=
  match a, b with
  | TBool, TBool => true
  | TInt k1, TInt k2 => IntKind_eqb k1 k2
  | TUint k1, TUint k2 => UintKind_eqb k1 k2
  | TFloat k1, TFloat k2 => FloatKind_eqb k1 k2
  | TString, TString => true
  | TSlice e1, TSlice e2 => gotype_eqb e1 e2
  | TArray n1 e1, TArray n2 e2 => Nat.eqb n1 n2 && gotype_eqb e1 e2
  | TMap k1 e1, TMap k2 e2 => gotype_eqb k1 k2 && gotype_eqb e1 e2
  | TStruct fs1, TStruct fs2 =>
      (fix fields_eqb (l1 l2 : list StructField) {struct l1} : bool :=
         match l1, l2 with
         | [], [] => true
         | (i1, t1) :: l1', (i2, t2) :: l2' =>
             FieldInfo_eqb i1 i2 && gotype_eqb t1 t2 && fields_eqb l1' l2'
         | _, _ => false
         end) fs1 fs2
  | TPtr e1, TPtr e2 => gotype_eqb e1 e2
  | TInterface i1, TInterface i2 => Iface_eqb i1 i2
  | _, _ => false
  end.

(** ** Values *)

(** A Go value as an [any] holds it.  [VNil] is the nil interface;
    [VNilOf t] is the nil slice, map or pointer of type [t]; a map value
    (of a type [map[string]elem]) lists its entries, with distinct keys,
    in the order in which a [range] over it visits them in this run (Go
    fixes no order); [VError] is an error value.
    Integers keep the number they denote, floats are binary64 (a [float32]
    is a binary64 that fits binary32).

    An [error] is what [errors.New], [strconv] or [fmt.Errorf] made:
    [Errorf] keeps the format string and the operands of the call as they
    stand in the source, and the error wrapped by [%w] apart. *)
Inductive value :=
| VNil
| VBool (b : bool)
| VInt (k : IntKind) (n : Z)
| VUint (k : UintKind) (n : Z)
| VFloat (k : FloatKind) (f : float)
| VString (s : string)
| VSlice (elem : gotype) (xs : list value)
| VArray (elem : gotype) (xs : list value)
| VMap (elem : gotype) (entries : list (string * value))
| VStruct (fields : list StructField) (vals : list value)
| VPtr (elem : gotype) (pointee : value)
| VNilOf (t : gotype)
| VError (e : error)
with error :=
| errors_New (text : string)
| NumError (Func Num : string) (Err : strconv.NumErr)
| Errorf (format : string) (args : list fmtArg) (wrapped : option error)
with fmtArg :=
| AValue (v : value)
| AString (s : string)
| AInt (n : Z)
| AType (t : gotype).

(** [reflect.TypeOf] for the values whose type lies in [gotype]; the nil
    interface has no type, and the concrete type behind a [VError] is not
    modelled (see [AssignableTo]). *)
Definition TypeOf (v : value) : option gotype :=
  match v with
  | VNil => None
  | VBool _ => Some TBool
  | VInt k _ => Some (TInt k)
  | VUint k _ => Some (TUint k)
  | VFloat k _ => Some (TFloat k)
  | VString _ => Some TString
  | VSlice e _ => Some (TSlice e)
  | VArray e xs => Some (TArray (length xs) e)
  | VMap e _ => Some (TMap TString e)
  | VStruct fs _ => Some (TStruct fs)
  | VPtr e _ => Some (TPtr e)
  | VNilOf t => Some t
  | VError _ => None
  end.

(** [reflect.TypeOf(v).AssignableTo(t)] for a non-nil [v]: the types are
    identical, or [t] is an interface that the type of [v] implements.
    Every type implements [any]; of the values of the model only error
    values implement [error], and none implements [context.Context]. *)
Definition AssignableTo (v : value) (t : gotype) : bool :=
  match t with
  | TInterface IAny => true
  | TInterface IError => match v with VError _ => true | _ => false end
  | TInterface IContext => false
  | _ => match TypeOf v with
         | Some tv => gotype_eqb tv t
         | None => false
         end
  end.

(** [reflect.Zero(t).Interface()]. *)
Fixpoint Zero (t : gotype) : value :=
  match t with
  | TBool => VBool false
  | TInt k => VInt k 0
  | TUint k => VUint k 0
  | TFloat k => VFloat k 0%float
  | TString => VString EmptyString
  | TSlice _ | TMap _ _ | TPtr _ => VNilOf t
  | TArray n e => VArray e (repeat (Zero e) n)
  | TStruct fs => VStruct fs (map (fun f : StructField => Zero (snd f)) fs)
  | TInterface _ => VNil
  end.

(** ** Errors and panics *)

(** [var ErrRequired = errors.New("Required.")]. *)
Definition ErrRequired : error := errors_New "Required.".

(** The run-time panics the package can raise through [reflect]. *)
Inductive panic :=
| PanicValueInt (v : value)
    (* reflect: call of reflect.Value.Int on a Value of another kind *)
| PanicSetZeroValue
    (* reflect: call of reflect.Value.Set on zero Value *)
| PanicSetNotAssignable (v : value) (t : gotype)
    (* reflect.Set: value is not assignable to the type *)
| PanicCallZeroValue
    (* reflect: Call using zero Value argument *)
| PanicCallNotAssignable (v : value) (t : gotype)
    (* reflect: Call using a value as a type it is not assignable to *)
| PanicIsNil (t : gotype)
    (* reflect: call of reflect.Value.IsNil on a Value that cannot be nil *)
| PanicNotAnError (v : value).
    (* interface conversion: the value is not an error *)

Inductive result (A : Type) :=
| Ok (a : A)
| Err (e : error)
| Panic (p : panic).
Arguments Ok {A} a.
Arguments Err {A} e.
Arguments Panic {A} p.

Definition result_bind {A B : Type} (r : result A) (k : A -> result B) : result B :=
  match r with
  | Ok a => k a
  | Err e => Err e
  | Panic p => Panic p
  end.

Notation "x <- r ;; k" := (result_bind r (fun x => k))
  (at level 100, r at next level, right associativity).

(** ** Numeric conversions *)

(** The number an [int64] holds after it is converted to the signed
    integer type of kind [k]: the low bits, read in two's complement. *)
Definition wrapInt (k : IntKind) (n : Z) : Z :=
  let m := 2 ^ intBits k in
  (n + m / 2) mod m - m / 2.

Definition minInt64 : Z := - 2 ^ 63.

(** [int64(f)] for a [float64]: the fraction is discarded (truncation
    towards zero).  When the result does not fit, or [f] is an infinity or
    a NaN, Go leaves the value to the implementation; the model returns
    what amd64 does, the smallest [int64]. *)
Definition truncToInt64 (f : float) : Z :=
  match Prim2SF f with
  | S754_zero _ => 0
  | S754_finite s m e =>
      let a := Z.shiftl (Zpos m) e in
      let z := if s then - a else a in
      if (minInt64 <=? z) && (z <? 2 ^ 63) then z else minInt64
  | _ => minInt64
  end.

(** [float64(n)] for an [int64]: the nearest binary64, ties to even. *)
Definition float64OfInt (n : Z) : float :=
  SF2Prim (binary_normalize 53 1024 n 0 false).

(** A [float64] converted to the float type of kind [k]: unchanged for
    [float64], rounded to the nearest binary32 for [float32]. *)
Definition convertFloat (k : FloatKind) (f : float) : float :=
  match k with
  | Float64 => f
  | Float32 =>
      match Prim2SF f with
      | S754_finite s m e =>
          SF2Prim (binary_normalize 24 128 (if s then Zneg m else Zpos m) e s)
      | _ => f
      end
  end.

(** ** The standard library taken as given *)

(** Two functions of Go's standard library are not modelled and stay
    parameters: the decimal-to-binary conversion of [strconv.ParseFloat]
    (bit size 64) and [fmt]'s [%v] rendering of floats, of composite
    values and of errors. *)
Class GoStd := {
  strconv_ParseFloat : string -> float + strconv.NumErr;
  fmt_Sprint_other : value -> string;
}.

Section Coercion.

Context `{!GoStd}.

(** [fmt.Sprintf("%v", v)]. *)
Definition Sprint (v : value) : string :=
  match v with
  | VNil => "<nil>"
  | VBool b => strconv.FormatBool b
  | VInt _ n | VUint _ n => strconv.FormatInt n
  | VString s => s
  | _ => fmt_Sprint_other v
  end.

(** [dst.Set(reflect.ValueOf(x))] for a settable [dst] of type [t]:
    [reflect.ValueOf(nil)] is the zero Value and cannot be stored, and
    any other value must be assignable to [t]. *)
Definition Value_Set (t : gotype) (x : value) : result value :=
  match x with
  | VNil => Panic PanicSetZeroValue
  | _ => if AssignableTo x t then Ok x else Panic (PanicSetNotAssignable x t)
  end.

(** [func convertToType(value any, targetType reflect.Type) (any, error)]. *)
Fixpoint convertToType (v : value) (targetType : gotype) {struct v}
  : result value :=
  match v with
  | VNil => Ok (Zero targetType)
  | _ =>
    if AssignableTo v targetType then Ok v else
    match targetType with
    | TString => Ok (VString (Sprint v))

    | TBool =>
        match v with
        | VBool b => Ok (VBool b)
        | VInt _ n => Ok (VBool (negb (n =? 0)))
        | VUint _ _ | VFloat _ _ =>
            (* reflect.ValueOf(v).Int() *)
            Panic (PanicValueInt v)
        | VString s =>
            match strconv.ParseBool s with
            | Some b => Ok (VBool b)
            | None =>
                Err (Errorf "cannot convert %v to bool: %w" [AValue v]
                       (Some (NumError "ParseBool" s strconv.ErrSyntax)))
            end
        | _ => Err (Errorf "cannot convert %v to bool" [AValue v] None)
        end

    | TInt k =>
        match v with
        | VInt _ n => Ok (VInt k (wrapInt k n))
        | VUint _ _ =>
            (* reflect.ValueOf(v).Int() *)
            Panic (PanicValueInt v)
        | VFloat _ f => Ok (VInt k (wrapInt k (truncToInt64 f)))
        | VString s =>
            match strconv.ParseInt s with
            | inl i => Ok (VInt k (wrapInt k i))
            | inr e =>
                Err (Errorf "cannot convert %v to int: %w" [AValue v]
                       (Some (NumError "ParseInt" s e)))
            end
        | _ => Err (Errorf "cannot convert %v to int" [AValue v] None)
        end

    | TFloat k =>
        match v with
        | VInt _ n => Ok (VFloat k (convertFloat k (float64OfInt n)))
        | VUint _ _ =>
            (* reflect.ValueOf(v).Int() *)
            Panic (PanicValueInt v)
        | VFloat _ f => Ok (VFloat k (convertFloat k f))
        | VString s =>
            match strconv_ParseFloat s with
            | inl f => Ok (VFloat k (convertFloat k f))
            | inr e =>
                Err (Errorf "cannot convert %v to float: %w" [AValue v]
                       (Some (NumError "ParseFloat" s e)))
            end
        | _ => Err (Errorf "cannot convert %v to float" [AValue v] None)
        end

    | TSlice elemType =>
        let convertElems :=
          fix convertElems (i : Z) (xs : list value) : result (list value) :=
            match xs with
            | [] => Ok []
            | elem :: rest =>
                match convertToType elem elemType with
                | Err err =>
                    Err (Errorf "cannot convert slice element %d: %w"
                           [AInt i] (Some err))
                | Panic p => Panic p
                | Ok convertedElem =>
                    stored <- Value_Set elemType convertedElem ;;
                    rest' <- convertElems (i + 1) rest ;;
                    Ok (stored :: rest')
                end
            end in
        match v with
        | VSlice (TInterface IAny) xs =>
            xs' <- convertElems 0 xs ;; Ok (VSlice elemType xs')
        | VNilOf (TSlice (TInterface IAny)) => Ok (VSlice elemType [])
        | _ => Err (Errorf "cannot convert %v to slice" [AValue v] None)
        end

    | TMap TString elemType =>
        let convertEntries :=
          fix convertEntries (entries : list (string * value))
            : result (list (string * value)) :=
            match entries with
            | [] => Ok []
            | (key, elem) :: rest =>
                match convertToType elem elemType with
                | Err err =>
                    Err (Errorf "cannot convert map element %s: %w"
                           [AString key] (Some err))
                | Panic p => Panic p
                | Ok convertedElem =>
                    (* mapValue.SetMapIndex: the zero Value deletes the key *)
                    match convertedElem with
                    | VNil => convertEntries rest
                    | _ =>
                        if AssignableTo convertedElem elemType
                        then rest' <- convertEntries rest ;;
                             Ok ((key, convertedElem) :: rest')
                        else Panic (PanicSetNotAssignable convertedElem elemType)
                    end
                end
            end in
        match v with
        | VMap (TInterface IAny) entries =>
            entries' <- convertEntries entries ;; Ok (VMap elemType entries')
        | VNilOf (TMap TString (TInterface IAny)) => Ok (VMap elemType [])
        | _ => Err (Errorf "cannot convert %v to map" [AValue v] None)
        end

    | _ =>
        Err (Errorf "cannot convert %v (type %T) to %v"
               [AValue v; AValue v; AType targetType] None)
    end
  end.

End Coercion.

(** ** The tool *)

(** A JSON-schema value, as the [any] stored in a schema's
    [map[string]any]. *)
Inductive jsv :=
| JNull
| JBool (b : bool)
| JString (s : string)
| JStrings (l : list string)
| JArray (l : list jsv)
| JObject (m : gmap string jsv).

(** [type Schema struct]. *)
Record Schema := {
  Type_ : string;
  Properties : gmap string jsv;
  Required : list string;
}.

(** A function as [reflect] sees it: the parameter types, and what a call
    does.  A context parameter is an opaque pass-through and is left out of
    the arguments handed to [Func_Call]; each result is a [reflect.Value],
    a value with the static type of its result position. *)
Record Func := {
  In : list gotype;
  Func_Call : list value -> list (gotype * value);
}.

(** [type Tool struct]. *)
Record Tool := {
  name : string;
  description : string;
  function : Func;
  schema : option Schema;
}.

(** What [Execute] did: the calls it made to the wrapped function (the
    arguments of each), and how it ended. *)
Inductive outcome :=
| Returned (res : value) (err : option error)
| Panicked (p : panic).

Record execution := {
  calls : list (list value);
  ended : outcome;
}.

Section Execute.

Context `{!GoStd}.

(** The wire-name [Execute] looks a field up under: the [json] tag up to
    its first comma, the field's name when there is no tag. *)
Definition bindName (field : FieldInfo) : string :=
  let jsonTag := Tag_Get (Tag field) "json" in
  if String.eqb jsonTag EmptyString then Name field
  else hd EmptyString (strings.Split jsonTag ",").

(** [fieldValue.CanSet()] for a field of an addressable struct: the field
    is exported. *)
Definition CanSet (field : FieldInfo) : bool :=
  String.eqb (PkgPath field) EmptyString.

(** The struct branch of [Execute]: a fresh zero struct whose fields are
    then filled, in declaration order, from the entries of [params]. *)
Fixpoint bindFields (params : gmap string value) (fields : list StructField)
  : result (list value) :=
  match fields with
  | [] => Ok []
  | (field, fieldType) :: rest =>
      let jsonTag := bindName field in
      fieldValue <-
        match params !! jsonTag with
        | Some paramValue =>
            if CanSet field then
              match convertToType paramValue fieldType with
              | Err err =>
                  Err (Errorf "failed to convert parameter %s: %w"
                         [AString jsonTag] (Some err))
              | Panic p => Panic p
              | Ok convertedValue => Value_Set fieldType convertedValue
              end
            else Ok (Zero fieldType)
        | None => Ok (Zero fieldType)
        end ;;
      rest' <- bindFields params rest ;;
      Ok (fieldValue :: rest')
  end.

(** The last branch of [Execute]'s loop, for a parameter that is neither
    the generic map nor a struct.  [firstKey] is the key that
    [for name := range params] yields first; the loop is entered only
    when [params] is not empty.  (The source also walks the fields of a
    struct parameter here; that code is never reached, structs having
    been dealt with before.) *)
Definition bindParam (firstKey : string) (params : gmap string value)
  (paramType : gotype) : result (option value) :=
  let paramName := if (0 <? size params)%nat then firstKey else EmptyString in
  if String.eqb paramName EmptyString then Ok (Some (Zero paramType))
  else
    match params !! paramName with
    | Some paramValue =>
        match convertToType paramValue paramType with
        | Err err =>
            Err (Errorf "failed to convert parameter %s: %w"
                   [AString paramName] (Some err))
        | Panic p => Panic p
        | Ok VNil => Ok None          (* reflect.ValueOf(nil) *)
        | Ok convertedValue => Ok (Some convertedValue)
        end
    | None => Ok (Some (Zero paramType))
    end.

(** [Execute]'s loop over the parameters after the context.  An argument
    is [None] when it is the zero [reflect.Value].  [rangeFirst i] is the
    key that ranging over [params] yields first while parameter [i] is
    bound: Go fixes no order, and each [range] picks afresh. *)
Fixpoint bindArgs (rangeFirst : nat -> string) (params : gmap string value)
  (i : nat) (isFirst : bool) (ins : list gotype)
  : result (list (option value)) :=
  match ins with
  | [] => Ok []
  | paramType :: rest =>
      arg <-
        match paramType with
        | TMap TString (TInterface _) =>
            if isFirst
            then Ok (Some (VMap (TInterface IAny) (map_to_list params)))
            else bindParam (rangeFirst i) params paramType
        | TStruct fields =>
            vals <- bindFields params fields ;;
            Ok (Some (VStruct fields vals))
        | _ => bindParam (rangeFirst i) params paramType
        end ;;
      rest' <- bindArgs rangeFirst params (S i) false rest ;;
      Ok (arg :: rest')
  end.

(** The arguments as values, when none of them is the zero
    [reflect.Value]. *)
Fixpoint validArgs (args : list (option value)) : option (list value) :=
  match args with
  | [] => Some []
  | Some arg :: rest =>
      match validArgs rest with
      | Some rest' => Some (arg :: rest')
      | None => None
      end
  | None :: _ => None
  end.

(** The first argument that is not assignable to its parameter type (a nil
    interface is assignable to an interface type). *)
Fixpoint firstUnassignable (ins : list gotype) (argv : list value)
  : option (value * gotype) :=
  match ins, argv with
  | paramType :: ins', arg :: argv' =>
      let fits :=
        match arg, paramType with
        | VNil, TInterface _ => true
        | VNil, _ => false
        | _, _ => AssignableTo arg paramType
        end in
      if fits then firstUnassignable ins' argv' else Some (arg, paramType)
  | _, _ => None
  end.

(** The checks of [reflect.Value.Call] before the function runs: no
    argument is the zero Value, and then each is assignable to its
    parameter type. *)
Definition checkArgs (ins : list gotype) (args : list (option value))
  : result (list value) :=
  match validArgs args with
  | None => Panic PanicCallZeroValue
  | Some argv =>
      match firstUnassignable ins argv with
      | Some (arg, paramType) => Panic (PanicCallNotAssignable arg paramType)
      | None => Ok argv
      end
  end.

(** [errVal.IsNil()], for a result of static type [t]. *)
Definition Value_IsNil (t : gotype) (v : value) : result bool :=
  match t with
  | TInterface _ => Ok (match v with VNil => true | _ => false end)
  | TSlice _ | TMap _ _ | TPtr _ =>
      Ok (match v with VNilOf _ => true | _ => false end)
  | _ => Panic (PanicIsNil t)
  end.

(** [errVal.Interface().(error)]. *)
Definition assertError (v : value) : result error :=
  match v with
  | VError e => Ok e
  | _ => Panic (PanicNotAnError v)
  end.

(** The end of [Execute]: what is made of the results of the call. *)
Definition returnValues (results : list (gotype * value)) : outcome :=
  match results with
  | [] => Returned VNil None
  | [r] => Returned (snd r) None
  | r0 :: _ =>
      let errVal := List.last results r0 in
      match Value_IsNil (fst errVal) (snd errVal) with
      | Panic p => Panicked p
      | Err _ => Panicked (PanicIsNil (fst errVal))
      | Ok true => Returned (snd r0) None
      | Ok false =>
          match assertError (snd errVal) with
          | Ok e => Returned (snd r0) (Some e)
          | Err _ | Panic _ => Panicked (PanicNotAnError (snd errVal))
          end
      end
  end.

(** [fnType.NumIn() > 0 && fnType.In(0).Implements(context.Context)]. *)
Definition hasContext (fn : Func) : bool :=
  match In fn with
  | TInterface IContext :: _ => true
  | _ => false
  end.

(** The parameters [Execute] binds: those after the context. *)
Definition boundIns (fn : Func) : list gotype :=
  if hasContext fn then tail (In fn) else In fn.

(** The binding phase of [Execute]: the arguments for the parameters
    after the context, from [argIndex] on. *)
Definition Bind (rangeFirst : nat -> string) (fn : Func)
  (params : gmap string value) : result (list (option value)) :=
  let argIndex := if hasContext fn then 1%nat else 0%nat in
  bindArgs rangeFirst params argIndex true (boundIns fn).

(** [func (t *Tool) Execute(ctx, params map[string]any) (any, error)]. *)
Definition Execute (rangeFirst : nat -> string) (t : Tool)
  (params : gmap string value) : execution :=
  let fn := function t in
  match Bind rangeFirst fn params with
  | Err err => {| calls := []; ended := Returned VNil (Some err) |}
  | Panic p => {| calls := []; ended := Panicked p |}
  | Ok args =>
      match checkArgs (boundIns fn) args with
      | Ok argv =>
          {| calls := [argv]; ended := returnValues (Func_Call fn argv) |}
      | Err _ => {| calls := []; ended := Panicked PanicCallZeroValue |}
      | Panic p => {| calls := []; ended := Panicked p |}
      end
  end.

End Execute.

(** ** Schema inference *)

(** [fieldSchema["description"] = docTag] when the field has a non-empty
    tag under [descKey]. *)
Definition withDescription (descKey : string) (field : FieldInfo)
  (fieldSchema : gmap string jsv) : gmap string jsv :=
  let docTag := Tag_Get (Tag field) descKey in
  if String.eqb docTag EmptyString then fieldSchema
  else <["description" := JString docTag]> fieldSchema.

(** One turn of the loop over the fields of a struct, on the pair of the
    [required] list and the [properties] map built so far.  The loop is
    written twice in the source, in [generateSchemaFromFunction] (which
    reads the description from the [mcpdescription] tag) and in
    [getTypeSchema] (which reads it from [doc]); [descKey] is that tag and
    [typeSchema] the schema of a field's type. *)
Definition fieldStep (descKey : string) (typeSchema : gotype -> gmap string jsv)
  (acc : list string * gmap string jsv) (f : StructField)
  : list string * gmap string jsv :=
  let (required, properties) := acc in
  let (field, fieldType) := f in
  if negb (String.eqb (PkgPath field) EmptyString) then acc
  else
    let jsonTag := Tag_Get (Tag field) "json" in
    if negb (String.eqb jsonTag EmptyString) then
      let parts := strings.Split jsonTag "," in
      let fieldName := hd EmptyString parts in
      if String.eqb fieldName "-" then acc
      else
        let isRequired := negb (slices_Contains (tail parts) "omitempty") in
        (if isRequired then required ++ [fieldName] else required,
         <[fieldName := JObject (withDescription descKey field (typeSchema fieldType))]>
           properties)
    else
      (required ++ [Name field],
       <[Name field := JObject (withDescription descKey field (typeSchema fieldType))]>
         properties).

(** [func getTypeSchema(t reflect.Type) map[string]any]. *)
Fixpoint getTypeSchema (t : gotype) : gmap string jsv :=
  match t with
  | TPtr elem =>
      let elemSchema := getTypeSchema elem in
      match elemSchema !! "enum" with
      | Some (JArray enumValues) =>
          <["enum" := JArray (enumValues ++ [JNull])]> elemSchema
      | _ => elemSchema
      end
  | TBool => {[ "type" := JString "boolean" ]}
  | TInt _ | TUint _ => {[ "type" := JString "integer" ]}
  | TFloat _ => {[ "type" := JString "number" ]}
  | TString => {[ "type" := JString "string" ]}
  | TSlice elem | TArray _ elem =>
      <["items" := JObject (getTypeSchema elem)]> {[ "type" := JString "array" ]}
  | TMap key elem =>
      <["additionalProperties" :=
          match key with
          | TString => JObject (getTypeSchema elem)
          | _ => JBool true
          end]> {[ "type" := JString "object" ]}
  | TStruct fields =>
      let (required, properties) :=
        fold_left (fieldStep "doc" getTypeSchema) fields ([], ∅) in
      <["required" := JStrings required]>
        (<["properties" := JObject properties]> {[ "type" := JString "object" ]})
  | TInterface _ => {[ "type" := JString "string" ]}
  end.

(** [func generateSchemaFromFunction(fnType reflect.Type) *Schema]. *)
Definition generateSchemaFromFunction (fn : Func) : Schema :=
  let empty := {| Type_ := "object"; Properties := ∅; Required := [] |} in
  match (if hasContext fn then tail (In fn) else In fn) with
  | [] => empty
  | paramType :: _ =>
      match paramType with
      | TMap TString (TInterface _) => empty
      | TStruct fields =>
          let (required, properties) :=
            fold_left (fieldStep "mcpdescription" getTypeSchema) fields ([], ∅) in
          {| Type_ := "object"; Properties := properties; Required := required |}
      | _ =>
          {| Type_ := "object";
             Properties := {[ "value" := JObject (getTypeSchema paramType) ]};
             Required := ["value"] |}
      end
  end.

(** [func NewFunctionTool(name, description string, fn any) *Tool], for an
    [fn] that is a function (the source panics on anything else). *)
Definition NewFunctionTool (name description : string) (fn : Func) : Tool :=
  {| name := name; description := description; function := fn;
     schema := Some (generateSchemaFromFunction fn) |}.

(** [func (tool *Tool) WithSchema(schema *Schema) *Tool]. *)
Definition WithSchema (tool : Tool) (s : option Schema) : Tool :=
  {| name := name tool; description := description tool;
     function := function tool; schema := s |}.

(** ** The protocol adapter *)

(** [encoding/json] and the text of an error are taken as given:
    [json.Marshal], [json.Unmarshal] into a [map[string]any], and
    [err.Error()]. *)
Class GoJson := {
  json_Marshal : value -> string + error;
  json_Unmarshal : string -> gmap string value + error;
  Error_text : error -> string;
}.

(** [*mcp.CallToolResult], as [mcp.NewToolResultText] and
    [mcp.NewToolResultError] make it: the text, and the [isError] flag. *)
Inductive CallToolResult :=
| NewToolResultText (text : string)
| NewToolResultError (text : string).

(** How a call of the handler ends: it returns its pair, or it panics. *)
Inductive handled :=
| HandlerReturned (res : CallToolResult) (err : option error)
| HandlerPanicked (p : panic).

Record handling := {
  handler_calls : list (list value);
  handler_ended : handled;
}.

(** [mcp.ToolInputSchema] and [mcp.Tool], as far as [ServerTool] fills them. *)
Record ToolInputSchema := {
  InputSchema_Type : string;
  InputSchema_Properties : gmap string jsv;
  InputSchema_Required : list string;
}.

Record mcpTool := {
  mcp_Name : string;
  mcp_Description : string;
  mcp_InputSchema : ToolInputSchema;
}.

(** [func (s *Schema) MCPTool() mcp.ToolInputSchema]. *)
Definition MCPTool (s : Schema) : ToolInputSchema :=
  {| InputSchema_Type := Type_ s;
     InputSchema_Properties := Properties s;
     InputSchema_Required := Required s |}.

Section ServerTool.

Context `{!GoStd} `{!GoJson}.

(** The [Handler] closure of [ServerTool], applied to the request's
    [Params.Arguments]. *)
Definition Handler (rangeFirst : nat -> string) (tool : Tool)
  (Arguments : value) : handling :=
  let decoded : gmap string value + error :=
    match Arguments with
    | VNil => inl ∅
    | _ =>
        match json_Marshal Arguments with
        | inr err => inr err
        | inl buf => json_Unmarshal buf
        end
    end in
  match decoded with
  | inr err =>
      {| handler_calls := [];
         handler_ended :=
           HandlerReturned (NewToolResultError (Error_text err)) None |}
  | inl params =>
      let run := Execute rangeFirst tool params in
      {| handler_calls := calls run;
         handler_ended :=
           match ended run with
           | Panicked p => HandlerPanicked p
           | Returned _ (Some err) =>
               HandlerReturned (NewToolResultError (Error_text err)) None
           | Returned res None =>
               match json_Marshal res with
               | inr err =>
                   HandlerReturned (NewToolResultError (Error_text err)) None
               | inl buf => HandlerReturned (NewToolResultText buf) None
               end
           end |}
  end.

(** [func (tool *Tool) ServerTool() server.ServerTool]: the advertised
    tool and its handler. *)
Definition ServerTool (rangeFirst : nat -> string) (tool : Tool)
  : mcpTool * (value -> handling) :=
  ({| mcp_Name := name tool;
      mcp_Description := description tool;
      mcp_InputSchema :=
        match schema tool with
        | Some s => MCPTool s
        | None =>
            {| InputSchema_Type := EmptyString;
               InputSchema_Properties := ∅;
               InputSchema_Required := [] |}
        end |},
   Handler rangeFirst tool).

End ServerTool.

(** ** The loops of the coercion engine, on their own *)

Section Loops.

Context `{!GoStd}.

(** The loop of the slice case of [convertToType]: the elements from
    index [i] on, each coerced to [elemType] and stored. *)
Fixpoint convertElems (elemType : gotype) (i : Z) (xs : list value)
  : result (list value) :=
  match xs with
  | [] => Ok []
  | elem :: rest =>
      match convertToType elem elemType with
      | Err err =>
          Err (Errorf "cannot convert slice element %d: %w" [AInt i] (Some err))
      | Panic p => Panic p
      | Ok convertedElem =>
          stored <- Value_Set elemType convertedElem ;;
          rest' <- convertElems elemType (i + 1) rest ;;
          Ok (stored :: rest')
      end
  end.

(** The loop of the map case of [convertToType]. *)
Fixpoint convertEntries (elemType : gotype) (entries : list (string * value))
  : result (list (string * value)) :=
  match entries with
  | [] => Ok []
  | (key, elem) :: rest =>
      match convertToType elem elemType with
      | Err err =>
          Err (Errorf "cannot convert map element %s: %w" [AString key] (Some err))
      | Panic p => Panic p
      | Ok convertedElem =>
          match convertedElem with
          | VNil => convertEntries elemType rest
          | _ =>
              if AssignableTo convertedElem elemType
              then rest' <- convertEntries elemType rest ;;
                   Ok ((key, convertedElem) :: rest')
              else Panic (PanicSetNotAssignable convertedElem elemType)
          end
      end
  end.

End Loops.

(** ** Notions used in the statements *)

(** The numbers the signed integer type of kind [k] holds. *)
Definition inIntRange (k : IntKind) (n : Z) : Prop :=
  - 2 ^ (intBits k - 1) <= n < 2 ^ (intBits k - 1).

(** A parameter type that is bound by the last branch of the loop: not a
    struct, and not the generic map. *)
Definition singleShape (paramType : gotype) : bool :=
  match paramType with
  | TStruct _ => false
  | TMap TString (TInterface _) => false
  | _ => true
  end.

(** A value of one of the kinds whose [%v] rendering [convertToType]
    reads back, with its type: a boolean, a signed integer in the range of
    its type, a string. *)
Definition rendersBack (v : value) (t : gotype) : Prop :=
  match v, t with
  | VBool _, TBool => True
  | VInt k n, TInt k' => k = k' /\ inIntRange k n
  | VString _, TString => True
  | _, _ => False
  end.

Section Notions.

Context `{!GoStd}.

(** [err] is the error [Execute] makes of a failed coercion: the coercion
    error of an entry present in [params], qualified by the entry's key. *)
Definition conversionErrorOf (params : gmap string value) (err : error) : Prop :=
  exists name cause paramValue paramType,
    err = Errorf "failed to convert parameter %s: %w" [AString name] (Some cause)
    /\ params !! name = Some paramValue
    /\ convertToType paramValue paramType = Err cause.

End Notions.

(** A target type for which the switch of [convertToType] has no case:
    the unsigned integers, arrays, structs, pointers, interfaces, and maps
    whose keys are not strings. *)
Definition hasNoCase (targetType : gotype) : bool :=
  match targetType with
  | TUint _ | TArray _ _ | TStruct _ | TPtr _ | TInterface _ => true
  | TMap TString _ => false
  | TMap _ _ => true
  | _ => false
  end.

(** [type Function func(ctx context.Context, params any) (any, error)],
    as a map from the argument to the result and the error. *)
Definition Function := value -> value * option error.

(** [func (tool *Tool) SetFunction(fn Function) *Tool]: the tool's function
    becomes [fn], a function of a context and one [any] parameter. *)
Definition SetFunction (tool : Tool) (fn : Function) : Tool :=
  {| name := name tool; description := description tool;
     function :=
       {| In := [TInterface IContext; TInterface IAny];
          Func_Call := fun args =>
            let (res, err) := fn (hd VNil args) in
            [(TInterface IAny, res);
             (TInterface IError,
              match err with Some e => VError e | None => VNil end)] |};
     schema := schema tool |}.



(** The panics that binding can end in: [reflect.Value.Int] on an unsigned
    integer or a float, and [reflect.Value.Set] with the zero Value. *)
Definition bindingPanic (p : panic) : Prop :=
  (exists k n, p = PanicValueInt (VUint k n))
  \/ (exists k f, p = PanicValueInt (VFloat k f))
  \/ p = PanicSetZeroValue.

(** The [json] tag carries the [omitempty] option. *)
Definition hasOmitEmpty (field : FieldInfo) : bool :=
  slices_Contains (tail (strings.Split (Tag_Get (Tag field) "json") ",")) "omitempty".

(** The field takes part in the schema: it is exported, and its tag does
    not name it ["-"]. *)
Definition inSchema (field : FieldInfo) : bool :=
  String.eqb (PkgPath field) EmptyString
  && negb (negb (String.eqb (Tag_Get (Tag field) "json") EmptyString)
           && String.eqb (bindName field) "-").

(** The field takes part in the schema and is put in [required]. *)
Definition isRequiredField (field : FieldInfo) : bool :=
  inSchema field && negb (hasOmitEmpty field).

(** ** Examples *)

(** A stand-in for the two library parameters, for running the model on
    inputs that reach neither of them. *)
Definition inertStd : GoStd :=
  {| strconv_ParseFloat := fun _ => inr strconv.ErrSyntax;
     fmt_Sprint_other := fun _ => EmptyString |}.

(** [struct { ID int `json:"id"`; Note string `json:"note,omitempty"` }]. *)
Definition idNote : list StructField :=
  [ ({| Name := "ID"; PkgPath := EmptyString; Tag := [("json", "id")] |}, TInt Int);
    ({| Name := "Note"; PkgPath := EmptyString; Tag := [("json", "note,omitempty")] |},
     TString) ].

(** [struct { secret int; A int `json:"x,omitempty"`; B int `json:"x"` }],
    declared in package [main]. *)
Definition secretAB : list StructField :=
  [ ({| Name := "secret"; PkgPath := "main"; Tag := [] |}, TInt Int);
    ({| Name := "A"; PkgPath := EmptyString; Tag := [("json", "x,omitempty")] |}, TInt Int);
    ({| Name := "B"; PkgPath := EmptyString; Tag := [("json", "x")] |}, TInt Int) ].

(** A function [func(ctx context.Context, in T) (any, error)] whose body
    is [call]. *)
Definition ctxFunc (paramType : gotype) (call : list value -> list (gotype * value))
  : Func :=
  {| In := [TInterface IContext; paramType]; Func_Call := call |}.

(** [func(ctx, in) (any, error) { return in, nil }]. *)
Definition echo (args : list value) : list (gotype * value) :=
  [(TInterface IAny, hd VNil args); (TInterface IError, VNil)].

(** [func(ctx, in) (any, error) { return in, errors.New("refused") }]. *)
Definition refuse (args : list value) : list (gotype * value) :=
  [(TInterface IAny, hd VNil args); (TInterface IError, VError (errors_New "refused"))].

(** [struct { Flag bool `json:"flag"` }]. *)
Definition flagStruct : list StructField :=
  [ ({| Name := "Flag"; PkgPath := EmptyString; Tag := [("json", "flag")] |}, TBool) ].

(** The request arguments [{"flag": 1}], as the server decoded them: a
    JSON number is a [float64]. *)
Definition flagOne : list (string * value) := [("flag", VFloat Float64 1%float)].

(** A stand-in for [encoding/json] at one request: every value is written
    as [buf], and [buf] is read back as [params]. *)
Definition fixedJson (buf : string) (params : gmap string value) : GoJson :=
  {| json_Marshal := fun _ => inl buf;
     json_Unmarshal := fun _ => inl params;
     Error_text := fun _ => EmptyString |}.

(** * The generator ([cmd/main.go]) *)

(** ** The OpenAPI document, as the generator reads it *)

(** The types of [github.com/ogen-go/ogen] and [gopkg.in/yaml.v3], with
    the fields that [setDescriptionTag] reads or writes.  A pointer is an
    [option] ([None] is nil).  The document is taken as [ogen.Parse]
    builds it from a file: a tree, in which no schema is reached through
    two pointers, so that writing through a pointer is an update of that
    one place. *)
Module ogen.

Inductive yamlKind :=
  DocumentNode | SequenceNode | MappingNode | ScalarNode | AliasNode.

(** [yaml.Node]. *)
Inductive yamlNode :=
| Node (Kind : yamlKind) (Tag Value : string) (Content : list yamlNode).

(** [ogen.Schema]; [Extensions] is [schema.Common.Extensions],
    [Properties] is a [[]Property{Name, Schema *Schema}], and [Items] is a
    [*Items{Item *Schema, Items []*Schema}]. *)
Inductive Schema := mkSchema {
  Description : string;
  Summary : string;
  Extensions : gmap string yamlNode;
  Properties : list (string * option Schema);
  Items : option (option Schema * list (option Schema));
  AllOf : list (option Schema);
  OneOf : list (option Schema);
  AnyOf : list (option Schema);
}.

(** [ogen.Parameter]. *)
Record Param := {
  Param_Description : string;
  Param_Schema : option Schema;
}.

(** [ogen.Media], and [ogen.RequestBody] with its [Content], a
    [map[string]Media], in the order in which [range] yields it. *)
Record Media := { Media_Schema : option Schema }.

Record RequestBody := { Content : list (string * Media) }.

End ogen.

(** The [yaml.Node] literal that [setSchemaRecursive] stores: the mapping
    [{mcpdescription: description}]. *)
Definition descriptionTag (description : string) : ogen.yamlNode :=
  ogen.Node ogen.MappingNode "!!map" EmptyString
    [ ogen.Node ogen.ScalarNode "!!str" "mcpdescription" [];
      ogen.Node ogen.ScalarNode "!!str" description [] ].

(** The description that the loop over [schema.Properties] passes on for a
    property: its schema's description, else its summary, else its name. *)
Definition propDesc (name : string) (schema : ogen.Schema) : string :=
  let propDesc := ogen.Description schema in
  let propDesc :=
    if String.eqb propDesc EmptyString then ogen.Summary schema else propDesc in
  if String.eqb propDesc EmptyString then name else propDesc.

(** The closure [setSchemaRecursive] of [setDescriptionTag], on a pointer
    that is not nil.  The result is the schema after the call; [None] is
    the run-time panic of a nil pointer dereference.  A nil [prop.Schema]
    and a nil [items.Item] are skipped by the guards of the source; an
    entry of [items.Items] is passed on unguarded, and [s.Description] is
    read from each entry of [AllOf], [OneOf] and [AnyOf]. *)
Fixpoint setSchemaRecursive_at (schema : ogen.Schema) (description : string)
  {struct schema} : option ogen.Schema :=
  match schema with
  | ogen.mkSchema desc summ extensions properties items allOf oneOf anyOf =>
      let extensions' :=
        if String.eqb description EmptyString then extensions
        else <[ "x-oapi-codegen-extra-tags" := descriptionTag description ]>
               extensions in
      properties' ←
        mapM (fun prop : string * option ogen.Schema =>
                match prop with
                | (name, Some ps) =>
                    ps' ← setSchemaRecursive_at ps (propDesc name ps);
                    Some (name, Some ps')
                | (name, None) => Some (name, None)
                end) properties;
      items' ←
        match items with
        | None => Some None
        | Some (item, its) =>
            item' ← match item with
                    | Some i =>
                        i' ← setSchemaRecursive_at i EmptyString; Some (Some i')
                    | None => Some None
                    end;
            its' ← mapM (fun it : option ogen.Schema =>
                           match it with
                           | Some i =>
                               i' ← setSchemaRecursive_at i EmptyString;
                               Some (Some i')
                           | None => None
                           end) its;
            Some (Some (item', its'))
        end;
      let each := fun s : option ogen.Schema =>
                    match s with
                    | Some x =>
                        x' ← setSchemaRecursive_at x (ogen.Description x);
                        Some (Some x')
                    | None => None
                    end in
      allOf' ← mapM each allOf;
      oneOf' ← mapM each oneOf;
      anyOf' ← mapM each anyOf;
      Some (ogen.mkSchema desc summ extensions' properties' items' allOf' oneOf'
              anyOf')
  end.

(** [setSchemaRecursive(schema, description)]: with a nil [schema] the
    first guard is skipped and [schema.Properties] panics. *)
Definition setSchemaRecursive (schema : option ogen.Schema) (description : string)
  : option ogen.Schema :=
  match schema with
  | Some s => setSchemaRecursive_at s description
  | None => None
  end.

(** The closure [setParameter]: the parameters after the call, or [None]
    for the panic of [param.Description] on a nil entry. *)
Definition setParameter (parameters : list (option ogen.Param))
  : option (list (option ogen.Param)) :=
  mapM (fun param : option ogen.Param =>
          match param with
          | None => None
          | Some p =>
              match ogen.Param_Schema p with
              | Some schema =>
                  if String.eqb (ogen.Param_Description p) EmptyString
                  then Some (Some p)
                  else
                    schema' ← setSchemaRecursive (Some schema)
                                (ogen.Param_Description p);
                    Some (Some {| ogen.Param_Description :=
                                    ogen.Param_Description p;
                                  ogen.Param_Schema := Some schema' |})
              | None => Some (Some p)
              end
          end) parameters.

(** The closure [setRequestBody]. *)
Definition setRequestBody (body : option ogen.RequestBody)
  : option (option ogen.RequestBody) :=
  match body with
  | None => Some None
  | Some b =>
      content' ←
        mapM (fun entry : string * ogen.Media =>
                let (key, media) := entry in
                match ogen.Media_Schema media with
                | Some schema =>
                    if negb (String.eqb (ogen.Description schema) EmptyString)
                       || negb (String.eqb (ogen.Summary schema) EmptyString)
                    then
                      let desc := ogen.Description schema in
                      let desc :=
                        if String.eqb desc EmptyString then ogen.Summary schema
                        else desc in
                      schema' ← setSchemaRecursive (Some schema) desc;
                      Some (key, {| ogen.Media_Schema := Some schema' |})
                    else Some entry
                | None => Some entry
                end) (ogen.Content b);
      Some (Some {| ogen.Content := content' |})
  end.

(** ** [cleanDir] *)

(** [os.DirEntry], as far as [cleanDir] asks it. *)
Record DirEntry := { IsDir : bool; DirEntry_Name : string }.

(** The error that [errors.Join] builds around the errors that are not
    nil; [E] is the type of the errors of [os.Remove]. *)
Inductive joinError (E : Type) :=
| OsError (err : E)
| Join (errs : list (joinError E)).

Arguments OsError {E} err.
Arguments Join {E} errs.

(** [errors.Join(rerr, err)] for an [err] that is not nil. *)
Definition errors_Join {E : Type} (rerr : option (joinError E)) (err : E)
  : option (joinError E) :=
  match rerr with
  | None => Some (Join [OsError err])
  | Some j => Some (Join [j; OsError err])
  end.

(** A run of [cleanDir]: each call of [os.Remove] with its result, in
    order, and the error returned. *)
Record cleaning (World E : Type) := {
  world : World;
  removals : list (string * option E);
  rerr : option (joinError E);
}.

Arguments world {World E} c.
Arguments removals {World E} c.
Arguments rerr {World E} c.

Section CleanDir.

(** The file system is a state that [os.Remove] changes; it, the test
    [os.IsNotExist] and [filepath.Join] are taken as given. *)
Context {World E : Type}.
Variable os_Remove : string -> World -> World * option E.
Variable os_IsNotExist : E -> bool.
Variable filepath_Join : string -> string -> string.

(** One turn of the loop of [cleanDir]. *)
Definition cleanDir_step (targetDir : string) (run : cleaning World E)
  (f : DirEntry) : cleaning World E :=
  if IsDir f then run
  else
    let name := DirEntry_Name f in
    if negb (strings.HasSuffix name "_gen.go")
       && negb (strings.HasSuffix name "_gen_test.go")
    then run
    else if negb (strings.HasPrefix name "openapi")
            && negb (strings.HasPrefix name "oas")
    then run
    else
      let path := filepath_Join targetDir name in
      let (w, err) := os_Remove path (world run) in
      {| world := w;
         removals := removals run ++ [(path, err)];
         rerr := match err with
                 | Some e =>
                     if os_IsNotExist e then rerr run
                     else errors_Join (rerr run) e
                 | None => rerr run
                 end |}.

(** [func cleanDir(targetDir string, files []os.DirEntry) (rerr error)]. *)
Definition cleanDir (targetDir : string) (files : list DirEntry) (w : World)
  : cleaning World E :=
  fold_left (cleanDir_step targetDir) files
    {| world := w; removals := []; rerr := None |}.

End CleanDir.

(** ** Notions used in the statements about the generator *)

(** [P] holds behind a pointer that is not nil. *)
Definition onPointer (P : ogen.Schema -> Prop) (schema : option ogen.Schema)
  : Prop :=
  match schema with
  | Some s => P s
  | None => True
  end.

(** No pointer that [setSchemaRecursive] follows without a guard is nil:
    below [schema], every entry of an [Items.Items], [AllOf], [OneOf] or
    [AnyOf] list points to a schema. *)
Fixpoint noNilEntry (schema : ogen.Schema) : bool :=
  match schema with
  | ogen.mkSchema _ _ _ properties items allOf oneOf anyOf =>
      let entry := fun s : option ogen.Schema =>
                     match s with
                     | Some x => noNilEntry x
                     | None => false
                     end in
      forallb (fun prop : string * option ogen.Schema =>
                 match prop with
                 | (_, Some ps) => noNilEntry ps
                 | (_, None) => true
                 end) properties
      && match items with
         | None => true
         | Some (item, its) =>
             match item with
             | Some i => noNilEntry i
             | None => true
             end && forallb entry its
         end
      && forallb entry allOf && forallb entry oneOf && forallb entry anyOf
  end.

(** The schema without the extension that [setSchemaRecursive] writes, at
    every depth. *)
Fixpoint withoutTag (schema : ogen.Schema) : ogen.Schema :=
  match schema with
  | ogen.mkSchema desc summ extensions properties items allOf oneOf anyOf =>
      ogen.mkSchema desc summ (delete "x-oapi-codegen-extra-tags" extensions)
        (map (fun prop : string * option ogen.Schema =>
                match prop with
                | (name, Some ps) => (name, Some (withoutTag ps))
                | (name, None) => (name, None)
                end) properties)
        (match items with
         | None => None
         | Some (item, its) =>
             Some (match item with
                   | Some i => Some (withoutTag i)
                   | None => None
                   end,
                   map (fun s : option ogen.Schema =>
                          match s with
                          | Some x => Some (withoutTag x)
                          | None => None
                          end) its)
         end)
        (map (fun s : option ogen.Schema =>
                match s with Some x => Some (withoutTag x) | None => None end) allOf)
        (map (fun s : option ogen.Schema =>
                match s with Some x => Some (withoutTag x) | None => None end) oneOf)
        (map (fun s : option ogen.Schema =>
                match s with Some x => Some (withoutTag x) | None => None end) anyOf)
  end.

(** The extension of a schema after [setSchemaRecursive] was called on it
    with [description]. *)
Definition tagged (description : string) (extensions : gmap string ogen.yamlNode)
  : gmap string ogen.yamlNode :=
  if String.eqb description EmptyString then extensions
  else <[ "x-oapi-codegen-extra-tags" := descriptionTag description ]> extensions.

(** The names that [cleanDir] removes: a file, not a directory, whose
    name ends in [_gen.go] or [_gen_test.go] and begins with [openapi] or
    [oas]. *)
Definition isGenerated (f : DirEntry) : bool :=
  negb (IsDir f)
  && (strings.HasSuffix (DirEntry_Name f) "_gen.go"
      || strings.HasSuffix (DirEntry_Name f) "_gen_test.go")
  && (strings.HasPrefix (DirEntry_Name f) "openapi"
      || strings.HasPrefix (DirEntry_Name f) "oas").

(** An [os.Remove] that left nothing to report: no error, or the error
    that the file does not exist. *)
Definition removedOrAbsent {E : Type} (os_IsNotExist : E -> bool)
  (removal : string * option E) : bool :=
  match snd removal with
  | Some e => os_IsNotExist e
  | None => true
  end.

(** The calls that [setSchemaRecursive] makes on the parts of a schema:
    on a property, on an entry of [Items.Items], on the [Items] as a
    whole, and on an entry of [AllOf], [OneOf] or [AnyOf]. *)
Definition setProperty (prop : string * option ogen.Schema)
  : option (string * option ogen.Schema) :=
  match prop with
  | (name, Some ps) =>
      ps' ← setSchemaRecursive_at ps (propDesc name ps); Some (name, Some ps')
  | (name, None) => Some (name, None)
  end.

Definition setEntry (it : option ogen.Schema) : option (option ogen.Schema) :=
  match it with
  | Some i => i' ← setSchemaRecursive_at i EmptyString; Some (Some i')
  | None => None
  end.

Definition setItems (items : option (option ogen.Schema * list (option ogen.Schema)))
  : option (option (option ogen.Schema * list (option ogen.Schema))) :=
  match items with
  | None => Some None
  | Some (item, its) =>
      item' ← match item with
              | Some i => i' ← setSchemaRecursive_at i EmptyString; Some (Some i')
              | None => Some None
              end;
      its' ← mapM setEntry its;
      Some (Some (item', its'))
  end.

Definition setMember (s : option ogen.Schema) : option (option ogen.Schema) :=
  match s with
  | Some x => x' ← setSchemaRecursive_at x (ogen.Description x); Some (Some x')
  | None => None
  end.

(** Two pointers to schemas with the same extensions, or both nil. *)
Definition sameExtensions (before after : option ogen.Schema) : Prop :=
  match before, after with
  | Some x, Some x' => ogen.Extensions x' = ogen.Extensions x
  | None, None => True
  | _, _ => False
  end.

(** A leaf schema with a description, a summary and no extension. *)
Definition leafSchema (description summary : string) : ogen.Schema :=
  ogen.mkSchema description summary ∅ [] None [] [] [].

(** An array schema whose item schema is described. *)
Definition tagList : ogen.Schema :=
  ogen.mkSchema EmptyString EmptyString ∅ []
    (Some (Some (leafSchema "A tag" EmptyString), [])) [] [] [].

(** An object schema with the properties [name] (described), [nick]
    (with a summary only), [age] (with neither) and [tags], an array. *)
Definition petSchema : ogen.Schema :=
  ogen.mkSchema "A pet" EmptyString ∅
    [ ("name", Some (leafSchema "Name of the pet" "ignored"));
      ("nick", Some (leafSchema EmptyString "Short name"));
      ("age", Some (leafSchema EmptyString EmptyString));
      ("tags", Some tagList) ]
    None [] [] [].

(** * Properties *)

(** ** [strconv]: printing an integer and reading it back *)

Lemma digit_cases (d : Z) :
  0 <= d < 10 ->
  d = 0 \/ d = 1 \/ d = 2 \/ d = 3 \/ d = 4 \/ d = 5 \/ d = 6 \/ d = 7 \/ d = 8 \/ d = 9.
Proof. lia. Qed.

Lemma digitOfChar_charOfDigit (d : Z) :
  0 <= d < 10 -> strconv.digitOfChar (strconv.charOfDigit d) = Some d.
Proof.
  intros Hd. destruct (digit_cases d Hd) as [->|[->|[->|[->|[->|[->|[->|[->|[->| ->]]]]]]]]];
    reflexivity.
Qed.

Lemma charOfDigit_not_sign (d : Z) :
  0 <= d < 10 ->
  Ascii.eqb (strconv.charOfDigit d) "+" = false
  /\ Ascii.eqb (strconv.charOfDigit d) "-" = false.
Proof.
  intros Hd. destruct (digit_cases d Hd) as [->|[->|[->|[->|[->|[->|[->|[->|[->| ->]]]]]]]]];
    split; reflexivity.
Qed.

Lemma parseDigits_digit (d : Z) (rest : string) (n : Z) :
  0 <= d < 10 -> n * 10 + d <= strconv.maxUint64 ->
  strconv.parseDigits (String (strconv.charOfDigit d) rest) n
  = strconv.parseDigits rest (n * 10 + d).
Proof.
  intros Hd Hmax. cbn [strconv.parseDigits].
  rewrite (digitOfChar_charOfDigit d Hd).
  destruct (Z.ltb_spec strconv.maxUint64 (n * 10 + d)); [lia | reflexivity].
Qed.

(** Reading back what [formatBits] wrote in front of [acc] leaves [acc] to
    be read with [u] as the number read so far. *)
Lemma parseDigits_formatBits (fuel : nat) :
  forall (u : Z) (acc : string),
    0 <= u < 2 ^ Z.of_nat fuel -> u <= strconv.maxUint64 ->
    strconv.parseDigits (strconv.formatBits fuel u acc) 0
    = strconv.parseDigits acc u.
Proof.
  induction fuel as [|fuel IH]; intros u acc Hu Hmax.
  - cbn in Hu. assert (u = 0) as -> by lia. reflexivity.
  - cbn [strconv.formatBits].
    assert (Hmod : 0 <= u mod 10 < 10) by (apply Z.mod_pos_bound; lia).
    assert (Hdiv : u = u / 10 * 10 + u mod 10)
      by (rewrite (Z.mul_comm (u / 10)); apply Z.div_mod; lia).
    destruct (Z.ltb_spec u 10) as [Hlt|Hge].
    + rewrite parseDigits_digit by (rewrite ?Z.mod_small; lia).
      rewrite Z.mod_small by lia. reflexivity.
    + rewrite IH.
      * rewrite parseDigits_digit by lia. rewrite <- Hdiv. reflexivity.
      * split; [apply Z.div_pos; lia|].
        apply Z.div_lt_upper_bound; [lia|].
        rewrite Nat2Z.inj_succ, Z.pow_succ_r in Hu by lia. lia.
      * assert (0 <= u / 10) by (apply Z.div_pos; lia). lia.
Qed.

(** With fuel left, [formatBits] writes a digit first. *)
Lemma formatBits_head (fuel : nat) :
  forall (u : Z) (acc : string),
    0 <= u -> fuel <> O ->
    exists d rest, 0 <= d < 10
                   /\ strconv.formatBits fuel u acc = String (strconv.charOfDigit d) rest.
Proof.
  induction fuel as [|fuel IH]; intros u acc Hu Hfuel; [congruence|].
  cbn [strconv.formatBits].
  assert (Hmod : 0 <= u mod 10 < 10) by (apply Z.mod_pos_bound; lia).
  destruct (u <? 10); [eauto|].
  destruct fuel as [|fuel'].
  - cbn. eauto.
  - apply IH; [apply Z.div_pos; lia | congruence].
Qed.

Lemma ParseUint_FormatUint (u : Z) :
  0 <= u <= strconv.maxUint64 ->
  strconv.ParseUint (strconv.FormatUint u) = inl u
  /\ exists d rest, 0 <= d < 10
                    /\ strconv.FormatUint u = String (strconv.charOfDigit d) rest.
Proof.
  intros Hu. unfold strconv.FormatUint.
  destruct (formatBits_head (S (Z.to_nat (Z.log2 u))) u EmptyString)
    as (d & rest & Hd & Heq); [lia | congruence |].
  split; [|eauto].
  unfold strconv.ParseUint.
  destruct (strconv.formatBits (S (Z.to_nat (Z.log2 u))) u EmptyString)
    as [|c s] eqn:E; [discriminate Heq|].
  rewrite <- E, parseDigits_formatBits; [reflexivity | | lia].
  split; [lia|].
  rewrite Nat2Z.inj_succ, Z2Nat.id by apply Z.log2_nonneg.
  destruct (Z.eq_dec u 0) as [->|Hne]; [reflexivity|].
  apply Z.log2_spec. lia.
Qed.

(** [strconv.ParseInt] reads back every [int64] that [strconv.FormatInt]
    printed. *)
Lemma ParseInt_FormatInt (i : Z) :
  - 2 ^ 63 <= i < 2 ^ 63 -> strconv.ParseInt (strconv.FormatInt i) = inl i.
Proof.
  intros Hi. unfold strconv.FormatInt.
  destruct (Z.ltb_spec i 0) as [Hneg|Hpos].
  - destruct (ParseUint_FormatUint (- i)) as [Hparse _];
      [unfold strconv.maxUint64; lia|].
    unfold strconv.ParseInt. cbn [Ascii.eqb Bool.eqb orb negb andb].
    rewrite Hparse. cbn [negb andb].
    destruct (Z.ltb_spec (2 ^ 63) (- i)); [lia|].
    f_equal. lia.
  - destruct (ParseUint_FormatUint i) as [Hparse (d & rest & Hd & Heq)];
      [unfold strconv.maxUint64; lia|].
    unfold strconv.ParseInt.
    destruct (strconv.FormatUint i) as [|c s] eqn:E; [discriminate Heq|].
    injection Heq as -> ->.
    destruct (charOfDigit_not_sign d Hd) as [-> ->].
    cbn [orb negb andb]. rewrite Hparse.
    destruct (Z.leb_spec (2 ^ 63) i); [lia|]. reflexivity.
Qed.

(** ** [reflect]: type identity *)

Lemma StructTag_eqb_refl (tag : StructTag) : StructTag_eqb tag tag = true.
Proof.
  induction tag as [|[k v] tag IH]; cbn; [reflexivity|].
  rewrite !String.eqb_refl, IH. reflexivity.
Qed.

Lemma FieldInfo_eqb_refl (field : FieldInfo) : FieldInfo_eqb field field = true.
Proof.
  unfold FieldInfo_eqb. rewrite !String.eqb_refl, StructTag_eqb_refl. reflexivity.
Qed.

Lemma gotype_eqb_refl : forall t : gotype, gotype_eqb t t = true.
Proof.
  fix IH 1. intros [ | [] | [] | [] | | e | n e | k e | fs | e | [] ]; cbn;
    try reflexivity.
  - apply IH.
  - rewrite Nat.eqb_refl, IH. reflexivity.
  - rewrite !IH. reflexivity.
  - induction fs as [|[field t] fs IHfs]; [reflexivity|].
    rewrite FieldInfo_eqb_refl, IH, IHfs. reflexivity.
  - apply IH.
Qed.

(** ** Binding a struct parameter *)

Section BindStruct.

Context `{!GoStd}.

(** [Value_Set] stores or panics; it returns no error. *)
Lemma Value_Set_not_Err (t : gotype) (x : value) (e : error) :
  Value_Set t x <> Err e.
Proof.
  unfold Value_Set. destruct x; try discriminate;
    destruct (AssignableTo _ t); discriminate.
Qed.

(** Binding reads [params] only at the wire-names of the fields. *)
Lemma bindFields_agree (params1 params2 : gmap string value)
  (fields : list StructField) :
  (forall field fieldType,
      (field, fieldType) ∈ fields ->
      params1 !! bindName field = params2 !! bindName field) ->
  bindFields params1 fields = bindFields params2 fields.
Proof.
  induction fields as [|[field fieldType] fields IH]; intros Hagree;
    [reflexivity|].
  cbn [bindFields].
  rewrite (Hagree field fieldType) by apply list_elem_of_here.
  rewrite IH; [reflexivity|].
  intros f t Hin. apply (Hagree f t). apply list_elem_of_further, Hin.
Qed.

(** After a successful bind, a field whose wire-name is not a key of
    [params] holds the zero value of its type. *)
Lemma bindFields_absent (params : gmap string value) (fields : list StructField) :
  forall vals,
    bindFields params fields = Ok vals ->
    forall (j : nat) field fieldType,
      fields !! j = Some (field, fieldType) ->
      params !! bindName field = None ->
      vals !! j = Some (Zero fieldType).
Proof.
  induction fields as [|[field0 type0] fields IH]; intros vals Hbind j field fieldType Hj Habs;
    [discriminate Hj|].
  cbn [bindFields] in Hbind.
  destruct j as [|j]; cbn in Hj.
  - injection Hj as -> ->. rewrite Habs in Hbind. cbn in Hbind.
    destruct (bindFields params fields); cbn in Hbind; try discriminate.
    injection Hbind as <-. reflexivity.
  - destruct (match params !! bindName field0 with Some _ => _ | None => _ end)
      as [v0| |]; cbn in Hbind; try discriminate.
    destruct (bindFields params fields) as [rest| |] eqn:Hrest; cbn in Hbind;
      try discriminate.
    injection Hbind as <-. cbn. eapply IH; eauto.
Qed.

(** An error of the bind is the conversion error of an entry that is
    present under the wire-name of a settable field. *)
Lemma bindFields_Err (params : gmap string value) (fields : list StructField)
  (err : error) :
  bindFields params fields = Err err ->
  exists field fieldType paramValue cause,
    (field, fieldType) ∈ fields
    /\ CanSet field = true
    /\ params !! bindName field = Some paramValue
    /\ convertToType paramValue fieldType = Err cause
    /\ err = Errorf "failed to convert parameter %s: %w"
               [AString (bindName field)] (Some cause).
Proof.
  induction fields as [|[field0 type0] fields IH]; intros Hbind;
    [discriminate Hbind|].
  cbn [bindFields] in Hbind.
  destruct (params !! bindName field0) as [paramValue|] eqn:Hlook.
  - destruct (CanSet field0) eqn:Hset.
    + destruct (convertToType paramValue type0) as [c|cause|p] eqn:Hconv.
      * destruct (Value_Set type0 c) as [stored|e|p] eqn:Hstore; cbn in Hbind.
        -- destruct (bindFields params fields) as [rest|e|p]; cbn in Hbind;
             try discriminate.
           destruct IH as (f & t & v & cause & Hin & ?); [congruence|].
           exists f, t, v, cause. split; [apply list_elem_of_further, Hin | assumption].
        -- exfalso. exact (Value_Set_not_Err _ _ _ Hstore).
        -- discriminate.
      * cbn in Hbind. injection Hbind as <-.
        exists field0, type0, paramValue, cause.
        split; [apply list_elem_of_here | auto].
      * discriminate.
    + cbn in Hbind.
      destruct (bindFields params fields) as [rest|e|p]; cbn in Hbind;
        try discriminate.
      destruct IH as (f & t & v & cause & Hin & ?); [congruence|].
      exists f, t, v, cause. split; [apply list_elem_of_further, Hin | assumption].
  - cbn in Hbind.
    destruct (bindFields params fields) as [rest|e|p]; cbn in Hbind;
      try discriminate.
    destruct IH as (f & t & v & cause & Hin & ?); [congruence|].
    exists f, t, v, cause. split; [apply list_elem_of_further, Hin | assumption].
Qed.

(** The first coercion that fails ends the bind with its error. *)
Lemma bindFields_first_failure (params : gmap string value)
  (pre post : list StructField) (field : FieldInfo) (fieldType : gotype)
  (paramValue : value) (cause : error) (vals : list value) :
  bindFields params pre = Ok vals ->
  CanSet field = true ->
  params !! bindName field = Some paramValue ->
  convertToType paramValue fieldType = Err cause ->
  bindFields params (pre ++ (field, fieldType) :: post)
  = Err (Errorf "failed to convert parameter %s: %w"
           [AString (bindName field)] (Some cause)).
Proof.
  revert vals. induction pre as [|[field0 type0] pre IH]; intros vals Hpre Hset Hlook Hconv.
  - cbn [app bindFields]. rewrite Hlook, Hset, Hconv. reflexivity.
  - cbn [app bindFields] in *.
    destruct (match params !! bindName field0 with Some _ => _ | None => _ end)
      as [v0| |]; cbn in Hpre |- *; try discriminate.
    destruct (bindFields params pre) as [rest| |] eqn:Hrest; cbn in Hpre;
      try discriminate.
    rewrite (IH rest) by auto. reflexivity.
Qed.

(** The binding phase for a function whose one parameter after the
    context is a struct. *)
Lemma Bind_struct (rangeFirst : nat -> string) (fn : Func)
  (fields : list StructField) (params : gmap string value) :
  boundIns fn = [TStruct fields] ->
  Bind rangeFirst fn params
  = (vals <- bindFields params fields ;; Ok [Some (VStruct fields vals)]).
Proof.
  intros Hins. unfold Bind. rewrite Hins. cbn [bindArgs].
  destruct (bindFields params fields); reflexivity.
Qed.

Lemma Execute_Bind_Err (rangeFirst : nat -> string) (t : Tool)
  (params : gmap string value) (err : error) :
  Bind rangeFirst (function t) params = Err err ->
  Execute rangeFirst t params
  = {| calls := []; ended := Returned VNil (Some err) |}.
Proof. intros Hbind. unfold Execute. rewrite Hbind. reflexivity. Qed.

End BindStruct.

(** ** Binding any parameter list *)

Section BindArgs.

Context `{!GoStd}.

Lemma bindParam_Err (firstKey : string) (params : gmap string value)
  (paramType : gotype) (err : error) :
  bindParam firstKey params paramType = Err err ->
  conversionErrorOf params err.
Proof.
  unfold bindParam.
  destruct (String.eqb _ EmptyString); [discriminate|].
  set (paramName := if (0 <? size params)%nat then firstKey else EmptyString).
  destruct (params !! paramName) as [paramValue|] eqn:Hlook; [|discriminate].
  destruct (convertToType paramValue paramType) as [c|cause|p] eqn:Hconv.
  - destruct c; discriminate.
  - intros [= <-]. exists paramName, cause, paramValue, paramType. auto.
  - discriminate.
Qed.

Lemma bindArgs_Err (rangeFirst : nat -> string) (params : gmap string value)
  (ins : list gotype) :
  forall (i : nat) (isFirst : bool) (err : error),
    bindArgs rangeFirst params i isFirst ins = Err err ->
    conversionErrorOf params err.
Proof.
  induction ins as [|paramType ins IH]; intros i isFirst err Hbind;
    [discriminate Hbind|].
  cbn [bindArgs] in Hbind.
  match type of Hbind with
  | result_bind ?arg _ = _ => destruct arg as [a|e|p] eqn:Harg
  end; cbn in Hbind; [| injection Hbind as -> | discriminate].
  - destruct (bindArgs rangeFirst params (S i) false ins) as [rest|e|p] eqn:Hrest;
      cbn in Hbind; try discriminate.
    injection Hbind as ->. eapply IH, Hrest.
  - destruct paramType as [ | k | k | k | | e | n e | key elem | fields | e | i' ];
      try (eapply bindParam_Err, Harg).
    + destruct key; try (eapply bindParam_Err, Harg).
      destruct elem; try (eapply bindParam_Err, Harg).
      destruct isFirst; [discriminate | eapply bindParam_Err, Harg].
    + destruct (bindFields params fields) as [vals|e|p] eqn:Hfields;
        cbn in Harg; try discriminate.
      injection Harg as ->.
      destruct (bindFields_Err _ _ _ Hfields)
        as (field & fieldType & paramValue & cause & _ & _ & Hlook & Hconv & ->).
      exists (bindName field), cause, paramValue, fieldType. auto.
Qed.

Lemma Bind_single (rangeFirst : nat -> string) (fn : Func)
  (paramType : gotype) (params : gmap string value) :
  boundIns fn = [paramType] -> singleShape paramType = true ->
  Bind rangeFirst fn params
  = (arg <- bindParam (rangeFirst (if hasContext fn then 1%nat else 0%nat))
              params paramType ;;
     Ok [arg]).
Proof.
  intros Hins Hshape. unfold Bind. rewrite Hins. cbn [bindArgs].
  destruct paramType as [ | | | | | | | [] [] | | | ]; try discriminate Hshape;
    match goal with
    | |- result_bind ?arg _ = _ => destruct arg; reflexivity
    end.
Qed.

End BindArgs.

(** ** C10 *)

(** C10.  For a function whose parameter after the context is a struct,
    the input map is read only at the wire-names of the declared fields:
    two maps that agree there give the same bind and the same execution
    (so an entry under any other key changes nothing and causes no error),
    and an error of the bind is the conversion error of an entry present
    under a declared field's wire-name. *)
Theorem Execute_struct_ignores_undeclared_keys `{!GoStd}
  (rangeFirst : nat -> string) (t : Tool) (fields : list StructField)
  (params1 params2 : gmap string value) :
  boundIns (function t) = [TStruct fields] ->
  (forall field fieldType,
      (field, fieldType) ∈ fields ->
      params1 !! bindName field = params2 !! bindName field) ->
  Bind rangeFirst (function t) params1 = Bind rangeFirst (function t) params2
  /\ Execute rangeFirst t params1 = Execute rangeFirst t params2
  /\ (forall err,
         Bind rangeFirst (function t) params1 = Err err ->
         exists field fieldType paramValue cause,
           (field, fieldType) ∈ fields
           /\ params1 !! bindName field = Some paramValue
           /\ convertToType paramValue fieldType = Err cause
           /\ err = Errorf "failed to convert parameter %s: %w"
                      [AString (bindName field)] (Some cause)).
Proof.
  intros Hins Hagree.
  assert (Hbind : Bind rangeFirst (function t) params1
                  = Bind rangeFirst (function t) params2).
  { rewrite !(Bind_struct _ _ fields) by assumption.
    rewrite (bindFields_agree params1 params2) by assumption. reflexivity. }
  split; [exact Hbind|]. split.
  - unfold Execute. rewrite Hbind. reflexivity.
  - intros err Herr. rewrite (Bind_struct _ _ fields) in Herr by assumption.
    destruct (bindFields params1 fields) as [vals|e|p] eqn:Hfields;
      cbn in Herr; try discriminate.
    injection Herr as ->.
    destruct (bindFields_Err _ _ _ Hfields)
      as (field & fieldType & paramValue & cause & Hin & _ & Hlook & Hconv & ->).
    exists field, fieldType, paramValue, cause. auto.
Qed.

Lemma Execute_struct_ignores_undeclared_keys_witness :
  @Execute inertStd (fun _ => "extra")
    (NewFunctionTool "echo" EmptyString (ctxFunc (TStruct idNote) echo))
    (<["extra" := VBool true]> {[ "id" := VString "42" ]})
  = @Execute inertStd (fun _ => "extra")
      (NewFunctionTool "echo" EmptyString (ctxFunc (TStruct idNote) echo))
      {[ "id" := VString "42" ]}.
Proof.
  refine (proj1 (proj2 (@Execute_struct_ignores_undeclared_keys inertStd
            (fun _ => "extra")
            (NewFunctionTool "echo" EmptyString (ctxFunc (TStruct idNote) echo))
            idNote
            (<["extra" := VBool true]> {[ "id" := VString "42" ]})
            {[ "id" := VString "42" ]} eq_refl _))).
  intros field fieldType Hin.
  apply list_elem_of_In in Hin.
  destruct Hin as [[= <- <-]|[[= <- <-]|[]]]; vm_compute; reflexivity.
Defined.

(** ** C8 *)

Lemma lookup_Some_size_pos (params : gmap string value) (k : string) (v : value) :
  params !! k = Some v -> (0 <? size params)%nat = true.
Proof.
  intros Hlook. apply Nat.ltb_lt.
  destruct (size params) eqn:Hsize; [|lia].
  apply map_size_empty_iff in Hsize. subst params.
  rewrite lookup_empty in Hlook. discriminate.
Qed.

(** C8.  A bind that fails never reaches the wrapped function.
    (a) When the binding phase ends with an error, [Execute] returns that
    error with a nil result and has made no call, and the error is the
    conversion error of a present input value, qualified by its key.
    (b) For a struct parameter, when the fields before a field bind and the
    coercion of that field's present value fails, [Execute] returns
    exactly that field-qualified error, with a nil result and no call.
    (c) The same for a single parameter of another type and the key that
    binding picked.
    (d) Whenever [Execute] did call the function, the binding phase had
    succeeded. *)
Theorem Execute_failed_bind_never_calls `{!GoStd}
  (rangeFirst : nat -> string) (t : Tool) (params : gmap string value) :
  (forall err,
      Bind rangeFirst (function t) params = Err err ->
      Execute rangeFirst t params
      = {| calls := []; ended := Returned VNil (Some err) |}
      /\ conversionErrorOf params err)
  /\ (forall pre field fieldType post paramValue cause vals,
         boundIns (function t) = [TStruct (pre ++ (field, fieldType) :: post)] ->
         bindFields params pre = Ok vals ->
         CanSet field = true ->
         params !! bindName field = Some paramValue ->
         convertToType paramValue fieldType = Err cause ->
         Execute rangeFirst t params
         = {| calls := [];
              ended := Returned VNil
                         (Some (Errorf "failed to convert parameter %s: %w"
                                  [AString (bindName field)] (Some cause))) |})
  /\ (forall paramType paramName paramValue cause,
         boundIns (function t) = [paramType] ->
         singleShape paramType = true ->
         rangeFirst (if hasContext (function t) then 1%nat else 0%nat) = paramName ->
         paramName <> EmptyString ->
         params !! paramName = Some paramValue ->
         convertToType paramValue paramType = Err cause ->
         Execute rangeFirst t params
         = {| calls := [];
              ended := Returned VNil
                         (Some (Errorf "failed to convert parameter %s: %w"
                                  [AString paramName] (Some cause))) |})
  /\ (calls (Execute rangeFirst t params) <> [] ->
      exists args, Bind rangeFirst (function t) params = Ok args).
Proof.
  split; [|split; [|split]].
  - intros err Hbind. split; [apply Execute_Bind_Err, Hbind|].
    unfold Bind in Hbind. eapply bindArgs_Err, Hbind.
  - intros pre field fieldType post paramValue cause vals Hins Hpre Hset Hlook Hconv.
    apply Execute_Bind_Err.
    rewrite (Bind_struct _ _ _ _ Hins).
    rewrite (bindFields_first_failure _ _ _ _ _ _ _ _ Hpre Hset Hlook Hconv).
    reflexivity.
  - intros paramType paramName paramValue cause Hins Hshape Hfirst Hne Hlook Hconv.
    apply Execute_Bind_Err.
    rewrite (Bind_single _ _ _ _ Hins Hshape), Hfirst.
    unfold bindParam. rewrite (lookup_Some_size_pos _ _ _ Hlook).
    destruct (String.eqb_spec paramName EmptyString) as [?|_]; [contradiction|].
    rewrite Hlook, Hconv. reflexivity.
  - intros Hcalls. unfold Execute in Hcalls.
    destruct (Bind rangeFirst (function t) params) as [args|e|p];
      [eauto | contradiction | contradiction].
Qed.

Lemma Execute_failed_bind_never_calls_witness :
  @Execute inertStd (fun _ => "id")
    (NewFunctionTool "echo" EmptyString (ctxFunc (TStruct idNote) echo))
    {[ "id" := VString "abc" ]}
  = {| calls := [];
       ended := Returned VNil
                  (Some (Errorf "failed to convert parameter %s: %w"
                           [AString "id"]
                           (Some (Errorf "cannot convert %v to int: %w"
                                    [AValue (VString "abc")]
                                    (Some (NumError "ParseInt" "abc"
                                             strconv.ErrSyntax)))))) |}.
Proof.
  refine (proj1 (proj2 (@Execute_failed_bind_never_calls inertStd
            (fun _ => "id")
            (NewFunctionTool "echo" EmptyString (ctxFunc (TStruct idNote) echo))
            {[ "id" := VString "abc" ]}))
          [] {| Name := "ID"; PkgPath := EmptyString; Tag := [("json", "id")] |}
          (TInt Int) _ (VString "abc") _ [] eq_refl eq_refl eq_refl _ _);
    vm_compute; reflexivity.
Defined.

(** ** C6 *)

(** C6.  After a bind that succeeded, [Execute] calls the function once
    and reads its results by their number: none gives [(nil, nil)]; one
    gives that value and no error; two, the second of type [error], give
    the first value, with no error when the second is nil and with the
    second itself as the error otherwise. *)
Theorem Execute_return_values `{!GoStd}
  (rangeFirst : nat -> string) (t : Tool) (params : gmap string value)
  (args : list (option value)) (argv : list value) :
  Bind rangeFirst (function t) params = Ok args ->
  checkArgs (boundIns (function t)) args = Ok argv ->
  let run := Execute rangeFirst t params in
  let results := Func_Call (function t) argv in
  calls run = [argv]
  /\ (results = [] -> ended run = Returned VNil None)
  /\ (forall resType res,
         results = [(resType, res)] -> ended run = Returned res None)
  /\ (forall resType res,
         results = [(resType, res); (TInterface IError, VNil)] ->
         ended run = Returned res None)
  /\ (forall resType res err,
         results = [(resType, res); (TInterface IError, VError err)] ->
         ended run = Returned res (Some err)).
Proof.
  intros Hbind Hcheck run results.
  assert (Hrun : run = {| calls := [argv]; ended := returnValues results |}).
  { unfold run, Execute. rewrite Hbind, Hcheck. reflexivity. }
  rewrite Hrun. cbn [calls ended].
  split; [reflexivity|].
  repeat split; intros; match goal with H : results = _ |- _ => rewrite H end;
    reflexivity.
Qed.

Lemma Execute_return_values_witness :
  ended (@Execute inertStd (fun _ => "id")
           (NewFunctionTool "refuse" EmptyString (ctxFunc (TStruct idNote) refuse))
           {[ "id" := VString "42" ]})
  = Returned (VStruct idNote [VInt Int 42; VString EmptyString])
      (Some (errors_New "refused")).
Proof.
  refine (proj2 (proj2 (proj2 (proj2 (@Execute_return_values inertStd
            (fun _ => "id")
            (NewFunctionTool "refuse" EmptyString (ctxFunc (TStruct idNote) refuse))
            {[ "id" := VString "42" ]}
            [Some (VStruct idNote [VInt Int 42; VString EmptyString])]
            [VStruct idNote [VInt Int 42; VString EmptyString]] _ _))))
          (TInterface IAny) _ (errors_New "refused") _);
    vm_compute; reflexivity.
Defined.

(** ** C2 *)

(** C2 as stated fails: the function [func(ctx, n int) (any, error)] is
    bound from the input [{"other": "5"}], whose only key is not
    ["value"]; the parameter is bound to [5], not to the zero value of
    [int]. *)
Lemma Bind_single_reads_a_key_other_than_value :
  (forall std : GoStd,
      @Bind std (fun _ => "other") (ctxFunc (TInt Int) echo)
        {[ "other" := VString "5" ]}
      = Ok [Some (VInt Int 5)])
  /\ ({[ "other" := VString "5" ]} : gmap string value) !! "value" = None
  /\ Zero (TInt Int) = VInt Int 0.
Proof. repeat split; intros; vm_compute; reflexivity. Qed.

(** C2, amended.  For a function whose one parameter after the context is
    neither a struct nor the generic map, binding takes the key that
    ranging over the input map yields first.  (a) With an empty map, or
    when that key is the empty string, the parameter is the zero value of
    its type.  (b) Otherwise the entry under that key is coerced to the
    parameter's type; a coercion error is returned under that key.
    (c) When ["value"] is the only key of the map, it is the key taken. *)
Theorem Bind_single_takes_first_ranged_key `{!GoStd}
  (rangeFirst : nat -> string) (fn : Func) (paramType : gotype)
  (params : gmap string value) :
  boundIns fn = [paramType] ->
  singleShape paramType = true ->
  let paramName := rangeFirst (if hasContext fn then 1%nat else 0%nat) in
  let coerced (key : string) (paramValue : value) :=
    match convertToType paramValue paramType with
    | Ok VNil => Ok [None]
    | Ok convertedValue => Ok [Some convertedValue]
    | Err err =>
        Err (Errorf "failed to convert parameter %s: %w" [AString key] (Some err))
    | Panic p => Panic p
    end in
  (size params = O \/ paramName = EmptyString ->
   Bind rangeFirst fn params = Ok [Some (Zero paramType)])
  /\ (forall paramValue,
         paramName <> EmptyString ->
         params !! paramName = Some paramValue ->
         Bind rangeFirst fn params = coerced paramName paramValue)
  /\ (forall paramValue,
         params = {[ "value" := paramValue ]} ->
         is_Some (params !! paramName) ->
         Bind rangeFirst fn params = coerced "value" paramValue).
Proof.
  intros Hins Hshape paramName coerced.
  assert (Hb : forall paramValue,
             paramName <> EmptyString ->
             params !! paramName = Some paramValue ->
             Bind rangeFirst fn params = coerced paramName paramValue).
  { intros paramValue Hne Hlook.
    rewrite (Bind_single _ _ _ _ Hins Hshape). fold paramName.
    unfold bindParam. rewrite (lookup_Some_size_pos _ _ _ Hlook).
    destruct (String.eqb_spec paramName EmptyString) as [?|_]; [contradiction|].
    rewrite Hlook. unfold coerced.
    destruct (convertToType paramValue paramType) as [[]| |]; reflexivity. }
  split; [|split; [exact Hb|]].
  - intros Hzero. rewrite (Bind_single _ _ _ _ Hins Hshape). fold paramName.
    unfold bindParam.
    destruct Hzero as [-> | ->]; [reflexivity|].
    destruct (0 <? size params)%nat; reflexivity.
  - intros paramValue -> [v Hlook].
    destruct (String.eqb_spec paramName "value") as [Heq|Hne].
    + specialize (Hb paramValue). rewrite Heq in Hb.
      apply Hb; [discriminate | apply lookup_singleton_eq].
    + rewrite lookup_singleton_ne in Hlook by congruence. discriminate.
Qed.

Lemma Bind_single_takes_first_ranged_key_witness :
  @Bind inertStd (fun _ => "value") (ctxFunc (TInt Int) echo)
    {[ "value" := VString "42" ]}
  = Ok [Some (VInt Int 42)].
Proof.
  refine (proj2 (proj2 (@Bind_single_takes_first_ranged_key inertStd
            (fun _ => "value") (ctxFunc (TInt Int) echo) (TInt Int)
            {[ "value" := VString "42" ]} eq_refl eq_refl))
          (VString "42") eq_refl _).
  exists (VString "42"). vm_compute; reflexivity.
Defined.

(** ** C7 *)

Lemma fieldStep_spec (descKey : string) (typeSchema : gotype -> gmap string jsv)
  (required : list string) (properties : gmap string jsv)
  (field : FieldInfo) (fieldType : gotype) :
  fieldStep descKey typeSchema (required, properties) (field, fieldType)
  = if inSchema field
    then (if hasOmitEmpty field then required else required ++ [bindName field],
          <[bindName field :=
              JObject (withDescription descKey field (typeSchema fieldType))]>
            properties)
    else (required, properties).
Proof.
  unfold fieldStep, inSchema, hasOmitEmpty, bindName.
  destruct (String.eqb (PkgPath field) EmptyString); cbn [negb andb]; [|reflexivity].
  destruct (String.eqb (Tag_Get (Tag field) "json") EmptyString) eqn:Htag;
    cbn [negb andb].
  - apply String.eqb_eq in Htag. rewrite Htag. reflexivity.
  - destruct (String.eqb (hd EmptyString (strings.Split (Tag_Get (Tag field) "json") ","))
                "-"); cbn [negb]; [reflexivity|].
    destruct (slices_Contains _ "omitempty"); reflexivity.
Qed.

(** The loop over the fields: [required] grows by the wire-names of the
    fields that take part and are not [omitempty], in order; [properties]
    gets a key for every field that takes part. *)
Lemma fold_fieldStep (descKey : string) (typeSchema : gotype -> gmap string jsv)
  (fields : list StructField) :
  forall (required : list string) (properties : gmap string jsv),
    let out := fold_left (fieldStep descKey typeSchema) fields (required, properties) in
    fst out
    = required
      ++ map (fun f : StructField => bindName (fst f))
           (List.filter (fun f : StructField => isRequiredField (fst f)) fields)
    /\ forall x : string,
        is_Some (snd out !! x)
        <-> is_Some (properties !! x)
            \/ exists field fieldType,
                (field, fieldType) ∈ fields
                /\ inSchema field = true /\ bindName field = x.
Proof.
  induction fields as [|[field fieldType] fields IH]; intros required properties.
  - cbn. split; [rewrite app_nil_r; reflexivity|].
    intros x. split; [auto|].
    intros [H|(field & fieldType & Hin & _)]; [exact H|].
    apply elem_of_nil in Hin. contradiction.
  - cbn [fold_left]. rewrite fieldStep_spec.
    cbn [List.filter map fst]. unfold isRequiredField at 1.
    destruct (inSchema field) eqn:Hin; cbn [andb].
    + match goal with
      | |- context [fold_left _ fields (?r, ?p)] =>
          destruct (IH r p) as [Hreq Hprops]
      end.
      cbv zeta. split.
      * rewrite Hreq. destruct (hasOmitEmpty field); cbn [negb map fst];
          [reflexivity | rewrite <- app_assoc; reflexivity].
      * intros x. rewrite Hprops. split.
        -- intros [Hsome|(f & t & Hf & Hs & Hn)].
           ++ destruct (decide (bindName field = x)) as [Heq|Hne].
              ** right. exists field, fieldType.
                 split; [apply list_elem_of_here | auto].
              ** rewrite lookup_insert_ne in Hsome by exact Hne. auto.
           ++ right. exists f, t. split; [apply list_elem_of_further, Hf | auto].
        -- intros [Hsome|(f & t & Hf & Hs & Hn)].
           ++ left. destruct (decide (bindName field = x)) as [Heq|Hne].
              ** rewrite Heq, lookup_insert_eq. eauto.
              ** rewrite lookup_insert_ne by exact Hne. exact Hsome.
           ++ apply elem_of_cons in Hf. destruct Hf as [[= -> ->]|Hf].
              ** left. rewrite Hn, lookup_insert_eq. eauto.
              ** right. exists f, t. auto.
    + destruct (IH required properties) as [Hreq Hprops].
      cbv zeta. split; [exact Hreq|].
      intros x. rewrite Hprops. split.
      * intros [Hsome|(f & t & Hf & Hs & Hn)]; [auto|].
        right. exists f, t. split; [apply list_elem_of_further, Hf | auto].
      * intros [Hsome|(f & t & Hf & Hs & Hn)]; [auto|].
        apply elem_of_cons in Hf. destruct Hf as [[= -> ->]|Hf];
          [congruence|].
        right. exists f, t. auto.
Qed.

(** A field that takes no part leaves the loop's state as it was. *)
Lemma fold_fieldStep_skip (descKey : string) (typeSchema : gotype -> gmap string jsv)
  (before after : list StructField) (field : FieldInfo) (fieldType : gotype)
  (acc : list string * gmap string jsv) :
  inSchema field = false ->
  fold_left (fieldStep descKey typeSchema) (before ++ (field, fieldType) :: after) acc
  = fold_left (fieldStep descKey typeSchema) (before ++ after) acc.
Proof.
  intros Hskip. rewrite !fold_left_app. cbn [fold_left].
  destruct (fold_left (fieldStep descKey typeSchema) before acc) as [required properties].
  rewrite fieldStep_spec, Hskip. reflexivity.
Qed.

(** C7 as stated fails on [secretAB]: the field [secret] has no
    serialization tag, yet its name is not in [required] (it is not
    exported, and the schema skips it); and the field [A] carries
    [omitempty], yet its wire-name ["x"] is in [required] (field [B]
    put it there). *)
Lemma generateSchemaFromFunction_untagged_unexported_field :
  Tag_Get [] "json" = EmptyString
  /\ hasOmitEmpty {| Name := "A"; PkgPath := EmptyString;
                     Tag := [("json", "x,omitempty")] |} = true
  /\ bindName {| Name := "A"; PkgPath := EmptyString;
                 Tag := [("json", "x,omitempty")] |} = "x"
  /\ Required (generateSchemaFromFunction (ctxFunc (TStruct secretAB) echo)) = ["x"].
Proof. repeat split; vm_compute; reflexivity. Qed.

(** C7, amended.  For a struct parameter, a field takes part in the schema
    when it is exported and its tag does not name it ["-"]; the others are
    skipped altogether.  (a) [required] lists, in declaration order, the
    wire-names of the fields that take part and do not carry [omitempty]:
    so a name is in [required] exactly when some such field bears it, and
    a field with [omitempty] puts nothing there.  (b) An exported field
    without a [json] tag has its declared name as wire-name, and that name
    is in [required].  (c) The keys of [properties] are the wire-names of
    the fields that take part.  (d) A field that takes no part can be
    struck from the struct without changing the schema.  (e) Every name
    in [required] is a key of [properties]. *)
Theorem generateSchemaFromFunction_struct (fn : Func) (fields : list StructField)
  (rest : list gotype) :
  (if hasContext fn then tail (In fn) else In fn) = TStruct fields :: rest ->
  let s := generateSchemaFromFunction fn in
  (Required s
   = map (fun f : StructField => bindName (fst f))
       (List.filter (fun f : StructField => isRequiredField (fst f)) fields)
   /\ forall x : string,
       x ∈ Required s
       <-> exists field fieldType,
           (field, fieldType) ∈ fields
           /\ inSchema field = true /\ hasOmitEmpty field = false
           /\ bindName field = x)
  /\ (forall field fieldType,
         (field, fieldType) ∈ fields ->
         PkgPath field = EmptyString ->
         Tag_Get (Tag field) "json" = EmptyString ->
         bindName field = Name field /\ Name field ∈ Required s)
  /\ (forall x : string,
         is_Some (Properties s !! x)
         <-> exists field fieldType,
             (field, fieldType) ∈ fields
             /\ inSchema field = true /\ bindName field = x)
  /\ (forall before field fieldType after fn',
         fields = before ++ (field, fieldType) :: after ->
         inSchema field = false ->
         (if hasContext fn' then tail (In fn') else In fn')
         = TStruct (before ++ after) :: rest ->
         generateSchemaFromFunction fn' = s)
  /\ (forall x : string, x ∈ Required s -> is_Some (Properties s !! x)).
Proof.
  intros Hins s.
  pose proof (fold_fieldStep "mcpdescription" getTypeSchema fields [] ∅) as Hfold.
  cbv zeta in Hfold. destruct Hfold as [Hreq Hprops].
  assert (Hs : s = {| Type_ := "object";
                      Properties := snd (fold_left (fieldStep "mcpdescription" getTypeSchema)
                                           fields ([], ∅));
                      Required := fst (fold_left (fieldStep "mcpdescription" getTypeSchema)
                                         fields ([], ∅)) |}).
  { unfold s, generateSchemaFromFunction. rewrite Hins.
    destruct (fold_left _ fields _). reflexivity. }
  assert (HR : Required s
               = map (fun f : StructField => bindName (fst f))
                   (List.filter (fun f : StructField => isRequiredField (fst f)) fields)).
  { rewrite Hs. cbn [Required]. rewrite Hreq. reflexivity. }
  assert (HRiff : forall x : string,
             x ∈ Required s
             <-> exists field fieldType,
                 (field, fieldType) ∈ fields
                 /\ inSchema field = true /\ hasOmitEmpty field = false
                 /\ bindName field = x).
  { intros x. rewrite HR, list_elem_of_In, in_map_iff. split.
    - intros ([field fieldType] & Hname & Hf). apply filter_In in Hf.
      destruct Hf as [Hf Hreqd]. unfold isRequiredField in Hreqd. cbn [fst] in *.
      apply andb_true_iff in Hreqd. destruct Hreqd as [Hin Homit].
      apply negb_true_iff in Homit.
      exists field, fieldType. rewrite list_elem_of_In. auto.
    - intros (field & fieldType & Hf & Hin & Homit & Hname).
      exists (field, fieldType). split; [exact Hname|].
      apply filter_In. split; [apply list_elem_of_In, Hf|].
      unfold isRequiredField. cbn [fst]. rewrite Hin, Homit. reflexivity. }
  assert (HP : forall x : string,
             is_Some (Properties s !! x)
             <-> exists field fieldType,
                 (field, fieldType) ∈ fields
                 /\ inSchema field = true /\ bindName field = x).
  { intros x. rewrite Hs. cbn [Properties]. rewrite Hprops, lookup_empty. split.
    - intros [Hnone|H]; [destruct Hnone; discriminate | exact H].
    - auto. }
  split; [split; assumption|]. split; [|split; [exact HP|split]].
  - intros field fieldType Hf Hexp Htag.
    assert (Hname : bindName field = Name field).
    { unfold bindName. rewrite Htag. reflexivity. }
    split; [exact Hname|]. apply HRiff. exists field, fieldType.
    split; [exact Hf|]. unfold inSchema, hasOmitEmpty. rewrite Hexp, Htag.
    split; [reflexivity|]. split; [reflexivity | exact Hname].
  - intros before field fieldType after fn' -> Hskip Hins'.
    unfold s, generateSchemaFromFunction. rewrite Hins, Hins'.
    rewrite fold_fieldStep_skip by exact Hskip. reflexivity.
  - intros x Hx. apply HP. apply HRiff in Hx.
    destruct Hx as (field & fieldType & Hf & Hin & _ & Hname). eauto.
Qed.

Lemma generateSchemaFromFunction_struct_witness :
  Required (generateSchemaFromFunction (ctxFunc (TStruct idNote) echo)) = ["id"].
Proof.
  exact (proj1 (proj1 (generateSchemaFromFunction_struct
                         (ctxFunc (TStruct idNote) echo) idNote [] eq_refl))).
Defined.

(** ** Coercion to the integer types (C3) *)

Lemma wrapInt_id (k : IntKind) (n : Z) : inIntRange k n -> wrapInt k n = n.
Proof.
  unfold inIntRange, wrapInt. intros Hn.
  assert (Hm : 2 ^ intBits k = 2 * 2 ^ (intBits k - 1)) by (destruct k; reflexivity).
  rewrite Hm. replace (2 * 2 ^ (intBits k - 1) / 2) with (2 ^ (intBits k - 1))
    by (symmetry; rewrite Z.mul_comm; apply Z.div_mul; lia).
  rewrite Z.mod_small by lia. lia.
Qed.

Section CoercionFacts.

Context `{!GoStd}.

(** What [convertToType] does for a signed integer target, input by input. *)
Lemma convertToType_signed_target (k : IntKind) :
  convertToType VNil (TInt k) = Ok (VInt k 0)
  /\ (forall k' n, inIntRange k' n ->
        convertToType (VInt k' n) (TInt k) = Ok (VInt k (wrapInt k n)))
  /\ (forall fk f,
        convertToType (VFloat fk f) (TInt k)
        = Ok (VInt k (wrapInt k (truncToInt64 f))))
  /\ (forall s i, strconv.ParseInt s = inl i ->
        convertToType (VString s) (TInt k) = Ok (VInt k (wrapInt k i)))
  /\ (forall s e, strconv.ParseInt s = inr e ->
        convertToType (VString s) (TInt k)
        = Err (Errorf "cannot convert %v to int: %w" [AValue (VString s)]
                 (Some (NumError "ParseInt" s e))))
  /\ (forall b,
        convertToType (VBool b) (TInt k)
        = Err (Errorf "cannot convert %v to int" [AValue (VBool b)] None))
  /\ (forall uk n,
        convertToType (VUint uk n) (TInt k) = Panic (PanicValueInt (VUint uk n))).
Proof.
  split; [reflexivity|]. split; [|split; [|split; [|split; [|split]]]].
  - intros k' n Hn. cbn.
    destruct (IntKind_eqb k' k) eqn:Heq; [|reflexivity].
    assert (k' = k) as -> by (destruct k', k; try discriminate; reflexivity).
    rewrite wrapInt_id by exact Hn. reflexivity.
  - intros fk f. reflexivity.
  - intros s i Hparse. cbn. rewrite Hparse. reflexivity.
  - intros s e Hparse. cbn. rewrite Hparse. reflexivity.
  - intros b. reflexivity.
  - intros uk n. reflexivity.
Qed.

(** [3.7], the binary64 nearest to it, coerces to the integer [3]. *)
Lemma convertToType_float_truncates :
  convertToType (VFloat Float64 0x1.d99999999999ap+1%float) (TInt Int)
  = Ok (VInt Int 3)
  /\ convertToType (VFloat Float64 (-0x1.d99999999999ap+1)%float) (TInt Int)
     = Ok (VInt Int (-3)).
Proof. split; vm_compute; reflexivity. Qed.

(** C3.  The claim holds for the signed targets
    ([convertToType_signed_target]) but the code falls short of it in two
    places.  The unsigned integer kinds have no case in the switch over
    the target's kind: a float or a string is refused for every unsigned
    target.  And an unsigned integer input is read with
    [reflect.Value.Int], which panics on it. *)
Theorem convertToType_integer_target_defects (uk : UintKind) (k : IntKind) :
  (forall fk f,
      convertToType (VFloat fk f) (TUint uk)
      = Err (Errorf "cannot convert %v (type %T) to %v"
               [AValue (VFloat fk f); AValue (VFloat fk f); AType (TUint uk)] None))
  /\ (forall s,
         convertToType (VString s) (TUint uk)
         = Err (Errorf "cannot convert %v (type %T) to %v"
                  [AValue (VString s); AValue (VString s); AType (TUint uk)] None))
  /\ (forall ik n,
         convertToType (VInt ik n) (TUint uk)
         = Err (Errorf "cannot convert %v (type %T) to %v"
                  [AValue (VInt ik n); AValue (VInt ik n); AType (TUint uk)] None))
  /\ (forall uk' n,
         convertToType (VUint uk' n) (TInt k) = Panic (PanicValueInt (VUint uk' n))).
Proof. repeat split; intros; reflexivity. Qed.

(** ** Coercion to [bool] (C4) *)

(** What [convertToType] does for the target [bool] where it follows the
    claim: a boolean is kept, a signed integer is true when it is not
    zero, a string goes through [strconv.ParseBool], anything that is
    neither number nor string is refused. *)
Lemma convertToType_bool_target :
  convertToType VNil TBool = Ok (VBool false)
  /\ (forall b, convertToType (VBool b) TBool = Ok (VBool b))
  /\ (forall k n, convertToType (VInt k n) TBool = Ok (VBool (negb (n =? 0))))
  /\ (forall s b, strconv.ParseBool s = Some b ->
        convertToType (VString s) TBool = Ok (VBool b))
  /\ (forall s, strconv.ParseBool s = None ->
        convertToType (VString s) TBool
        = Err (Errorf "cannot convert %v to bool: %w" [AValue (VString s)]
                 (Some (NumError "ParseBool" s strconv.ErrSyntax))))
  /\ strconv.ParseBool "true" = Some true
  /\ strconv.ParseBool "false" = Some false
  /\ strconv.ParseBool "maybe" = None
  /\ (forall elem xs,
        convertToType (VSlice elem xs) TBool
        = Err (Errorf "cannot convert %v to bool" [AValue (VSlice elem xs)] None)).
Proof.
  repeat split; intros; try reflexivity; cbn;
    match goal with H : strconv.ParseBool _ = _ |- _ => rewrite H end;
    reflexivity.
Qed.

(** C4.  The code falls short of the claim on unsigned integers and on
    floats: both are listed in the numeric case of the switch, and both
    are then read with [reflect.Value.Int], which panics on a Value that
    is not a signed integer.  No unsigned or floating input is coerced to
    [bool]; each ends in a panic. *)
Theorem convertToType_bool_from_unsigned_or_float_panics :
  (forall fk f,
      convertToType (VFloat fk f) TBool = Panic (PanicValueInt (VFloat fk f)))
  /\ (forall uk n,
         convertToType (VUint uk n) TBool = Panic (PanicValueInt (VUint uk n))).
Proof. split; intros; reflexivity. Qed.

(** ** Round trips through text (C9) *)

(** A boolean, a signed integer in the range of its type and a string
    come back from their [%v] rendering. *)
Lemma convertToType_Sprint_roundtrip :
  (forall b, convertToType (VString (Sprint (VBool b))) TBool = Ok (VBool b))
  /\ (forall k n, inIntRange k n ->
        convertToType (VString (Sprint (VInt k n))) (TInt k) = Ok (VInt k n))
  /\ (forall s, convertToType (VString (Sprint (VString s))) TString
                = Ok (VString s)).
Proof.
  split; [|split].
  - intros []; reflexivity.
  - intros k n Hn. cbn.
    rewrite ParseInt_FormatInt.
    + rewrite wrapInt_id by exact Hn. reflexivity.
    + unfold inIntRange in Hn. destruct k; cbn in Hn; lia.
  - intros s. reflexivity.
Qed.

(** C9.  The round trip fails for every unsigned integer: its rendering
    is a string, and [convertToType] has no case for an unsigned target,
    so the string is refused.  (Same missing case as in C3.) *)
Theorem convertToType_Sprint_unsigned_is_refused (uk : UintKind) (n : Z) :
  convertToType (VString (Sprint (VUint uk n))) (TUint uk)
  = Err (Errorf "cannot convert %v (type %T) to %v"
           [AValue (VString (strconv.FormatInt n));
            AValue (VString (strconv.FormatInt n)); AType (TUint uk)] None)
  /\ Sprint (VUint Uint8 200) = "200".
Proof. split; reflexivity. Qed.

End CoercionFacts.

(** ** The protocol adapter (C5) *)

Section HandlerFacts.

Context `{!GoStd} `{!GoJson}.

(** Whenever the handler returns, its own error is nil. *)
Lemma Handler_error_is_nil (rangeFirst : nat -> string) (tool : Tool)
  (Arguments : value) (res : CallToolResult) (err : option error) :
  handler_ended (Handler rangeFirst tool Arguments) = HandlerReturned res err ->
  err = None.
Proof.
  unfold Handler.
  destruct (match Arguments with VNil => _ | _ => _ end) as [params|e];
    cbn [handler_ended].
  - destruct (ended (Execute rangeFirst tool params)) as [r [e|]|p];
      [congruence | | discriminate].
    destruct (json_Marshal r); congruence.
  - congruence.
Qed.

(** What the handler makes of each stage, when [Execute] returns: an error
    of the decoding, of [Execute] or of the encoding becomes an error
    payload carrying the error's text, and a result becomes a text payload
    carrying its JSON encoding. *)
Lemma Handler_returns (rangeFirst : nat -> string) (tool : Tool)
  (Arguments : value) :
  (forall err,
      Arguments <> VNil -> json_Marshal Arguments = inr err ->
      Handler rangeFirst tool Arguments
      = {| handler_calls := [];
           handler_ended := HandlerReturned (NewToolResultError (Error_text err)) None |})
  /\ (forall buf err,
         Arguments <> VNil -> json_Marshal Arguments = inl buf ->
         json_Unmarshal buf = inr err ->
         Handler rangeFirst tool Arguments
         = {| handler_calls := [];
              handler_ended := HandlerReturned (NewToolResultError (Error_text err)) None |})
  /\ (forall params,
         (Arguments = VNil /\ params = ∅
          \/ Arguments <> VNil
             /\ exists buf, json_Marshal Arguments = inl buf
                            /\ json_Unmarshal buf = inl params) ->
         let run := Execute rangeFirst tool params in
         handler_calls (Handler rangeFirst tool Arguments) = calls run
         /\ (forall res err,
                ended run = Returned res (Some err) ->
                handler_ended (Handler rangeFirst tool Arguments)
                = HandlerReturned (NewToolResultError (Error_text err)) None)
         /\ (forall res err,
                ended run = Returned res None -> json_Marshal res = inr err ->
                handler_ended (Handler rangeFirst tool Arguments)
                = HandlerReturned (NewToolResultError (Error_text err)) None)
         /\ (forall res buf,
                ended run = Returned res None -> json_Marshal res = inl buf ->
                handler_ended (Handler rangeFirst tool Arguments)
                = HandlerReturned (NewToolResultText buf) None)
         /\ (forall p,
                ended run = Panicked p ->
                handler_ended (Handler rangeFirst tool Arguments) = HandlerPanicked p)).
Proof.
  split; [|split].
  - intros err Hnn Hm. unfold Handler.
    destruct Arguments; try contradiction; rewrite Hm; reflexivity.
  - intros buf err Hnn Hm Hu. unfold Handler.
    destruct Arguments; try contradiction; rewrite Hm, Hu; reflexivity.
  - intros params Hdec run.
    assert (HH : Handler rangeFirst tool Arguments
                 = {| handler_calls := calls run;
                      handler_ended :=
                        match ended run with
                        | Panicked p => HandlerPanicked p
                        | Returned _ (Some err) =>
                            HandlerReturned (NewToolResultError (Error_text err)) None
                        | Returned res None =>
                            match json_Marshal res with
                            | inr err =>
                                HandlerReturned (NewToolResultError (Error_text err)) None
                            | inl buf => HandlerReturned (NewToolResultText buf) None
                            end
                        end |}).
    { unfold Handler.
      destruct Hdec as [[-> ->]|[Hnn (buf & Hm & Hu)]]; [reflexivity|].
      destruct Arguments; try contradiction; rewrite Hm, Hu; reflexivity. }
    rewrite HH. cbn [handler_calls handler_ended].
    split; [reflexivity|].
    repeat split; intros;
      repeat match goal with
        | H : ended run = _ |- _ => rewrite H
        | H : json_Marshal _ = _ |- _ => rewrite H
        end; reflexivity.
Qed.

(** C5.  The handler does not always complete: a panic of [Execute] is not
    recovered.  For a tool over [func(ctx, in struct{ Flag bool
    `json:"flag"` }) (any, error)] and the arguments [{"flag": 1}], the
    decoded number is a [float64], its coercion to [bool] panics in
    [reflect.Value.Int] (the defect of C4), and the handler panics with
    it: it returns no payload at all. *)
Theorem Handler_panics_on_json_number_for_bool
  (rangeFirst : nat -> string) (name description : string)
  (call : list value -> list (gotype * value)) (buf : string) :
  json_Marshal (VMap (TInterface IAny) flagOne) = inl buf ->
  json_Unmarshal buf = inl (list_to_map flagOne) ->
  Handler rangeFirst
    (NewFunctionTool name description (ctxFunc (TStruct flagStruct) call))
    (VMap (TInterface IAny) flagOne)
  = {| handler_calls := [];
       handler_ended := HandlerPanicked (PanicValueInt (VFloat Float64 1%float)) |}.
Proof.
  intros Hm Hu. unfold Handler. rewrite Hm, Hu. vm_compute. reflexivity.
Qed.

End HandlerFacts.

Lemma Handler_panics_on_json_number_for_bool_witness :
  @Handler inertStd (fixedJson "{flag:1}" (list_to_map flagOne)) (fun _ => "flag")
    (NewFunctionTool "flag" EmptyString (ctxFunc (TStruct flagStruct) echo))
    (VMap (TInterface IAny) flagOne)
  = {| handler_calls := [];
       handler_ended := HandlerPanicked (PanicValueInt (VFloat Float64 1%float)) |}.
Proof.
  exact (@Handler_panics_on_json_number_for_bool inertStd
           (fixedJson "{flag:1}" (list_to_map flagOne)) (fun _ => "flag")
           "flag" EmptyString echo "{flag:1}" eq_refl eq_refl).
Defined.

(** ** What a coercion returns has the target's type *)

Lemma Zero_assignable (t : gotype) :
  Zero t = VNil \/ AssignableTo (Zero t) t = true.
Proof.
  destruct t as [ | k | k | k | | e | n e | key e | fs | e | i ]; cbn;
    try (right; reflexivity); try (left; reflexivity); right.
  - destruct k; reflexivity.
  - destruct k; reflexivity.
  - destruct k; reflexivity.
  - apply gotype_eqb_refl.
  - rewrite repeat_length, Nat.eqb_refl, gotype_eqb_refl. reflexivity.
  - rewrite !gotype_eqb_refl. reflexivity.
  - apply (gotype_eqb_refl (TStruct fs)).
  - apply gotype_eqb_refl.
Qed.

Section Typing.

Context `{!GoStd}.

(** A value that [convertToType] returns is the nil interface (for an
    interface target) or is assignable to the target type: storing it with
    [reflect.Value.Set] does not fail on its type. *)
Lemma convertToType_Ok_assignable (v : value) (targetType : gotype) (c : value) :
  convertToType v targetType = Ok c ->
  c = VNil \/ AssignableTo c targetType = true.
Proof.
  intros Hconv.
  assert (Hslice : forall e xs, AssignableTo (VSlice e xs) (TSlice e) = true)
    by (intros e xs; apply (gotype_eqb_refl (TSlice e))).
  assert (Hmap : forall e xs, AssignableTo (VMap e xs) (TMap TString e) = true)
    by (intros e xs; apply (gotype_eqb_refl (TMap TString e))).
  destruct v;
    [ cbn in Hconv; injection Hconv as <-; apply Zero_assignable | .. ];
    right;
    destruct targetType as [ | k' | k' | k' | | te | n' te | tk te | fs | te | [] ];
    cbn in Hconv; unfold result_bind in Hconv; try discriminate;
    repeat match type of Hconv with
      | context [match ?x with _ => _ end] => destruct x eqn:?; try discriminate
      end;
    cbn in Hconv; try discriminate;
    injection Hconv as <-;
    first [ reflexivity | assumption | cbn; assumption
          | destruct k'; reflexivity | apply Hslice | apply Hmap ].
Qed.

End Typing.

Section Stored.

Context `{!GoStd}.

(** Storing what a coercion returned fails only on the nil interface. *)
Lemma Value_Set_converted (v : value) (targetType : gotype) (c : value) :
  convertToType v targetType = Ok c ->
  Value_Set targetType c = Ok c
  \/ c = VNil /\ Value_Set targetType c = Panic PanicSetZeroValue.
Proof.
  intros Hconv. destruct (convertToType_Ok_assignable _ _ _ Hconv) as [->|Hfits].
  - right. split; reflexivity.
  - unfold Value_Set. rewrite Hfits. destruct c; auto.
Qed.

(** For a function of one struct parameter, a bind that succeeded passes
    the checks of [reflect.Value.Call], and the function is called with
    the struct. *)
Lemma Execute_struct_calls (rangeFirst : nat -> string) (t : Tool)
  (fields : list StructField) (params : gmap string value) (vals : list value) :
  boundIns (function t) = [TStruct fields] ->
  bindFields params fields = Ok vals ->
  Execute rangeFirst t params
  = {| calls := [[VStruct fields vals]];
       ended := returnValues (Func_Call (function t) [VStruct fields vals]) |}.
Proof.
  intros Hins Hbind. unfold Execute.
  rewrite (Bind_struct _ _ _ _ Hins), Hbind. cbn [result_bind].
  rewrite Hins. unfold checkArgs. cbn [validArgs firstUnassignable].
  assert (Hfits : AssignableTo (VStruct fields vals) (TStruct fields) = true)
    by apply (gotype_eqb_refl (TStruct fields)).
  rewrite Hfits. reflexivity.
Qed.

End Stored.

(** ** The schema of a type *)

(** [getTypeSchema] never sets the key ["enum"]: the branch of the pointer
    case that extends an enumeration is not reached. *)
Lemma getTypeSchema_no_enum (t : gotype) : getTypeSchema t !! "enum" = None.
Proof.
  induction t as [ | k | k | k | | e IH | n e IH | key _ e IH | fs | e IH | i ];
    cbn [getTypeSchema]; try reflexivity.
  - destruct (fold_left (fieldStep "doc" getTypeSchema) fs ([], ∅)). reflexivity.
  - rewrite IH. exact IH.
Qed.

(** The schema of a pointer type is the schema of its element type. *)
Lemma getTypeSchema_pointer (elem : gotype) :
  getTypeSchema (TPtr elem) = getTypeSchema elem.
Proof. cbn [getTypeSchema]. rewrite getTypeSchema_no_enum. reflexivity. Qed.

(** The schema of a nested struct type follows the same rule as the schema
    of a struct parameter. *)
Lemma getTypeSchema_struct (fields : list StructField) :
  exists properties,
    getTypeSchema (TStruct fields) !! "type" = Some (JString "object")
    /\ getTypeSchema (TStruct fields) !! "required"
       = Some (JStrings
                 (map (fun f : StructField => bindName (fst f))
                    (List.filter (fun f : StructField => isRequiredField (fst f))
                       fields)))
    /\ getTypeSchema (TStruct fields) !! "properties" = Some (JObject properties)
    /\ forall x : string,
        is_Some (properties !! x)
        <-> exists field fieldType,
            (field, fieldType) ∈ fields
            /\ inSchema field = true /\ bindName field = x.
Proof.
  pose proof (fold_fieldStep "doc" getTypeSchema fields [] ∅) as Hfold.
  cbv zeta in Hfold. cbn [getTypeSchema].
  destruct (fold_left (fieldStep "doc" getTypeSchema) fields ([], ∅))
    as [required properties].
  cbn [fst snd] in Hfold. destruct Hfold as [-> Hprops].
  exists properties. repeat split; try reflexivity.
  - intros Hsome. apply Hprops in Hsome.
    destruct Hsome as [Hempty|H]; [|exact H].
    rewrite lookup_empty in Hempty. destruct Hempty; discriminate.
  - intros H. apply Hprops. auto.
Qed.

(** ** Further facts of the coercion engine and the binder *)

Section Further.

Context `{!GoStd}.

(** A float comes back from its rendering as far as the library's own
    parsing reads back what its formatting wrote. *)
Lemma convertToType_Sprint_float (k : FloatKind) (f : float) :
  strconv_ParseFloat (fmt_Sprint_other (VFloat k f)) = inl f ->
  convertFloat k f = f ->
  convertToType (VString (Sprint (VFloat k f))) (TFloat k) = Ok (VFloat k f).
Proof.
  intros Hparse Hfits. cbn. rewrite Hparse, Hfits. reflexivity.
Qed.

(** The decoded sequence [[1, "2", 3]] coerces to the [[]int]
    [[1, 2, 3]]. *)
Lemma convertToType_slice_elementwise :
  convertToType
    (VSlice (TInterface IAny)
       [VFloat Float64 1%float; VString "2"; VFloat Float64 3%float])
    (TSlice (TInt Int))
  = Ok (VSlice (TInt Int) [VInt Int 1; VInt Int 2; VInt Int 3]).
Proof. vm_compute. reflexivity. Qed.

(** The first failing element ends the coercion of a sequence, with its
    index. *)
Lemma convertToType_slice_first_failure :
  convertToType
    (VSlice (TInterface IAny) [VFloat Float64 1%float; VString "x"; VBool true])
    (TSlice (TInt Int))
  = Err (Errorf "cannot convert slice element %d: %w" [AInt 1]
           (Some (Errorf "cannot convert %v to int: %w" [AValue (VString "x")]
                    (Some (NumError "ParseInt" "x" strconv.ErrSyntax))))).
Proof. vm_compute. reflexivity. Qed.

(** A function whose parameter after the context is a [map[string]any] is
    handed the input map as it is. *)
Lemma Bind_generic_map (rangeFirst : nat -> string) (fn : Func)
  (params : gmap string value) :
  boundIns fn = [TMap TString (TInterface IAny)] ->
  Bind rangeFirst fn params
  = Ok [Some (VMap (TInterface IAny) (map_to_list params))].
Proof. intros Hins. unfold Bind. rewrite Hins. reflexivity. Qed.

End Further.

(** ** The loops of [convertToType] *)

Section LoopFacts.

Context `{!GoStd}.

(** The slice case of [convertToType] runs [convertElems]. *)
Lemma convertToType_slice_loop (xs : list value) (elemType : gotype) :
  convertToType (VSlice (TInterface IAny) xs) (TSlice elemType)
  = if AssignableTo (VSlice (TInterface IAny) xs) (TSlice elemType)
    then Ok (VSlice (TInterface IAny) xs)
    else xs' <- convertElems elemType 0 xs ;; Ok (VSlice elemType xs').
Proof.
  cbn [convertToType].
  destruct (AssignableTo (VSlice (TInterface IAny) xs) (TSlice elemType));
    [reflexivity|].
  f_equal. generalize 0. induction xs as [|x xs IH]; intros i; [reflexivity|].
  cbn [convertElems]. rewrite <- IH. reflexivity.
Qed.

(** The map case of [convertToType] runs [convertEntries]. *)
Lemma convertToType_map_loop (entries : list (string * value)) (elemType : gotype) :
  convertToType (VMap (TInterface IAny) entries) (TMap TString elemType)
  = if AssignableTo (VMap (TInterface IAny) entries) (TMap TString elemType)
    then Ok (VMap (TInterface IAny) entries)
    else entries' <- convertEntries elemType entries ;; Ok (VMap elemType entries').
Proof.
  cbn [convertToType].
  destruct (AssignableTo (VMap (TInterface IAny) entries) (TMap TString elemType));
    [reflexivity|].
  f_equal. induction entries as [|[key x] entries IH]; [reflexivity|].
  cbn [convertEntries]. rewrite <- IH. reflexivity.
Qed.

End LoopFacts.

(** ** Type identity decides equality *)

Lemma StructTag_eqb_eq (a b : StructTag) : StructTag_eqb a b = true -> a = b.
Proof.
  revert b. induction a as [|[k1 v1] a IH]; intros [|[k2 v2] b]; cbn;
    try discriminate; [reflexivity|].
  intros H. apply andb_true_iff in H. destruct H as [H Hrest].
  apply andb_true_iff in H. destruct H as [Hk Hv].
  apply String.eqb_eq in Hk, Hv. subst. f_equal. apply IH, Hrest.
Qed.

Lemma FieldInfo_eqb_eq (a b : FieldInfo) : FieldInfo_eqb a b = true -> a = b.
Proof.
  destruct a as [n1 p1 t1], b as [n2 p2 t2]. unfold FieldInfo_eqb. cbn.
  intros H. apply andb_true_iff in H. destruct H as [H Ht].
  apply andb_true_iff in H. destruct H as [Hn Hp].
  apply String.eqb_eq in Hn, Hp. apply StructTag_eqb_eq in Ht. subst. reflexivity.
Qed.

Lemma gotype_eqb_eq : forall a b : gotype, gotype_eqb a b = true -> a = b.
Proof.
  fix IH 1.
  intros [ | k1 | k1 | k1 | | e1 | n1 e1 | k1 e1 | fs1 | e1 | i1 ]
         [ | k2 | k2 | k2 | | e2 | n2 e2 | k2 e2 | fs2 | e2 | i2 ];
    cbn; try discriminate; intros H; try reflexivity.
  - destruct k1, k2; try discriminate; reflexivity.
  - destruct k1, k2; try discriminate; reflexivity.
  - destruct k1, k2; try discriminate; reflexivity.
  - f_equal. apply IH, H.
  - apply andb_true_iff in H. destruct H as [Hn He].
    apply Nat.eqb_eq in Hn. f_equal; [exact Hn | apply IH, He].
  - apply andb_true_iff in H. destruct H as [Hk He].
    f_equal; apply IH; assumption.
  - f_equal. revert fs2 H.
    induction fs1 as [|[f1 t1] fs1 IHfs]; intros [|[f2 t2] fs2] H;
      try discriminate; [reflexivity|].
    apply andb_true_iff in H. destruct H as [H Hrest].
    apply andb_true_iff in H. destruct H as [Hf Ht].
    apply FieldInfo_eqb_eq in Hf. apply IH in Ht. subst.
    f_equal. apply IHfs, Hrest.
  - f_equal. apply IH, H.
  - destruct i1, i2; try discriminate; reflexivity.
Qed.

(** ** The range of a wrapped integer *)

Lemma wrapInt_inIntRange (k : IntKind) (n : Z) : inIntRange k (wrapInt k n).
Proof.
  unfold inIntRange, wrapInt.
  assert (Hm : 2 ^ intBits k = 2 * 2 ^ (intBits k - 1)) by (destruct k; reflexivity).
  assert (Hpos : 0 < 2 ^ (intBits k - 1)) by (destruct k; reflexivity).
  rewrite Hm. replace (2 * 2 ^ (intBits k - 1) / 2) with (2 ^ (intBits k - 1))
    by (symmetry; rewrite Z.mul_comm; apply Z.div_mul; lia).
  pose proof (Z.mod_pos_bound (n + 2 ^ (intBits k - 1)) (2 * 2 ^ (intBits k - 1))).
  lia.
Qed.

(** ** More on [convertToType] *)

Section CoercionMore.

Context `{!GoStd}.

(** Only a nil input gives a nil result, and only for an interface target. *)
Lemma convertToType_Ok_nil (v : value) (targetType : gotype) :
  convertToType v targetType = Ok VNil ->
  v = VNil /\ exists i, targetType = TInterface i.
Proof.
  intros Hconv.
  destruct v;
    [ cbn in Hconv; split; [reflexivity|];
      destruct targetType; try discriminate; eauto
    | .. ];
    exfalso;
    destruct targetType as [ | k' | k' | k' | | te | n' te | tk te | fs | te | [] ];
    cbn in Hconv; unfold result_bind in Hconv; try discriminate;
    repeat match type of Hconv with
      | context [match ?x with _ => _ end] => destruct x eqn:?; try discriminate
      end;
    cbn in Hconv; discriminate.
Qed.

(** A value that is assignable to the target is returned as it is. *)
Lemma convertToType_assignable (v : value) (targetType : gotype) :
  v <> VNil -> AssignableTo v targetType = true ->
  convertToType v targetType = Ok v.
Proof.
  intros Hnn Hfits.
  destruct v; try contradiction; cbn [convertToType]; rewrite Hfits; reflexivity.
Qed.

(** X1.  Coercion is idempotent: what [convertToType] returned for a
    target type is returned unchanged when it is coerced to that type
    again. *)
Theorem convertToType_idempotent (v : value) (targetType : gotype) (c : value) :
  convertToType v targetType = Ok c ->
  convertToType c targetType = Ok c.
Proof.
  intros Hconv.
  destruct (convertToType_Ok_assignable _ _ _ Hconv) as [->|Hfits].
  - destruct (convertToType_Ok_nil _ _ Hconv) as [_ [i ->]]. reflexivity.
  - destruct c;
      [ destruct (convertToType_Ok_nil _ _ Hconv) as [_ [i ->]]; reflexivity
      | apply convertToType_assignable; [discriminate | exact Hfits] .. ].
Qed.

(** X2.  Coercion to [string] never fails: a nil input gives the empty
    string, a string is kept, and every other value gives its [%v]
    rendering. *)
Theorem convertToType_string_never_fails (v : value) :
  (exists c, convertToType v TString = Ok c)
  /\ convertToType VNil TString = Ok (VString EmptyString)
  /\ (forall s, convertToType (VString s) TString = Ok (VString s))
  /\ (v <> VNil -> AssignableTo v TString = false ->
      convertToType v TString = Ok (VString (Sprint v))).
Proof.
  split; [|split; [reflexivity|split; [reflexivity|]]].
  - destruct v; cbn; try (eexists; reflexivity);
      match goal with |- context [if ?b then _ else _] => destruct b end;
      eexists; reflexivity.
  - intros Hnn Hfits.
    destruct v; try contradiction; cbn [convertToType]; rewrite Hfits; reflexivity.
Qed.

(** X3.  A target type without a case in the switch (an unsigned integer,
    an array, a struct, a pointer, an interface, a map whose keys are not
    strings) accepts a non-nil value only when the value already has that
    type (or implements the interface); every other value is refused with
    the final error. *)
Theorem convertToType_target_without_case (v : value) (targetType : gotype) :
  hasNoCase targetType = true ->
  v <> VNil ->
  convertToType v targetType
  = if AssignableTo v targetType then Ok v
    else Err (Errorf "cannot convert %v (type %T) to %v"
                [AValue v; AValue v; AType targetType] None).
Proof.
  intros Hcase Hnn.
  destruct targetType as [ | k' | k' | k' | | te | n' te | tk te | fs | te | i ];
    try discriminate Hcase;
    destruct v; try contradiction; cbn [convertToType];
    match goal with |- context [if ?b then _ else _] => destruct b end;
    try reflexivity;
    destruct tk; try discriminate Hcase; reflexivity.
Qed.

(** A coercion to a signed integer type returns the input, or an integer
    of that type in the type's range. *)
Lemma convertToType_signed_same_or_in_range (v : value) (k : IntKind) (c : value) :
  convertToType v (TInt k) = Ok c ->
  c = v \/ exists n, c = VInt k n /\ inIntRange k n.
Proof.
  intros Hconv.
  assert (Hzero : inIntRange k 0) by (destruct k; unfold inIntRange; cbn; lia).
  destruct v; cbn in Hconv; try discriminate;
    repeat match type of Hconv with
      | context [match ?x with _ => _ end] => destruct x eqn:?; try discriminate
      end;
    injection Hconv as <-;
    first [ left; reflexivity
          | right; eexists; split; [reflexivity|];
            first [ exact Hzero | apply wrapInt_inIntRange ] ].
Qed.

(** X4.  The result of a coercion to a signed integer type has that type;
    it is either the input itself, which then already has that type, or
    an integer of that type whose number lies in the type's range. *)
Theorem convertToType_signed_result_in_range (v : value) (k : IntKind) (c : value) :
  convertToType v (TInt k) = Ok c ->
  TypeOf c = Some (TInt k)
  /\ (c = v \/ exists n, c = VInt k n /\ inIntRange k n).
Proof.
  intros Hconv. split.
  - destruct (convertToType_Ok_assignable v (TInt k) c Hconv) as [-> | Hfits].
    + destruct (convertToType_Ok_nil v (TInt k) Hconv) as (_ & i & Hi).
      discriminate Hi.
    + unfold AssignableTo in Hfits.
      destruct (TypeOf c) as [tv|]; [|discriminate Hfits].
      f_equal. apply gotype_eqb_eq, Hfits.
  - apply convertToType_signed_same_or_in_range, Hconv.
Qed.

End CoercionMore.

Lemma convertToType_idempotent_witness :
  @convertToType inertStd (VInt Int8 44) (TInt Int8) = Ok (VInt Int8 44).
Proof.
  exact (@convertToType_idempotent inertStd (VInt Int 300) (TInt Int8)
           (VInt Int8 44) eq_refl).
Defined.

Lemma convertToType_string_never_fails_witness :
  @convertToType inertStd (VBool true) TString = Ok (VString "true").
Proof.
  refine (proj2 (proj2 (proj2 (@convertToType_string_never_fails inertStd
            (VBool true)))) _ eq_refl).
  discriminate.
Defined.

Lemma convertToType_target_without_case_witness :
  @convertToType inertStd (VMap (TInterface IAny) [("id", VString "42")])
    (TStruct idNote)
  = Err (Errorf "cannot convert %v (type %T) to %v"
           [AValue (VMap (TInterface IAny) [("id", VString "42")]);
            AValue (VMap (TInterface IAny) [("id", VString "42")]);
            AType (TStruct idNote)] None).
Proof.
  refine (@convertToType_target_without_case inertStd
            (VMap (TInterface IAny) [("id", VString "42")]) (TStruct idNote)
            eq_refl _).
  discriminate.
Defined.

Lemma convertToType_signed_result_in_range_witness :
  TypeOf (VInt Int8 44) = Some (TInt Int8)
  /\ (VInt Int8 44 = VInt Int 300
      \/ exists n, VInt Int8 44 = VInt Int8 n /\ inIntRange Int8 n).
Proof.
  exact (@convertToType_signed_result_in_range inertStd (VInt Int 300) Int8
           (VInt Int8 44) eq_refl).
Defined.

(** ** Sequences and maps *)

Section Collections.

Context `{!GoStd}.

Lemma Value_Set_Ok (t : gotype) (x y : value) :
  Value_Set t x = Ok y -> y = x /\ x <> VNil.
Proof.
  unfold Value_Set. destruct x; try discriminate;
    destruct (AssignableTo _ t); try discriminate;
    intros [= <-]; (split; [reflexivity | discriminate]).
Qed.

Lemma AssignableTo_generic_slice (xs : list value) (elemType : gotype) :
  AssignableTo (VSlice (TInterface IAny) xs) (TSlice elemType) = true ->
  elemType = TInterface IAny.
Proof.
  intros Hfits.
  change (gotype_eqb (TSlice (TInterface IAny)) (TSlice elemType) = true) in Hfits.
  apply gotype_eqb_eq in Hfits. congruence.
Qed.

Lemma AssignableTo_generic_map (entries : list (string * value)) (elemType : gotype) :
  AssignableTo (VMap (TInterface IAny) entries) (TMap TString elemType) = true ->
  elemType = TInterface IAny.
Proof.
  intros Hfits.
  change (gotype_eqb (TMap TString (TInterface IAny)) (TMap TString elemType) = true)
    in Hfits.
  apply gotype_eqb_eq in Hfits. congruence.
Qed.

(** Every value is its own coercion to [any]. *)
Lemma convertToType_any (v : value) : convertToType v (TInterface IAny) = Ok v.
Proof. destruct v; reflexivity. Qed.

Lemma convertElems_Ok (elemType : gotype) (xs : list value) :
  forall (i : Z) (ys : list value),
    convertElems elemType i xs = Ok ys ->
    Forall2 (fun x y => convertToType x elemType = Ok y) xs ys.
Proof.
  induction xs as [|x xs IH]; intros i ys Hloop; cbn in Hloop.
  - injection Hloop as <-. constructor.
  - destruct (convertToType x elemType) as [c|e|p] eqn:Hconv; try discriminate.
    destruct (Value_Set elemType c) as [stored|e|p] eqn:Hset; cbn in Hloop;
      try discriminate.
    destruct (convertElems elemType (i + 1) xs) as [rest|e|p] eqn:Hrest;
      cbn in Hloop; try discriminate.
    injection Hloop as <-. apply Value_Set_Ok in Hset. destruct Hset as [-> _].
    constructor; [exact Hconv | eapply IH, Hrest].
Qed.

Lemma convertElems_first_failure (elemType : gotype) (pre : list value) :
  forall (i : Z) (x : value) (post : list value) (err : error),
    Forall (fun p => exists y, convertToType p elemType = Ok y /\ y <> VNil) pre ->
    convertToType x elemType = Err err ->
    convertElems elemType i (pre ++ x :: post)
    = Err (Errorf "cannot convert slice element %d: %w"
             [AInt (i + Z.of_nat (length pre))] (Some err)).
Proof.
  induction pre as [|p pre IH]; intros i x post err Hpre Hconv.
  - cbn. rewrite Hconv, Z.add_0_r. reflexivity.
  - apply Forall_cons in Hpre. destruct Hpre as [(y & Hy & Hnn) Hpre].
    cbn [app convertElems length]. rewrite Hy.
    destruct (Value_Set_converted _ _ _ Hy) as [->|[-> _]]; [|contradiction].
    cbn [result_bind]. rewrite (IH (i + 1) x post err Hpre Hconv).
    cbn [result_bind].
    assert (Hi : i + 1 + Z.of_nat (length pre) = i + Z.of_nat (S (length pre)))
      by lia.
    rewrite Hi. reflexivity.
Qed.

(** X5.  A generic sequence that coerces to a slice type coerces element
    by element: the result is a slice of the target's element type, as long
    as the input, whose element at each index is the coercion of the
    input's element at that index. *)
Theorem convertToType_slice_Forall2 (xs : list value) (elemType : gotype)
  (c : value) :
  convertToType (VSlice (TInterface IAny) xs) (TSlice elemType) = Ok c ->
  exists ys,
    c = VSlice elemType ys
    /\ length ys = length xs
    /\ Forall2 (fun x y => convertToType x elemType = Ok y) xs ys.
Proof.
  intros Hconv. rewrite convertToType_slice_loop in Hconv.
  destruct (AssignableTo _ (TSlice elemType)) eqn:Hfits.
  - injection Hconv as <-. apply AssignableTo_generic_slice in Hfits. subst.
    exists xs. split; [reflexivity|]. split; [reflexivity|].
    induction xs; constructor; [apply convertToType_any | assumption].
  - destruct (convertElems elemType 0 xs) as [ys|e|p] eqn:Hloop; cbn in Hconv;
      try discriminate.
    injection Hconv as <-. apply convertElems_Ok in Hloop.
    exists ys. split; [reflexivity|]. split; [|exact Hloop].
    symmetry. eapply Forall2_length, Hloop.
Qed.

(** X6.  The coercion of a generic sequence stops at the first element
    whose coercion fails and reports it under that element's index. *)
Theorem convertToType_slice_first_failure_index (pre post : list value)
  (x : value) (elemType : gotype) (err : error) :
  Forall (fun p => exists y, convertToType p elemType = Ok y /\ y <> VNil) pre ->
  convertToType x elemType = Err err ->
  convertToType (VSlice (TInterface IAny) (pre ++ x :: post)) (TSlice elemType)
  = Err (Errorf "cannot convert slice element %d: %w"
           [AInt (Z.of_nat (length pre))] (Some err)).
Proof.
  intros Hpre Hconv. rewrite convertToType_slice_loop.
  destruct (AssignableTo _ (TSlice elemType)) eqn:Hfits.
  - apply AssignableTo_generic_slice in Hfits. subst.
    rewrite convertToType_any in Hconv. discriminate.
  - rewrite (convertElems_first_failure _ _ 0 _ _ _ Hpre Hconv). reflexivity.
Qed.

Lemma convertEntries_Ok (elemType : gotype) (entries : list (string * value)) :
  forall es,
    convertEntries elemType entries = Ok es ->
    (forall k y, (k, y) ∈ es ->
                 exists x, (k, x) ∈ entries /\ convertToType x elemType = Ok y)
    /\ (forall k x, (k, x) ∈ entries ->
                    (exists y, (k, y) ∈ es /\ convertToType x elemType = Ok y)
                    \/ (x = VNil /\ exists i, elemType = TInterface i)).
Proof.
  induction entries as [|[key x0] entries IH]; intros es Hloop; cbn in Hloop.
  - injection Hloop as <-. split; intros k v Hin; apply elem_of_nil in Hin;
      contradiction.
  - destruct (convertToType x0 elemType) as [c|e|p] eqn:Hconv; try discriminate.
    assert (Hkeep :
      forall rest, convertEntries elemType entries = Ok rest ->
        (forall k y, (k, y) ∈ rest ->
                     exists x, (k, x) ∈ (key, x0) :: entries
                               /\ convertToType x elemType = Ok y)
        /\ (forall k x, (k, x) ∈ entries ->
                        (exists y, (k, y) ∈ rest /\ convertToType x elemType = Ok y)
                        \/ (x = VNil /\ exists i, elemType = TInterface i))).
    { intros rest Hrest. destruct (IH rest Hrest) as [H1 H2]. split; [|exact H2].
      intros k y Hin. destruct (H1 k y Hin) as (x & Hx & Hc).
      exists x. split; [apply list_elem_of_further, Hx | exact Hc]. }
    destruct (match c with VNil => true | _ => false end) eqn:Hnil.
    + destruct c; try discriminate Hnil.
      destruct (Hkeep es Hloop) as [H1 H2]. split; [exact H1|].
      intros k x Hin. apply elem_of_cons in Hin. destruct Hin as [[= -> ->]|Hin];
        [|apply H2, Hin].
      right. destruct (convertToType_Ok_nil _ _ Hconv) as [-> Hi]. auto.
    + assert (Hstep : (if AssignableTo c elemType
                       then rest' <- convertEntries elemType entries ;;
                            Ok ((key, c) :: rest')
                       else Panic (PanicSetNotAssignable c elemType)) = Ok es)
        by (destruct c; try discriminate Hnil; exact Hloop).
      clear Hloop.
      destruct (AssignableTo c elemType); try discriminate.
      destruct (convertEntries elemType entries) as [rest|e|p] eqn:Hrest;
        cbn in Hstep; try discriminate.
      injection Hstep as <-. destruct (Hkeep rest eq_refl) as [H1 H2]. split.
      * intros k y Hin. apply elem_of_cons in Hin.
        destruct Hin as [[= -> ->]|Hin]; [|apply H1, Hin].
        exists x0. split; [apply list_elem_of_here | exact Hconv].
      * intros k x Hin. apply elem_of_cons in Hin.
        destruct Hin as [[= -> ->]|Hin].
        -- left. exists c. split; [apply list_elem_of_here | exact Hconv].
        -- destruct (H2 k x Hin) as [(y & Hy & Hc)|Hdrop]; [|auto].
           left. exists y. split; [apply list_elem_of_further, Hy | exact Hc].
Qed.

(** X7.  A generic map that coerces to a map type with string keys
    coerces entry by entry: every entry of the result is an input entry
    with its value coerced, under the same key; and every input entry is
    in the result, except that a nil value is dropped when the element
    type is an interface. *)
Theorem convertToType_map_entries (entries : list (string * value))
  (elemType : gotype) (c : value) :
  convertToType (VMap (TInterface IAny) entries) (TMap TString elemType) = Ok c ->
  exists es,
    c = VMap elemType es
    /\ (forall k y, (k, y) ∈ es ->
                    exists x, (k, x) ∈ entries /\ convertToType x elemType = Ok y)
    /\ (forall k x, (k, x) ∈ entries ->
                    (exists y, (k, y) ∈ es /\ convertToType x elemType = Ok y)
                    \/ (x = VNil /\ exists i, elemType = TInterface i)).
Proof.
  intros Hconv. rewrite convertToType_map_loop in Hconv.
  destruct (AssignableTo _ (TMap TString elemType)) eqn:Hfits.
  - injection Hconv as <-. apply AssignableTo_generic_map in Hfits. subst.
    exists entries. split; [reflexivity|]. split.
    + intros k y Hin. exists y. split; [exact Hin | apply convertToType_any].
    + intros k x Hin. left. exists x. split; [exact Hin | apply convertToType_any].
  - destruct (convertEntries elemType entries) as [es|e|p] eqn:Hloop;
      cbn in Hconv; try discriminate.
    injection Hconv as <-. exists es. split; [reflexivity|].
    apply convertEntries_Ok, Hloop.
Qed.

End Collections.

Lemma convertToType_slice_Forall2_witness :
  exists ys,
    VSlice (TInt Int) [VInt Int 1; VInt Int 2] = VSlice (TInt Int) ys
    /\ length ys = length [VFloat Float64 1%float; VString "2"]
    /\ Forall2 (fun x y => @convertToType inertStd x (TInt Int) = Ok y)
         [VFloat Float64 1%float; VString "2"] ys.
Proof.
  refine (@convertToType_slice_Forall2 inertStd
            [VFloat Float64 1%float; VString "2"] (TInt Int)
            (VSlice (TInt Int) [VInt Int 1; VInt Int 2]) _).
  vm_compute. reflexivity.
Defined.

Lemma convertToType_slice_first_failure_index_witness :
  @convertToType inertStd
    (VSlice (TInterface IAny) ([VFloat Float64 1%float] ++ VString "x" :: [VBool true]))
    (TSlice (TInt Int))
  = Err (Errorf "cannot convert slice element %d: %w" [AInt 1]
           (Some (Errorf "cannot convert %v to int: %w" [AValue (VString "x")]
                    (Some (NumError "ParseInt" "x" strconv.ErrSyntax))))).
Proof.
  refine (@convertToType_slice_first_failure_index inertStd
            [VFloat Float64 1%float] [VBool true] (VString "x") (TInt Int) _ _ _).
  - constructor; [|constructor]. exists (VInt Int 1).
    split; [vm_compute; reflexivity | discriminate].
  - vm_compute. reflexivity.
Defined.

Lemma convertToType_map_entries_witness :
  exists es,
    VMap (TInt Int) [("a", VInt Int 1)] = VMap (TInt Int) es
    /\ (forall k y, (k, y) ∈ es ->
                    exists x, (k, x) ∈ [("a", VString "1")]
                              /\ @convertToType inertStd x (TInt Int) = Ok y)
    /\ (forall k x, (k, x) ∈ [("a", VString "1")] ->
                    (exists y, (k, y) ∈ es
                               /\ @convertToType inertStd x (TInt Int) = Ok y)
                    \/ (x = VNil /\ exists i, TInt Int = TInterface i)).
Proof.
  refine (@convertToType_map_entries inertStd [("a", VString "1")] (TInt Int)
            (VMap (TInt Int) [("a", VInt Int 1)]) _).
  vm_compute. reflexivity.
Defined.

(** ** More on [Execute] *)

Section ExecuteMore.

Context `{!GoStd}.

(** X8.  A field whose type is a struct or a pointer cannot be bound from
    a decoded JSON object: [convertToType] has no case for such a target,
    so [Execute] returns the conversion error under the field's key and
    does not call the function.  (The tools that [generateMCPToolWithJennifer]
    emits take their request parameters and body in such fields.) *)
Theorem Execute_struct_field_from_object_is_refused
  (rangeFirst : nat -> string) (t : Tool) (params : gmap string value)
  (pre post : list StructField) (field : FieldInfo) (fieldType : gotype)
  (entries : list (string * value)) (vals : list value) :
  boundIns (function t) = [TStruct (pre ++ (field, fieldType) :: post)] ->
  (exists fs, fieldType = TStruct fs) \/ (exists elem, fieldType = TPtr elem) ->
  bindFields params pre = Ok vals ->
  CanSet field = true ->
  params !! bindName field = Some (VMap (TInterface IAny) entries) ->
  Execute rangeFirst t params
  = {| calls := [];
       ended :=
         Returned VNil
           (Some (Errorf "failed to convert parameter %s: %w"
                    [AString (bindName field)]
                    (Some (Errorf "cannot convert %v (type %T) to %v"
                             [AValue (VMap (TInterface IAny) entries);
                              AValue (VMap (TInterface IAny) entries);
                              AType fieldType] None)))) |}.
Proof.
  intros Hins Hkind Hpre Hset Hlook.
  apply Execute_Bind_Err. rewrite (Bind_struct _ _ _ _ Hins).
  assert (Hconv : convertToType (VMap (TInterface IAny) entries) fieldType
                  = Err (Errorf "cannot convert %v (type %T) to %v"
                           [AValue (VMap (TInterface IAny) entries);
                            AValue (VMap (TInterface IAny) entries);
                            AType fieldType] None))
    by (destruct Hkind as [[fs ->]|[elem ->]]; reflexivity).
  rewrite (bindFields_first_failure _ _ _ _ _ _ _ _ Hpre Hset Hlook Hconv).
  reflexivity.
Qed.

(** X9.  After a successful bind the struct has one value for each
    declared field: the coercion of the input entry when the field is
    exported and its wire-name is a key of the input, the zero value of
    the field's type otherwise; an unexported field is never set, whatever
    the input holds under its name. *)
Theorem bindFields_Ok_fields (params : gmap string value)
  (fields : list StructField) (vals : list value) :
  bindFields params fields = Ok vals ->
  length vals = length fields
  /\ forall (j : nat) field fieldType,
      fields !! j = Some (field, fieldType) ->
      exists val,
        vals !! j = Some val
        /\ match params !! bindName field with
           | Some paramValue =>
               if CanSet field
               then convertToType paramValue fieldType = Ok val /\ val <> VNil
               else val = Zero fieldType
           | None => val = Zero fieldType
           end.
Proof.
  revert vals. induction fields as [|[field0 type0] fields IH]; intros vals Hbind.
  - cbn in Hbind. injection Hbind as <-. split; [reflexivity|].
    intros j field fieldType Hj. discriminate Hj.
  - cbn [bindFields] in Hbind.
    destruct (match params !! bindName field0 with Some _ => _ | None => _ end)
      as [v0| |] eqn:Hhead; cbn in Hbind; try discriminate.
    destruct (bindFields params fields) as [rest| |] eqn:Hrest; cbn in Hbind;
      try discriminate.
    injection Hbind as <-. destruct (IH rest eq_refl) as [Hlen Hvals].
    split; [cbn; rewrite Hlen; reflexivity|].
    intros [|j] field fieldType Hj; cbn in Hj.
    + injection Hj as -> ->. exists v0. split; [reflexivity|].
      destruct (params !! bindName field) as [paramValue|];
        [|injection Hhead as <-; reflexivity].
      destruct (CanSet field); [|injection Hhead as <-; reflexivity].
      destruct (convertToType paramValue fieldType) as [c| |]; try discriminate.
      apply Value_Set_Ok in Hhead. destruct Hhead as [-> Hnn]. auto.
    + apply Hvals, Hj.
Qed.

(** When no wire-name of the struct is a key of the input, the bind gives
    the zero struct. *)
Lemma bindFields_absent_all (params : gmap string value) (fields : list StructField) :
  (forall field fieldType,
      (field, fieldType) ∈ fields -> params !! bindName field = None) ->
  bindFields params fields = Ok (map (fun f : StructField => Zero (snd f)) fields).
Proof.
  induction fields as [|[field0 type0] fields IH]; intros Habs; [reflexivity|].
  cbn [bindFields map snd].
  rewrite (Habs field0 type0) by apply list_elem_of_here.
  rewrite IH; [reflexivity|].
  intros f t Hin. apply (Habs f t). apply list_elem_of_further, Hin.
Qed.

(** X11.  A nil input value (a JSON null) for a parameter of interface
    type makes [Execute] panic before the function is called: under the
    key of a struct field of interface type, in [reflect.Value.Set]; as the
    value taken for a single parameter of interface type, in
    [reflect.Value.Call]. *)
Theorem Execute_nil_for_interface_panics
  (rangeFirst : nat -> string) (t : Tool) (params : gmap string value) :
  (forall pre field i post vals,
      boundIns (function t) = [TStruct (pre ++ (field, TInterface i) :: post)] ->
      bindFields params pre = Ok vals ->
      CanSet field = true ->
      params !! bindName field = Some VNil ->
      Execute rangeFirst t params
      = {| calls := []; ended := Panicked PanicSetZeroValue |})
  /\ (forall i paramName,
         boundIns (function t) = [TInterface i] ->
         rangeFirst (if hasContext (function t) then 1%nat else 0%nat) = paramName ->
         paramName <> EmptyString ->
         params !! paramName = Some VNil ->
         Execute rangeFirst t params
         = {| calls := []; ended := Panicked PanicCallZeroValue |}).
Proof.
  split.
  - intros pre field i post vals Hins Hpre Hset Hlook.
    unfold Execute. rewrite (Bind_struct _ _ _ _ Hins).
    assert (Hb : bindFields params (pre ++ (field, TInterface i) :: post)
                 = Panic PanicSetZeroValue).
    { clear Hins. revert vals Hpre.
      induction pre as [|[field0 type0] pre IH]; intros vals Hpre.
      - cbn [app bindFields]. rewrite Hlook, Hset. reflexivity.
      - cbn [app bindFields] in *.
        destruct (match params !! bindName field0 with Some _ => _ | None => _ end)
          as [v0| |]; cbn in Hpre |- *; try discriminate.
        destruct (bindFields params pre) as [rest| |] eqn:Hrest; cbn in Hpre;
          try discriminate.
        rewrite (IH rest) by reflexivity. reflexivity. }
    rewrite Hb. reflexivity.
  - intros i paramName Hins Hfirst Hne Hlook.
    unfold Execute. rewrite (Bind_single _ _ _ _ Hins eq_refl), Hfirst.
    unfold bindParam. rewrite (lookup_Some_size_pos _ _ _ Hlook).
    destruct (String.eqb_spec paramName EmptyString) as [?|_]; [contradiction|].
    rewrite Hlook. reflexivity.
Qed.

End ExecuteMore.

Lemma Execute_struct_field_from_object_is_refused_witness :
  calls (@Execute inertStd (fun _ => "in")
           (NewFunctionTool "nested" EmptyString
              (ctxFunc (TStruct ([] ++ ({| Name := "In"; PkgPath := EmptyString;
                                           Tag := [("json", "in")] |},
                                        TStruct idNote) :: [])) echo))
           {[ "in" := VMap (TInterface IAny) [("id", VString "42")] ]})
  = [].
Proof.
  exact (f_equal calls
           (@Execute_struct_field_from_object_is_refused inertStd (fun _ => "in")
              (NewFunctionTool "nested" EmptyString
                 (ctxFunc (TStruct ([] ++ ({| Name := "In"; PkgPath := EmptyString;
                                              Tag := [("json", "in")] |},
                                           TStruct idNote) :: [])) echo))
              {[ "in" := VMap (TInterface IAny) [("id", VString "42")] ]}
              [] [] {| Name := "In"; PkgPath := EmptyString; Tag := [("json", "in")] |}
              (TStruct idNote) [("id", VString "42")] []
              eq_refl (or_introl (ex_intro _ idNote eq_refl)) eq_refl eq_refl
              eq_refl)).
Defined.

Lemma bindFields_Ok_fields_witness :
  length [VInt Int 42; VString EmptyString] = length idNote
  /\ forall (j : nat) field fieldType,
      idNote !! j = Some (field, fieldType) ->
      exists val,
        [VInt Int 42; VString EmptyString] !! j = Some val
        /\ match ({[ "id" := VString "42" ]} : gmap string value) !! bindName field with
           | Some paramValue =>
               if CanSet field
               then @convertToType inertStd paramValue fieldType = Ok val
                    /\ val <> VNil
               else val = Zero fieldType
           | None => val = Zero fieldType
           end.
Proof.
  refine (@bindFields_Ok_fields inertStd {[ "id" := VString "42" ]} idNote
            [VInt Int 42; VString EmptyString] _).
  vm_compute. reflexivity.
Defined.

Lemma Execute_nil_for_interface_panics_witness :
  @Execute inertStd (fun _ => "value")
    (NewFunctionTool "any" EmptyString (ctxFunc (TInterface IAny) echo))
    {[ "value" := VNil ]}
  = {| calls := []; ended := Panicked PanicCallZeroValue |}.
Proof.
  refine (proj2 (@Execute_nil_for_interface_panics inertStd (fun _ => "value")
            (NewFunctionTool "any" EmptyString (ctxFunc (TInterface IAny) echo))
            {[ "value" := VNil ]}) IAny "value" eq_refl eq_refl _ _).
  - discriminate.
  - vm_compute. reflexivity.
Defined.

(** ** The panics of binding *)

Section BindingPanics.

Context `{!GoStd}.

Lemma convertElems_Panic (elemType : gotype) (xs : list value) :
  Forall (fun x => forall t p, convertToType x t = Panic p -> bindingPanic p) xs ->
  forall (i : Z) (p : panic),
    convertElems elemType i xs = Panic p -> bindingPanic p.
Proof.
  induction 1 as [|x xs Hx _ IH]; intros i p Hloop; cbn in Hloop;
    [discriminate|].
  destruct (convertToType x elemType) as [c|e|p0] eqn:Hconv; try discriminate.
  - destruct (Value_Set_converted _ _ _ Hconv) as [Hset|[_ Hset]];
      rewrite Hset in Hloop; cbn in Hloop.
    + destruct (convertElems elemType (i + 1) xs) as [rest|e|p0] eqn:Hrest;
        cbn in Hloop; try discriminate.
      injection Hloop as <-. eapply IH, Hrest.
    + injection Hloop as <-. right. right. reflexivity.
  - injection Hloop as <-. eapply Hx, Hconv.
Qed.

Lemma convertEntries_Panic (elemType : gotype) (entries : list (string * value)) :
  Forall (fun kv => forall t p, convertToType (snd kv) t = Panic p -> bindingPanic p)
    entries ->
  forall p : panic, convertEntries elemType entries = Panic p -> bindingPanic p.
Proof.
  induction 1 as [|[key x] entries Hx _ IH]; intros p Hloop; cbn in Hloop;
    [discriminate|].
  destruct (convertToType x elemType) as [c|e|p0] eqn:Hconv; try discriminate.
  - destruct (convertToType_Ok_assignable _ _ _ Hconv) as [->|Hfits];
      [apply IH, Hloop|].
    destruct c; [apply IH, Hloop | ..];
      rewrite Hfits in Hloop;
      (destruct (convertEntries elemType entries) as [rest|err'|p0] eqn:Hrest;
       cbn in Hloop; try discriminate;
       injection Hloop as <-; apply IH; reflexivity).
  - injection Hloop as <-. eapply (Hx elemType), Hconv.
Qed.

(** Closes a goal whose hypothesis [H] turns, after evaluation and case
    analysis on what it inspects, into an equation between different
    outcomes. *)
Ltac refute_by_cases H :=
  cbn in H; unfold result_bind in H; try discriminate;
  repeat match type of H with
    | context [match ?x with _ => _ end] => destruct x eqn:?; try discriminate
    end;
  cbn in H; discriminate.

(** A coercion panics only in [reflect.Value.Int], on an unsigned integer
    or a float, or in [reflect.Value.Set], on a nil element. *)
Lemma convertToType_Panic :
  forall (v : value) (targetType : gotype) (p : panic),
    convertToType v targetType = Panic p -> bindingPanic p.
Proof.
  fix IH 1. intros v targetType p Hconv.
  destruct v as [ | b | k n | k n | k f | s | elem xs | elem xs | elem entries
                | fs vals | elem pointee | t | e ];
    try solve
      [ destruct targetType as [ | k' | k' | k' | | te | n' te | tk te | fs' | te | [] ];
        cbn in Hconv; unfold result_bind in Hconv; try discriminate;
        repeat match type of Hconv with
          | context [match ?x with _ => _ end] => destruct x eqn:?; try discriminate
          end;
        cbn in Hconv; try discriminate;
        injection Hconv as <-; unfold bindingPanic; eauto 6 ].
  - (* a slice *)
    assert (Hxs : Forall (fun x => forall t p, convertToType x t = Panic p
                                               -> bindingPanic p) xs)
      by (clear Hconv; induction xs as [|x xs IHxs];
          [apply Forall_nil_2 | apply Forall_cons_2; [apply IH | exact IHxs]]).
    destruct targetType as [ | k' | k' | k' | | te | n' te | tk te | fs' | te | [] ];
      try solve [ refute_by_cases Hconv ].
    destruct elem as [ | | | | | | | | | | [] ];
      try solve [ refute_by_cases Hconv ].
    rewrite convertToType_slice_loop in Hconv.
    destruct (AssignableTo _ (TSlice te)); try discriminate.
    destruct (convertElems te 0 xs) as [ys|e|p0] eqn:Hloop; cbn in Hconv;
      try discriminate.
    injection Hconv as <-. eapply convertElems_Panic; eassumption.
  - (* a map *)
    assert (Hes : Forall (fun kv => forall t p, convertToType (snd kv) t = Panic p
                                                -> bindingPanic p) entries)
      by (clear Hconv; induction entries as [|[key x] entries IHes];
          [apply Forall_nil_2 | apply Forall_cons_2; [apply IH | exact IHes]]).
    destruct targetType as [ | k' | k' | k' | | te | n' te | tk te | fs' | te | [] ];
      try solve [ refute_by_cases Hconv ].
    destruct tk;
      try solve [ refute_by_cases Hconv ].
    destruct elem as [ | | | | | | | | | | [] ];
      try solve [ refute_by_cases Hconv ].
    rewrite convertToType_map_loop in Hconv.
    destruct (AssignableTo _ (TMap TString te)); try discriminate.
    destruct (convertEntries te entries) as [es|e|p0] eqn:Hloop; cbn in Hconv;
      try discriminate.
    injection Hconv as <-. eapply convertEntries_Panic; eassumption.
Qed.

Lemma bindFields_Panic (params : gmap string value) (fields : list StructField)
  (p : panic) :
  bindFields params fields = Panic p -> bindingPanic p.
Proof.
  induction fields as [|[field0 type0] fields IH]; intros Hbind;
    [discriminate Hbind|].
  cbn [bindFields] in Hbind.
  destruct (match params !! bindName field0 with Some _ => _ | None => _ end)
    as [v0|e|p0] eqn:Hhead; cbn in Hbind; try discriminate.
  - destruct (bindFields params fields) as [rest|e|p0]; cbn in Hbind;
      try discriminate.
    injection Hbind as <-. apply IH. reflexivity.
  - injection Hbind as <-.
    destruct (params !! bindName field0) as [paramValue|]; [|discriminate].
    destruct (CanSet field0); [|discriminate].
    destruct (convertToType paramValue type0) as [c|e'|p1] eqn:Hconv;
      try discriminate.
    + destruct (Value_Set_converted _ _ _ Hconv) as [Hset|[_ Hset]];
        rewrite Hset in Hhead; [discriminate|].
      injection Hhead as <-. right. right. reflexivity.
    + injection Hhead as <-. eapply convertToType_Panic, Hconv.
Qed.

Lemma bindParam_Panic (firstKey : string) (params : gmap string value)
  (paramType : gotype) (p : panic) :
  bindParam firstKey params paramType = Panic p -> bindingPanic p.
Proof.
  unfold bindParam.
  destruct (String.eqb _ EmptyString); [discriminate|].
  destruct (params !! _) as [paramValue|]; [|discriminate].
  destruct (convertToType paramValue paramType) as [c|e|p0] eqn:Hconv.
  - destruct c; discriminate.
  - discriminate.
  - intros [= <-]. eapply convertToType_Panic, Hconv.
Qed.

Lemma bindArgs_Panic (rangeFirst : nat -> string) (params : gmap string value)
  (ins : list gotype) :
  forall (i : nat) (isFirst : bool) (p : panic),
    bindArgs rangeFirst params i isFirst ins = Panic p -> bindingPanic p.
Proof.
  induction ins as [|paramType ins IH]; intros i isFirst p Hbind;
    [discriminate Hbind|].
  cbn [bindArgs] in Hbind.
  match type of Hbind with
  | result_bind ?arg _ = _ => destruct arg as [a|e|p0] eqn:Harg
  end; cbn in Hbind; [| discriminate | injection Hbind as ->].
  - destruct (bindArgs rangeFirst params (S i) false ins) as [rest|e|p0] eqn:Hrest;
      cbn in Hbind; try discriminate.
    injection Hbind as ->. eapply IH, Hrest.
  - destruct paramType as [ | k | k | k | | e | n e | key elem | fields | e | i' ];
      try (eapply bindParam_Panic, Harg).
    + destruct key; try (eapply bindParam_Panic, Harg).
      destruct elem; try (eapply bindParam_Panic, Harg).
      destruct isFirst; [discriminate | eapply bindParam_Panic, Harg].
    + destruct (bindFields params fields) as [vals|e|p0] eqn:Hfields;
        cbn in Harg; try discriminate.
      injection Harg as ->. eapply bindFields_Panic, Hfields.
Qed.

(** X13.  When no defined type of kind string or bool occurs in the
    parameter types (the types of this model: a [gotype] of kind string
    or bool is the predeclared type), the binding phase of [Execute]
    panics in two ways only: in [reflect.Value.Int], called on an unsigned
    integer or a float input that is coerced to [bool], to a signed
    integer or to a float; and in [reflect.Value.Set], when a nil value is
    stored as an element or a field of interface type.  On these types it
    never stores a value of the wrong type.  (For a field of a defined
    string or bool type the coercion returns a plain string or bool, and
    storing it panics as not assignable.) *)
Theorem Bind_panics_only_in_Int_or_Set (rangeFirst : nat -> string) (fn : Func)
  (params : gmap string value) (p : panic) :
  Bind rangeFirst fn params = Panic p ->
  (exists k n, p = PanicValueInt (VUint k n))
  \/ (exists k f, p = PanicValueInt (VFloat k f))
  \/ p = PanicSetZeroValue.
Proof. intros Hbind. unfold Bind in Hbind. eapply bindArgs_Panic, Hbind. Qed.

End BindingPanics.

Lemma Bind_panics_only_in_Int_or_Set_witness :
  (exists k n, PanicValueInt (VFloat Float64 1%float) = PanicValueInt (VUint k n))
  \/ (exists k f, PanicValueInt (VFloat Float64 1%float) = PanicValueInt (VFloat k f))
  \/ PanicValueInt (VFloat Float64 1%float) = PanicSetZeroValue.
Proof.
  refine (@Bind_panics_only_in_Int_or_Set inertStd (fun _ => "flag")
            (ctxFunc (TStruct flagStruct) echo) (list_to_map flagOne)
            (PanicValueInt (VFloat Float64 1%float)) _).
  vm_compute. reflexivity.
Defined.

(** ** The call *)


Section CallFacts.

Context `{!GoStd}.




(** When no wire-name of the struct is a key of the input, [Execute] calls
    the function with the zero struct. *)
Lemma Execute_struct_absent_all (rangeFirst : nat -> string) (t : Tool)
  (fields : list StructField) (params : gmap string value) :
  boundIns (function t) = [TStruct fields] ->
  (forall field fieldType,
      (field, fieldType) ∈ fields -> params !! bindName field = None) ->
  Execute rangeFirst t params
  = {| calls := [[Zero (TStruct fields)]];
       ended := returnValues (Func_Call (function t) [Zero (TStruct fields)]) |}.
Proof.
  intros Hins Habs.
  apply (Execute_struct_calls _ _ _ _ _ Hins).
  apply bindFields_absent_all, Habs.
Qed.

(** X14.  After [SetFunction] the function has one parameter of type
    [any], and [Execute] does not hand it the input map.  With an empty
    map, and also when the key that ranging over the map yields first is
    the empty string, it is called with nil.  Otherwise, that key not
    being empty, it is called with the value of the entry under that key,
    unless that value is nil, in which case [Execute] panics in
    [reflect.Value.Call] without calling it.  The result and the error are
    those of the function. *)
Theorem Execute_SetFunction (rangeFirst : nat -> string) (tool : Tool)
  (fn : Function) (params : gmap string value) :
  (size params = O \/ rangeFirst 1%nat = EmptyString ->
   Execute rangeFirst (SetFunction tool fn) params
   = {| calls := [[VNil]];
        ended := Returned (fst (fn VNil)) (snd (fn VNil)) |})
  /\ (forall paramValue,
         rangeFirst 1%nat <> EmptyString ->
         params !! rangeFirst 1%nat = Some paramValue ->
         paramValue <> VNil ->
         Execute rangeFirst (SetFunction tool fn) params
         = {| calls := [[paramValue]];
              ended := Returned (fst (fn paramValue)) (snd (fn paramValue)) |})
  /\ (rangeFirst 1%nat <> EmptyString ->
      params !! rangeFirst 1%nat = Some VNil ->
      Execute rangeFirst (SetFunction tool fn) params
      = {| calls := []; ended := Panicked PanicCallZeroValue |}).
Proof.
  assert (Hret : forall v,
             returnValues (Func_Call (function (SetFunction tool fn)) [v])
             = Returned (fst (fn v)) (snd (fn v))).
  { intros v. cbn. destruct (fn v) as [res [e|]]; reflexivity. }
  split; [|split].
  - intros Hzero. unfold Execute, Bind. cbn [SetFunction function hasContext In boundIns tail bindArgs].
    assert (Hparam : bindParam (rangeFirst 1%nat) params (TInterface IAny)
                     = Ok (Some VNil)).
    { unfold bindParam. destruct Hzero as [Hsize | Hkey].
      - rewrite Hsize. reflexivity.
      - rewrite Hkey. destruct (0 <? size params)%nat; reflexivity. }
    rewrite Hparam. cbn [result_bind].
    unfold checkArgs. cbn [validArgs firstUnassignable]. rewrite <- Hret. reflexivity.
  - intros paramValue Hne Hlook Hnn.
    unfold Execute, Bind. cbn [SetFunction function hasContext In boundIns tail bindArgs].
    unfold bindParam. rewrite (lookup_Some_size_pos _ _ _ Hlook).
    destruct (String.eqb_spec (rangeFirst 1%nat) EmptyString) as [?|_];
      [contradiction|].
    rewrite Hlook, convertToType_any.
    rewrite <- Hret.
    destruct paramValue; try contradiction; reflexivity.
  - intros Hne Hlook.
    unfold Execute, Bind. cbn [SetFunction function hasContext In boundIns tail bindArgs].
    unfold bindParam. rewrite (lookup_Some_size_pos _ _ _ Hlook).
    destruct (String.eqb_spec (rangeFirst 1%nat) EmptyString) as [?|_];
      [contradiction|].
    rewrite Hlook. reflexivity.
Qed.

End CallFacts.


Lemma Execute_SetFunction_witness :
  @Execute inertStd (fun _ => "a")
    (SetFunction (NewFunctionTool "f" EmptyString (ctxFunc (TInt Int) echo))
       (fun v => (v, None)))
    {[ "a" := VString "x" ]}
  = {| calls := [[VString "x"]]; ended := Returned (VString "x") None |}.
Proof.
  refine (proj1 (proj2 (@Execute_SetFunction inertStd (fun _ => "a")
            (NewFunctionTool "f" EmptyString (ctxFunc (TInt Int) echo))
            (fun v => (v, None)) {[ "a" := VString "x" ]}))
          (VString "x") _ _ _).
  - discriminate.
  - vm_compute. reflexivity.
  - discriminate.
Defined.

(** ** C1 *)

(** Leaving an entry out of an input that binds gives an input that
    binds: the fields read under the key left out are at their zero value,
    the others are as before. *)
Lemma bindFields_delete `{!GoStd} (params : gmap string value)
  (fields : list StructField) (key : string) :
  forall vals,
    bindFields params fields = Ok vals ->
    exists vals',
      bindFields (delete key params) fields = Ok vals'
      /\ forall (j : nat) field fieldType,
          fields !! j = Some (field, fieldType) ->
          vals' !! j = if String.eqb (bindName field) key
                       then Some (Zero fieldType) else vals !! j.
Proof.
  induction fields as [|[field0 type0] fields IH]; intros vals Hbind.
  - exists []. split; [reflexivity|]. intros j field fieldType Hj.
    rewrite lookup_nil in Hj. discriminate Hj.
  - cbn [bindFields] in Hbind |- *.
    destruct (match params !! bindName field0 with Some _ => _ | None => _ end)
      as [v0| |] eqn:Hhead; cbn in Hbind; try discriminate Hbind.
    destruct (bindFields params fields) as [rest| |] eqn:Hrest; cbn in Hbind;
      try discriminate Hbind.
    injection Hbind as <-.
    destruct (IH rest eq_refl) as (rest' & Hrest' & Hvals).
    destruct (String.eqb_spec (bindName field0) key) as [Heq|Hne].
    + subst key. rewrite lookup_delete_eq. cbn [result_bind].
      rewrite Hrest'. cbn [result_bind].
      exists (Zero type0 :: rest'). split; [reflexivity|].
      intros [|j] field fieldType Hj; cbn in Hj.
      * injection Hj as <- <-. rewrite String.eqb_refl. reflexivity.
      * exact (Hvals j field fieldType Hj).
    + rewrite lookup_delete_ne by congruence. rewrite Hhead. cbn [result_bind].
      rewrite Hrest'. cbn [result_bind].
      exists (v0 :: rest'). split; [reflexivity|].
      intros [|j] field fieldType Hj; cbn in Hj.
      * injection Hj as <- <-.
        destruct (String.eqb_spec (bindName field0) key); [contradiction | reflexivity].
      * exact (Hvals j field fieldType Hj).
Qed.

(** C1.  Binding a struct parameter: (a) after a successful bind every
    declared field whose wire-name is not a key of the input map holds the
    zero value of its type; (b) an error of the bind is never a
    missing-field error: it is the conversion error of an entry that is
    present in the input, qualified by that field's wire-name; (c) for the
    shape [{id: int, note: string (omitempty)}] and the input
    [{"id": "42"}] the bind succeeds with [id = 42] and [note = ""], and
    [Execute] calls the function with that struct; (d) no field is
    required: when no wire-name of the struct is a key of the input (the
    empty map, for one), whatever the tags of the fields, the bind
    succeeds with the zero struct and [Execute] calls the function with
    it; (e) a missing entry never makes a bind fail: leaving any entry out
    of an input that binds gives an input that binds, in which the fields
    read under that key hold the zero value of their type and the other
    fields are as before. *)
Theorem Bind_struct_absent_fields_are_zero `{!GoStd} :
  (forall params fields vals,
      bindFields params fields = Ok vals ->
      forall (j : nat) field fieldType,
        fields !! j = Some (field, fieldType) ->
        params !! bindName field = None ->
        vals !! j = Some (Zero fieldType))
  /\ (forall params fields err,
         bindFields params fields = Err err ->
         err <> ErrRequired
         /\ exists field fieldType paramValue cause,
             (field, fieldType) ∈ fields
             /\ params !! bindName field = Some paramValue
             /\ convertToType paramValue fieldType = Err cause
             /\ err = Errorf "failed to convert parameter %s: %w"
                        [AString (bindName field)] (Some cause))
  /\ (forall rangeFirst name description call,
         let tool := NewFunctionTool name description (ctxFunc (TStruct idNote) call) in
         let params : gmap string value := {[ "id" := VString "42" ]} in
         let bound := VStruct idNote [VInt Int 42; VString EmptyString] in
         Bind rangeFirst (function tool) params = Ok [Some bound]
         /\ calls (Execute rangeFirst tool params) = [[bound]])
  /\ (forall rangeFirst (t : Tool) fields params,
         boundIns (function t) = [TStruct fields] ->
         (forall field fieldType,
             (field, fieldType) ∈ fields -> params !! bindName field = None) ->
         Bind rangeFirst (function t) params = Ok [Some (Zero (TStruct fields))]
         /\ Execute rangeFirst t params
            = {| calls := [[Zero (TStruct fields)]];
                 ended := returnValues
                            (Func_Call (function t) [Zero (TStruct fields)]) |})
  /\ (forall params fields vals key,
         bindFields params fields = Ok vals ->
         exists vals',
           bindFields (delete key params) fields = Ok vals'
           /\ forall (j : nat) field fieldType,
               fields !! j = Some (field, fieldType) ->
               vals' !! j = if String.eqb (bindName field) key
                            then Some (Zero fieldType) else vals !! j).
Proof.
  split; [|split; [|split; [|split]]].
  - intros params fields vals Hbind j field fieldType Hj Habs.
    eapply bindFields_absent; eauto.
  - intros params fields err Hbind.
    destruct (bindFields_Err _ _ _ Hbind)
      as (field & fieldType & paramValue & cause & Hin & _ & Hlook & Hconv & ->).
    split; [discriminate|]. exists field, fieldType, paramValue, cause. auto.
  - intros rangeFirst name description call. split; vm_compute; reflexivity.
  - intros rangeFirst t fields params Hins Habs. split.
    + rewrite (Bind_struct _ _ _ _ Hins).
      rewrite (bindFields_absent_all _ _ Habs). reflexivity.
    + apply Execute_struct_absent_all; assumption.
  - intros params fields vals key Hbind.
    apply bindFields_delete, Hbind.
Qed.

Lemma Bind_struct_absent_fields_are_zero_witness :
  (@bindFields inertStd {[ "id" := VString "42" ]} idNote
   = Ok [VInt Int 42; VString EmptyString]
   /\ [VInt Int 42; VString EmptyString] !! 1%nat = Some (Zero TString))
  /\ @Execute inertStd (fun _ => EmptyString)
       (NewFunctionTool "get" EmptyString (ctxFunc (TStruct idNote) echo)) ∅
     = {| calls := [[VStruct idNote [VInt Int 0; VString EmptyString]]];
          ended := Returned (VStruct idNote [VInt Int 0; VString EmptyString])
                     None |}.
Proof.
  assert (Hbind : @bindFields inertStd {[ "id" := VString "42" ]} idNote
                  = Ok [VInt Int 42; VString EmptyString])
    by (vm_compute; reflexivity).
  split; [split; [exact Hbind|]|].
  - refine (proj1 (@Bind_struct_absent_fields_are_zero inertStd) _ _ _ Hbind 1%nat
              {| Name := "Note"; PkgPath := EmptyString;
                 Tag := [("json", "note,omitempty")] |} TString _ _);
      vm_compute; reflexivity.
  - refine (proj2 (proj1 (proj2 (proj2 (proj2
              (@Bind_struct_absent_fields_are_zero inertStd))))
              (fun _ => EmptyString)
              (NewFunctionTool "get" EmptyString (ctxFunc (TStruct idNote) echo))
              idNote ∅ eq_refl _)).
    intros field fieldType _. apply lookup_empty.
Defined.

(** ** More on the handler *)

Section HandlerMore.

Context `{!GoStd} `{!GoJson}.

Lemma Execute_calls_at_most_once (rangeFirst : nat -> string) (t : Tool)
  (params : gmap string value) :
  (length (calls (Execute rangeFirst t params)) <= 1)%nat.
Proof.
  unfold Execute. destruct (Bind _ _ _); cbn; try lia.
  destruct (checkArgs _ _); cbn; lia.
Qed.

(** X10.  A request without arguments is bound from the empty map: for a
    tool over a function of one struct parameter the handler calls the
    function once, with the zero value of the struct, whatever fields the
    schema lists as required. *)
Theorem Handler_without_arguments (rangeFirst : nat -> string) (t : Tool)
  (fields : list StructField) :
  boundIns (function t) = [TStruct fields] ->
  handler_calls (Handler rangeFirst t VNil) = [[Zero (TStruct fields)]]
  /\ Execute rangeFirst t ∅
     = {| calls := [[Zero (TStruct fields)]];
          ended := returnValues (Func_Call (function t) [Zero (TStruct fields)]) |}.
Proof.
  intros Hins.
  assert (Hrun : Execute rangeFirst t ∅
                 = {| calls := [[Zero (TStruct fields)]];
                      ended := returnValues
                                 (Func_Call (function t) [Zero (TStruct fields)]) |}).
  { apply Execute_struct_absent_all; [exact Hins|].
    intros field fieldType _. apply lookup_empty. }
  split; [|exact Hrun].
  unfold Handler. cbn [handler_calls]. rewrite Hrun. reflexivity.
Qed.

(** X15.  The handler calls the wrapped function at most once; and when
    the arguments decode but cannot be bound, it returns an error payload
    with the text of the binding error, a nil error of its own, and has
    not called the function. *)
Theorem Handler_bind_error_is_a_payload (rangeFirst : nat -> string) (t : Tool)
  (Arguments : value) :
  (length (handler_calls (Handler rangeFirst t Arguments)) <= 1)%nat
  /\ (forall buf params err,
         Arguments <> VNil ->
         json_Marshal Arguments = inl buf ->
         json_Unmarshal buf = inl params ->
         Bind rangeFirst (function t) params = Err err ->
         Handler rangeFirst t Arguments
         = {| handler_calls := [];
              handler_ended :=
                HandlerReturned (NewToolResultError (Error_text err)) None |}).
Proof.
  split.
  - unfold Handler.
    destruct (match Arguments with VNil => _ | _ => _ end) as [params|e];
      cbn [handler_calls]; [apply Execute_calls_at_most_once | cbn; lia].
  - intros buf params err Hnn Hm Hu Hbind. unfold Handler.
    destruct Arguments; try contradiction; rewrite Hm, Hu;
      rewrite (Execute_Bind_Err _ _ _ _ Hbind); reflexivity.
Qed.

End HandlerMore.

Lemma Handler_without_arguments_witness :
  handler_calls (@Handler inertStd (fixedJson EmptyString ∅) (fun _ => "id")
                   (NewFunctionTool "echo" EmptyString (ctxFunc (TStruct idNote) echo))
                   VNil)
  = [[Zero (TStruct idNote)]].
Proof.
  exact (proj1 (@Handler_without_arguments inertStd (fixedJson EmptyString ∅)
                  (fun _ => "id")
                  (NewFunctionTool "echo" EmptyString (ctxFunc (TStruct idNote) echo))
                  idNote eq_refl)).
Defined.

Lemma Handler_bind_error_is_a_payload_witness :
  @Handler inertStd (fixedJson "{id:abc}" {[ "id" := VString "abc" ]})
    (fun _ => "id")
    (NewFunctionTool "echo" EmptyString (ctxFunc (TStruct idNote) echo))
    (VMap (TInterface IAny) [("id", VString "abc")])
  = {| handler_calls := [];
       handler_ended := HandlerReturned (NewToolResultError EmptyString) None |}.
Proof.
  refine (proj2 (@Handler_bind_error_is_a_payload inertStd
            (fixedJson "{id:abc}" {[ "id" := VString "abc" ]}) (fun _ => "id")
            (NewFunctionTool "echo" EmptyString (ctxFunc (TStruct idNote) echo))
            (VMap (TInterface IAny) [("id", VString "abc")]))
          "{id:abc}" {[ "id" := VString "abc" ]}
          (Errorf "failed to convert parameter %s: %w" [AString "id"]
             (Some (Errorf "cannot convert %v to int: %w" [AValue (VString "abc")]
                      (Some (NumError "ParseInt" "abc" strconv.ErrSyntax)))))
          _ eq_refl eq_refl _).
  - discriminate.
  - vm_compute. reflexivity.
Defined.

(** ** More on the schema *)

(** X16.  Every schema that [getTypeSchema] builds has the key ["type"],
    and its value is one of the six JSON type names the function writes;
    this holds through any number of pointers. *)
Theorem getTypeSchema_has_type (t : gotype) :
  exists ty : string,
    getTypeSchema t !! "type" = Some (JString ty)
    /\ ty ∈ ["boolean"; "integer"; "number"; "string"; "array"; "object"].
Proof.
  induction t as [ | k | k | k | | e IH | n e IH | key _ e IH | fs | e IH | i ].
  - exists "boolean". split; [reflexivity | apply list_elem_of_In; cbn; tauto].
  - exists "integer". split; [reflexivity | apply list_elem_of_In; cbn; tauto].
  - exists "integer". split; [reflexivity | apply list_elem_of_In; cbn; tauto].
  - exists "number". split; [reflexivity | apply list_elem_of_In; cbn; tauto].
  - exists "string". split; [reflexivity | apply list_elem_of_In; cbn; tauto].
  - exists "array". split; [reflexivity | apply list_elem_of_In; cbn; tauto].
  - exists "array". split; [reflexivity | apply list_elem_of_In; cbn; tauto].
  - exists "object". split; [reflexivity | apply list_elem_of_In; cbn; tauto].
  - exists "object". split; [|apply list_elem_of_In; cbn; tauto].
    cbn [getTypeSchema].
    destruct (fold_left (fieldStep "doc" getTypeSchema) fs ([], ∅)). reflexivity.
  - rewrite getTypeSchema_pointer. exact IH.
  - exists "string". split; [reflexivity | apply list_elem_of_In; cbn; tauto].
Qed.

(** X17.  A pointer type is described exactly as its element type: the
    branch of [getTypeSchema] that would add [null] to an enumeration is
    never taken, because no schema it builds has the key ["enum"]. *)
Theorem getTypeSchema_pointer_adds_nothing (elem : gotype) :
  getTypeSchema (TPtr elem) = getTypeSchema elem
  /\ getTypeSchema elem !! "enum" = None
  /\ getTypeSchema (TPtr (TPtr elem)) = getTypeSchema elem.
Proof.
  split; [apply getTypeSchema_pointer|]. split; [apply getTypeSchema_no_enum|].
  rewrite !getTypeSchema_pointer. reflexivity.
Qed.

(** X18.  The schema of a function is that of its first parameter after
    the context alone: the context, the parameters that follow, and the
    body do not change it (while [Execute] binds every parameter). *)
Theorem generateSchemaFromFunction_first_parameter_only
  (paramType : gotype) (rest : list gotype)
  (call call' : list value -> list (gotype * value)) :
  paramType <> TInterface IContext ->
  generateSchemaFromFunction
    {| In := TInterface IContext :: paramType :: rest; Func_Call := call |}
  = generateSchemaFromFunction {| In := [paramType]; Func_Call := call' |}
  /\ generateSchemaFromFunction {| In := paramType :: rest; Func_Call := call |}
     = generateSchemaFromFunction {| In := [paramType]; Func_Call := call' |}.
Proof.
  intros Hctx.
  assert (Hno : forall l c, hasContext {| In := paramType :: l; Func_Call := c |} = false).
  { intros l c. unfold hasContext. cbn [In].
    destruct paramType as [ | | | | | | | | | | [] ]; try reflexivity.
    contradiction. }
  unfold generateSchemaFromFunction. rewrite !Hno. cbn [hasContext In tail].
  split; reflexivity.
Qed.

(** X19.  For a struct parameter the schema and the binder agree on the
    keys, up to one case: every key of [properties] is the wire-name of an
    exported field, which [Execute] binds from that key; and every
    exported field is a key of [properties], unless its tag names it
    ["-"], in which case the schema hides it but [Execute] still binds it
    from the key ["-"]. *)
Theorem schema_keys_are_bound_keys (fn : Func) (fields : list StructField) :
  boundIns fn = [TStruct fields] ->
  let s := generateSchemaFromFunction fn in
  (forall x : string,
      is_Some (Properties s !! x) ->
      exists field fieldType,
        (field, fieldType) ∈ fields /\ CanSet field = true /\ bindName field = x)
  /\ (forall field fieldType,
         (field, fieldType) ∈ fields ->
         CanSet field = true ->
         is_Some (Properties s !! bindName field)
         \/ (bindName field = "-" /\ Tag_Get (Tag field) "json" <> EmptyString)).
Proof.
  intros Hins s.
  pose proof (fold_fieldStep "mcpdescription" getTypeSchema fields [] ∅) as Hfold.
  cbv zeta in Hfold. destruct Hfold as [_ Hprops].
  assert (Hs : Properties s
               = snd (fold_left (fieldStep "mcpdescription" getTypeSchema)
                        fields ([], ∅))).
  { unfold s, generateSchemaFromFunction. unfold boundIns in Hins. rewrite Hins.
    destruct (fold_left _ fields _). reflexivity. }
  rewrite Hs. split.
  - intros x Hx. apply Hprops in Hx. destruct Hx as [Hempty|Hx].
    + rewrite lookup_empty in Hempty. destruct Hempty; discriminate.
    + destruct Hx as (field & fieldType & Hin & Hsch & Hname).
      exists field, fieldType. split; [exact Hin|]. split; [|exact Hname].
      unfold inSchema in Hsch. apply andb_true_iff in Hsch. apply Hsch.
  - intros field fieldType Hin Hset.
    destruct (inSchema field) eqn:Hsch.
    + left. apply Hprops. right. exists field, fieldType. auto.
    + right. unfold inSchema in Hsch. unfold CanSet in Hset. rewrite Hset in Hsch.
      cbn [andb] in Hsch. apply negb_false_iff, andb_true_iff in Hsch.
      destruct Hsch as [Htag Hname].
      apply String.eqb_eq in Hname. split; [exact Hname|].
      intros Hempty. rewrite Hempty in Htag. discriminate.
Qed.

(** X20.  The schema of a nested struct type keeps the invariant of the
    top-level schema: it has a [required] list and a [properties] object,
    and every name in [required] is a key of [properties]. *)
Theorem getTypeSchema_struct_required_in_properties (fields : list StructField) :
  exists (required : list string) (properties : gmap string jsv),
    getTypeSchema (TStruct fields) !! "required" = Some (JStrings required)
    /\ getTypeSchema (TStruct fields) !! "properties" = Some (JObject properties)
    /\ forall x : string, x ∈ required -> is_Some (properties !! x).
Proof.
  destruct (getTypeSchema_struct fields) as (properties & _ & Hreq & Hprops & Hkeys).
  eexists _, properties. split; [exact Hreq|]. split; [exact Hprops|].
  intros x Hx. apply Hkeys.
  apply list_elem_of_In, in_map_iff in Hx. destruct Hx as ([field fieldType] & Hname & Hf).
  apply filter_In in Hf. destruct Hf as [Hf Hreqd].
  unfold isRequiredField in Hreqd. cbn [fst] in *.
  apply andb_true_iff in Hreqd. destruct Hreqd as [Hin _].
  exists field, fieldType. rewrite list_elem_of_In. auto.
Qed.

Lemma generateSchemaFromFunction_first_parameter_only_witness :
  generateSchemaFromFunction
    {| In := TInterface IContext :: TInt Int :: [TString]; Func_Call := echo |}
  = generateSchemaFromFunction {| In := [TInt Int]; Func_Call := refuse |}.
Proof.
  refine (proj1 (generateSchemaFromFunction_first_parameter_only (TInt Int) [TString]
                   echo refuse _)).
  discriminate.
Defined.

Lemma schema_keys_are_bound_keys_witness :
  is_Some (Properties (generateSchemaFromFunction (ctxFunc (TStruct idNote) echo))
             !! "note")
  \/ ("note" = "-" /\ "note,omitempty" <> EmptyString).
Proof.
  refine (proj2 (schema_keys_are_bound_keys (ctxFunc (TStruct idNote) echo) idNote
                   eq_refl)
            {| Name := "Note"; PkgPath := EmptyString;
               Tag := [("json", "note,omitempty")] |} TString _ eq_refl).
  apply list_elem_of_further, list_elem_of_here.
Defined.

(** ** A call from text *)

Section TextCall.

Context `{!GoStd}.

(** X21.  A function of one parameter whose type is bool, a signed
    integer type or string can be called with the [%v] rendering of the
    argument: when the input map holds that text under a single key that
    is not the empty string, [Execute] calls the function once, with the
    argument itself.  Under the empty string as the key the text is not
    read: the function is called with the zero value of the parameter's
    type. *)
Theorem Execute_text_argument (rangeFirst : nat -> string) (t : Tool)
  (paramType : gotype) (v : value) (key : string) :
  boundIns (function t) = [paramType] ->
  rendersBack v paramType ->
  rangeFirst (if hasContext (function t) then 1%nat else 0%nat) = key ->
  (key <> EmptyString ->
   Execute rangeFirst t {[ key := VString (Sprint v) ]}
   = {| calls := [[v]]; ended := returnValues (Func_Call (function t) [v]) |})
  /\ (key = EmptyString ->
      Execute rangeFirst t {[ key := VString (Sprint v) ]}
      = {| calls := [[Zero paramType]];
           ended := returnValues (Func_Call (function t) [Zero paramType]) |}).
Proof.
  intros Hins Hv Hfirst.
  assert (Hshape : singleShape paramType = true).
  { destruct v; destruct paramType; cbn in Hv; try contradiction; reflexivity. }
  split.
  - intros Hkey.
    assert (Hconv : convertToType (VString (Sprint v)) paramType = Ok v).
    { destruct convertToType_Sprint_roundtrip as (Hb & Hi & Hs).
      destruct v; destruct paramType; cbn in Hv; try contradiction.
      - apply Hb.
      - destruct Hv as [<- Hrange]. apply Hi, Hrange.
      - apply Hs. }
    assert (Hfits : firstUnassignable [paramType] [v] = None).
    { destruct v; destruct paramType; cbn in Hv; try contradiction.
      - reflexivity.
      - destruct Hv as [<- _]. cbn. destruct k; reflexivity.
      - reflexivity. }
    assert (Hbind : Bind rangeFirst (function t) {[ key := VString (Sprint v) ]}
                    = Ok [Some v]).
    { rewrite (Bind_single _ _ _ _ Hins Hshape), Hfirst. unfold bindParam.
      rewrite (lookup_Some_size_pos _ key (VString (Sprint v)))
        by apply lookup_singleton_eq.
      destruct (String.eqb_spec key EmptyString) as [?|_]; [contradiction|].
      rewrite lookup_singleton_eq, Hconv.
      destruct v; cbn in Hv; try contradiction; reflexivity. }
    unfold Execute. rewrite Hbind, Hins. unfold checkArgs. cbn [validArgs].
    rewrite Hfits. reflexivity.
  - intros Hkey.
    assert (Hfits : firstUnassignable [paramType] [Zero paramType] = None).
    { destruct v; destruct paramType; cbn in Hv; try contradiction.
      - reflexivity.
      - cbn. destruct k0; reflexivity.
      - reflexivity. }
    assert (Hbind : Bind rangeFirst (function t) {[ key := VString (Sprint v) ]}
                    = Ok [Some (Zero paramType)]).
    { rewrite (Bind_single _ _ _ _ Hins Hshape), Hfirst, Hkey. unfold bindParam.
      destruct (0 <? size _)%nat; reflexivity. }
    unfold Execute. rewrite Hbind, Hins. unfold checkArgs. cbn [validArgs].
    rewrite Hfits. reflexivity.
Qed.

End TextCall.

Lemma Execute_text_argument_witness :
  @Execute inertStd (fun _ => "n")
    (NewFunctionTool "echo" "echo" (ctxFunc (TInt Int8) echo))
    {[ "n" := VString (@Sprint inertStd (VInt Int8 (-128))) ]}
  = {| calls := [[VInt Int8 (-128)]];
       ended := returnValues (echo [VInt Int8 (-128)]) |}.
Proof.
  refine (proj1 (@Execute_text_argument inertStd (fun _ => "n")
                   (NewFunctionTool "echo" "echo" (ctxFunc (TInt Int8) echo))
                   (TInt Int8) (VInt Int8 (-128)) "n" eq_refl _ eq_refl) _).
  - split; [reflexivity | unfold inIntRange; cbn; lia].
  - discriminate.
Defined.

(** * The generator *)

(** ** Induction over a schema *)

Lemma Schema_nested_ind (P : ogen.Schema -> Prop) :
  (forall desc summ extensions properties items allOf oneOf anyOf,
      Forall (fun prop : string * option ogen.Schema => onPointer P (snd prop))
        properties ->
      match items with
      | None => True
      | Some (item, its) => onPointer P item /\ Forall (onPointer P) its
      end ->
      Forall (onPointer P) allOf ->
      Forall (onPointer P) oneOf ->
      Forall (onPointer P) anyOf ->
      P (ogen.mkSchema desc summ extensions properties items allOf oneOf anyOf)) ->
  forall schema : ogen.Schema, P schema.
Proof.
  intros step. fix IH 1.
  intros [desc summ extensions properties items allOf oneOf anyOf].
  apply step.
  - induction properties as [|[name [ps|]] l IHl].
    + apply Forall_nil_2.
    + apply Forall_cons_2; [exact (IH ps) | exact IHl].
    + apply Forall_cons_2; [exact I | exact IHl].
  - destruct items as [[item its]|]; [|exact I]. split.
    + destruct item as [i|]; [exact (IH i) | exact I].
    + induction its as [|[x|] l IHl].
      * apply Forall_nil_2.
      * apply Forall_cons_2; [exact (IH x) | exact IHl].
      * apply Forall_cons_2; [exact I | exact IHl].
  - induction allOf as [|[x|] l IHl].
    + apply Forall_nil_2.
    + apply Forall_cons_2; [exact (IH x) | exact IHl].
    + apply Forall_cons_2; [exact I | exact IHl].
  - induction oneOf as [|[x|] l IHl].
    + apply Forall_nil_2.
    + apply Forall_cons_2; [exact (IH x) | exact IHl].
    + apply Forall_cons_2; [exact I | exact IHl].
  - induction anyOf as [|[x|] l IHl].
    + apply Forall_nil_2.
    + apply Forall_cons_2; [exact (IH x) | exact IHl].
    + apply Forall_cons_2; [exact I | exact IHl].
Qed.

Lemma setSchemaRecursive_at_eq desc summ extensions properties items allOf oneOf
  anyOf (description : string) :
  setSchemaRecursive_at
    (ogen.mkSchema desc summ extensions properties items allOf oneOf anyOf)
    description
  = (properties' ← mapM setProperty properties;
     items' ← setItems items;
     allOf' ← mapM setMember allOf;
     oneOf' ← mapM setMember oneOf;
     anyOf' ← mapM setMember anyOf;
     Some (ogen.mkSchema desc summ (tagged description extensions) properties'
             items' allOf' oneOf' anyOf')).
Proof. destruct items as [[item its]|]; reflexivity. Qed.

(** ** Lists of parts *)

Lemma mapM_is_Some_forallb {A B : Type} (f : A -> option B) (g : A -> bool)
  (l : list A) :
  Forall (fun x => is_Some (f x) <-> g x = true) l ->
  is_Some (mapM f l) <-> forallb g l = true.
Proof.
  intros Hl. rewrite mapM_is_Some.
  induction Hl as [|x l Hx _ IH]; cbn.
  - split; [reflexivity | intros _; apply Forall_nil_2].
  - rewrite Forall_cons, andb_true_iff, <- IH, <- Hx. reflexivity.
Qed.

Lemma mapM_Some_map {A C : Type} (f : A -> option A) (h : A -> C) (l l' : list A) :
  Forall (fun x => forall y, f x = Some y -> h y = h x) l ->
  mapM f l = Some l' ->
  map h l' = map h l.
Proof.
  intros Hl Hm. apply mapM_Some in Hm.
  induction Hm as [|x y l l' Hxy _ IH]; [reflexivity|].
  apply Forall_cons in Hl. destruct Hl as [Hx Hl].
  cbn. rewrite (Hx _ Hxy), (IH Hl). reflexivity.
Qed.

Lemma mapM_Some_again {A : Type} (f : A -> option A) (l l' : list A) :
  Forall (fun x => forall y, f x = Some y -> f y = Some y) l ->
  mapM f l = Some l' ->
  mapM f l' = Some l'.
Proof.
  intros Hl Hm. apply mapM_Some in Hm. apply mapM_Some.
  induction Hm as [|x y l l' Hxy _ IH]; [apply Forall2_nil_2|].
  apply Forall_cons in Hl. destruct Hl as [Hx Hl].
  apply Forall2_cons_2; [exact (Hx _ Hxy) | exact (IH Hl)].
Qed.

Lemma is_Some_bind_and {A B : Type} (mx : option A) (f : A -> option B) (b c : bool) :
  (is_Some mx <-> b = true) ->
  (forall x, is_Some (f x) <-> c = true) ->
  is_Some (mx ≫= f) <-> b && c = true.
Proof.
  intros Hb Hc. destruct mx as [x|]; cbn.
  - rewrite Hc. destruct b; cbn; [reflexivity|].
    destruct Hb as [Hb _]. specialize (Hb (ltac:(eexists; reflexivity))). discriminate.
  - destruct b; cbn.
    + destruct Hb as [_ Hb]. destruct (Hb eq_refl) as [? ?]. discriminate.
    + split; [intros [? ?]; discriminate | discriminate].
Qed.

(** ** What [setSchemaRecursive] does to one schema *)

Lemma tagged_empty (extensions : gmap string ogen.yamlNode) :
  tagged EmptyString extensions = extensions.
Proof. reflexivity. Qed.

Lemma tagged_tagged (description : string) (extensions : gmap string ogen.yamlNode) :
  tagged description (tagged description extensions) = tagged description extensions.
Proof.
  unfold tagged. destruct (String.eqb description EmptyString); [reflexivity|].
  apply insert_insert_eq.
Qed.

Lemma delete_tagged (description : string) (extensions : gmap string ogen.yamlNode) :
  delete "x-oapi-codegen-extra-tags" (tagged description extensions)
  = delete "x-oapi-codegen-extra-tags" extensions.
Proof.
  unfold tagged. destruct (String.eqb description EmptyString); [reflexivity|].
  apply delete_insert_eq.
Qed.

(** The call keeps the description and the summary, and writes the
    extension of the schema it is called on. *)
Lemma setSchemaRecursive_at_root (schema schema' : ogen.Schema) (description : string) :
  setSchemaRecursive_at schema description = Some schema' ->
  ogen.Description schema' = ogen.Description schema
  /\ ogen.Summary schema' = ogen.Summary schema
  /\ ogen.Extensions schema' = tagged description (ogen.Extensions schema).
Proof.
  destruct schema as [desc summ extensions properties items allOf oneOf anyOf].
  rewrite setSchemaRecursive_at_eq. intros Hset.
  apply bind_Some in Hset as (properties' & _ & Hset).
  apply bind_Some in Hset as (items' & _ & Hset).
  apply bind_Some in Hset as (allOf' & _ & Hset).
  apply bind_Some in Hset as (oneOf' & _ & Hset).
  apply bind_Some in Hset as (anyOf' & _ & Hset).
  injection Hset as <-. auto.
Qed.

Lemma setSchemaRecursive_at_is_Some :
  forall (schema : ogen.Schema) (description : string),
    is_Some (setSchemaRecursive_at schema description) <-> noNilEntry schema = true.
Proof.
  intros schema.
  induction schema as [desc summ extensions properties items allOf oneOf anyOf
                         Hprops Hitems HallOf HoneOf HanyOf]
    using Schema_nested_ind.
  intros description. rewrite setSchemaRecursive_at_eq.
  assert (Hentry : forall (d : ogen.Schema -> string) (l : list (option ogen.Schema)),
             Forall (onPointer (fun s => forall description,
                                    is_Some (setSchemaRecursive_at s description)
                                    <-> noNilEntry s = true)) l ->
             is_Some (mapM (fun s : option ogen.Schema =>
                              match s with
                              | Some x => x' ← setSchemaRecursive_at x (d x); Some (Some x')
                              | None => None
                              end) l)
             <-> forallb (fun s : option ogen.Schema =>
                            match s with Some x => noNilEntry x | None => false end) l
                 = true).
  { intros d l Hl. apply mapM_is_Some_forallb.
    eapply Forall_impl; [exact Hl|]. intros [x|] Hx; cbn in *.
    - rewrite <- (Hx (d x)).
      destruct (setSchemaRecursive_at x (d x)); cbn;
        split; intros [? ?]; try discriminate; eexists; reflexivity.
    - split; [intros [? ?]; discriminate | discriminate]. }
  cbn [noNilEntry]. rewrite <- !andb_assoc.
  apply is_Some_bind_and.
  { apply mapM_is_Some_forallb.
    eapply Forall_impl; [exact Hprops|]. intros [name [ps|]] Hps; cbn in *.
    - rewrite <- (Hps (propDesc name ps)).
      destruct (setSchemaRecursive_at ps (propDesc name ps)); cbn;
        split; intros [? ?]; try discriminate; eexists; reflexivity.
    - split; [reflexivity | intros _; eexists; reflexivity]. }
  intros properties'. apply is_Some_bind_and.
  { destruct items as [[item its]|]; cbn [setItems].
    - destruct Hitems as [Hitem Hits].
      apply is_Some_bind_and.
      + destruct item as [i|]; cbn in *.
        * rewrite <- (Hitem EmptyString).
          destruct (setSchemaRecursive_at i EmptyString); cbn;
            split; intros [? ?]; try discriminate; eexists; reflexivity.
        * split; [reflexivity | intros _; eexists; reflexivity].
      + intros item'.
        rewrite <- (Hentry (fun _ => EmptyString) its Hits).
        unfold setEntry.
        destruct (mapM _ its); cbn;
          split; intros [? ?]; try discriminate; eexists; reflexivity.
    - split; [reflexivity | intros _; eexists; reflexivity]. }
  intros items'. apply is_Some_bind_and; [exact (Hentry ogen.Description allOf HallOf)|].
  intros allOf'. apply is_Some_bind_and; [exact (Hentry ogen.Description oneOf HoneOf)|].
  intros oneOf'. rewrite <- (Hentry ogen.Description anyOf HanyOf). unfold setMember.
  destruct (mapM _ anyOf); cbn;
    split; intros [? ?]; try discriminate; eexists; reflexivity.
Qed.

(** X22.  [setSchemaRecursive] returns exactly when it is called on a
    pointer that is not nil and no entry of an [Items.Items], [AllOf],
    [OneOf] or [AnyOf] list below it is nil; otherwise it panics on a nil
    pointer dereference.  A property or an [Items.Item] without a schema
    does no harm. *)
Theorem setSchemaRecursive_returns_iff (schema : option ogen.Schema)
  (description : string) :
  is_Some (setSchemaRecursive schema description)
  <-> exists s : ogen.Schema, schema = Some s /\ noNilEntry s = true.
Proof.
  destruct schema as [s|]; cbn [setSchemaRecursive].
  - rewrite setSchemaRecursive_at_is_Some. split.
    + intros Hs. exists s. auto.
    + intros (s0 & Heq & Hs). injection Heq as ->. exact Hs.
  - split; [intros [? ?]; discriminate | intros (s & ? & _); discriminate].
Qed.

Lemma setMember_Some_inv (d : option ogen.Schema) (y : option ogen.Schema) :
  setMember d = Some y ->
  exists x x', d = Some x /\ y = Some x'
               /\ setSchemaRecursive_at x (ogen.Description x) = Some x'.
Proof.
  destruct d as [x|]; cbn; [|discriminate]. intros Hy.
  apply bind_Some in Hy as (x' & Hx & Hy). injection Hy as <-. eauto.
Qed.

Lemma setEntry_Some_inv (d : option ogen.Schema) (y : option ogen.Schema) :
  setEntry d = Some y ->
  exists x x', d = Some x /\ y = Some x'
               /\ setSchemaRecursive_at x EmptyString = Some x'.
Proof.
  destruct d as [x|]; cbn; [|discriminate]. intros Hy.
  apply bind_Some in Hy as (x' & Hx & Hy). injection Hy as <-. eauto.
Qed.

Lemma setProperty_Some_inv (prop prop' : string * option ogen.Schema) :
  setProperty prop = Some prop' ->
  fst prop' = fst prop
  /\ match snd prop, snd prop' with
     | Some ps, Some ps' =>
         setSchemaRecursive_at ps (propDesc (fst prop) ps) = Some ps'
     | None, None => True
     | _, _ => False
     end.
Proof.
  destruct prop as [name [ps|]]; cbn; intros Hy.
  - apply bind_Some in Hy as (ps' & Hps & Hy). injection Hy as <-. cbn. auto.
  - injection Hy as <-. cbn. auto.
Qed.

(** X23.  [setSchemaRecursive] writes nothing but the extension
    [x-oapi-codegen-extra-tags]: with that key removed at every depth, the
    schema after the call is the schema before it. *)
Theorem setSchemaRecursive_writes_only_the_tag :
  forall (schema : ogen.Schema) (description : string) (schema' : ogen.Schema),
    setSchemaRecursive (Some schema) description = Some schema' ->
    withoutTag schema' = withoutTag schema.
Proof.
  cbn [setSchemaRecursive].
  intros schema.
  induction schema as [desc summ extensions properties items allOf oneOf anyOf
                         Hprops Hitems HallOf HoneOf HanyOf]
    using Schema_nested_ind.
  intros description schema'. rewrite setSchemaRecursive_at_eq. intros Hset.
  apply bind_Some in Hset as (properties' & Hp & Hset).
  apply bind_Some in Hset as (items' & Hi & Hset).
  apply bind_Some in Hset as (allOf' & Ha & Hset).
  apply bind_Some in Hset as (oneOf' & Ho & Hset).
  apply bind_Some in Hset as (anyOf' & Hn & Hset).
  injection Hset as <-.
  assert (Hlist : forall (f : option ogen.Schema -> option (option ogen.Schema))
                    (l l' : list (option ogen.Schema)),
             (forall d y, f d = Some y ->
                          exists x x' t, d = Some x /\ y = Some x'
                                         /\ setSchemaRecursive_at x t = Some x') ->
             Forall (onPointer (fun s => forall description s',
                                    setSchemaRecursive_at s description = Some s' ->
                                    withoutTag s' = withoutTag s)) l ->
             mapM f l = Some l' ->
             map (fun s : option ogen.Schema =>
                    match s with Some x => Some (withoutTag x) | None => None end) l'
             = map (fun s : option ogen.Schema =>
                      match s with Some x => Some (withoutTag x) | None => None end) l).
  { intros f l l' Hf Hl Hm. apply (mapM_Some_map f _ l l'); [|exact Hm].
    eapply Forall_impl; [exact Hl|]. intros d Hd y Hy.
    destruct (Hf d y Hy) as (x & x' & t & -> & -> & Hx).
    cbn in Hd. rewrite (Hd _ _ Hx). reflexivity. }
  assert (Hmember : forall d y, setMember d = Some y ->
                                exists x x' t, d = Some x /\ y = Some x'
                                               /\ setSchemaRecursive_at x t = Some x').
  { intros d y Hy. destruct (setMember_Some_inv d y Hy) as (x & x' & ? & ? & ?).
    eauto 10. }
  assert (Hent : forall d y, setEntry d = Some y ->
                             exists x x' t, d = Some x /\ y = Some x'
                                            /\ setSchemaRecursive_at x t = Some x').
  { intros d y Hy. destruct (setEntry_Some_inv d y Hy) as (x & x' & ? & ? & ?).
    eauto 10. }
  cbn [withoutTag]. rewrite delete_tagged.
  rewrite (Hlist setMember allOf allOf' Hmember HallOf Ha).
  rewrite (Hlist setMember oneOf oneOf' Hmember HoneOf Ho).
  rewrite (Hlist setMember anyOf anyOf' Hmember HanyOf Hn).
  f_equal.
  - apply (mapM_Some_map setProperty _ properties properties'); [|exact Hp].
    eapply Forall_impl; [exact Hprops|]. intros [name [ps|]] Hps [name' ps'] Hy.
    + apply setProperty_Some_inv in Hy. cbn in Hy. destruct Hy as [-> Hy].
      destruct ps' as [ps'|]; [|contradiction].
      cbn in Hps. rewrite (Hps _ _ Hy). reflexivity.
    + apply setProperty_Some_inv in Hy. cbn in Hy. destruct Hy as [-> Hy].
      destruct ps' as [ps'|]; [contradiction|]. reflexivity.
  - destruct items as [[item its]|]; cbn [setItems] in Hi.
    + destruct Hitems as [Hitem Hits].
      apply bind_Some in Hi as (item' & Hitem' & Hi).
      apply bind_Some in Hi as (its' & Hits' & Hi).
      injection Hi as <-.
      rewrite (Hlist setEntry its its' Hent Hits Hits').
      destruct item as [i|].
      * apply bind_Some in Hitem' as (i' & Hi' & Hitem').
        injection Hitem' as <-. cbn in Hitem. rewrite (Hitem _ _ Hi'). reflexivity.
      * injection Hitem' as <-. reflexivity.
    + injection Hi as <-. reflexivity.
Qed.

(** X24.  [setSchemaRecursive] is idempotent: a second call with the
    same description on the schema that the first call left returns it
    unchanged. *)
Theorem setSchemaRecursive_idempotent :
  forall (schema : ogen.Schema) (description : string) (schema' : ogen.Schema),
    setSchemaRecursive (Some schema) description = Some schema' ->
    setSchemaRecursive (Some schema') description = Some schema'.
Proof.
  cbn [setSchemaRecursive].
  intros schema.
  induction schema as [desc summ extensions properties items allOf oneOf anyOf
                         Hprops Hitems HallOf HoneOf HanyOf]
    using Schema_nested_ind.
  intros description schema'. rewrite setSchemaRecursive_at_eq. intros Hset.
  apply bind_Some in Hset as (properties' & Hp & Hset).
  apply bind_Some in Hset as (items' & Hi & Hset).
  apply bind_Some in Hset as (allOf' & Ha & Hset).
  apply bind_Some in Hset as (oneOf' & Ho & Hset).
  apply bind_Some in Hset as (anyOf' & Hn & Hset).
  injection Hset as <-.
  assert (Hmembers : forall l l' : list (option ogen.Schema),
             Forall (onPointer (fun s => forall description s',
                                    setSchemaRecursive_at s description = Some s' ->
                                    setSchemaRecursive_at s' description = Some s')) l ->
             mapM setMember l = Some l' -> mapM setMember l' = Some l').
  { intros l l' Hl Hm. apply (mapM_Some_again setMember l l'); [|exact Hm].
    eapply Forall_impl; [exact Hl|]. intros d Hd y Hy.
    destruct (setMember_Some_inv d y Hy) as (x & x' & -> & -> & Hx).
    cbn in Hd. cbn.
    destruct (setSchemaRecursive_at_root _ _ _ Hx) as (-> & _ & _).
    rewrite (Hd _ _ Hx). reflexivity. }
  rewrite setSchemaRecursive_at_eq.
  assert (Hp' : mapM setProperty properties' = Some properties').
  { apply (mapM_Some_again setProperty properties properties'); [|exact Hp].
    eapply Forall_impl; [exact Hprops|]. intros [name [ps|]] Hps [name' ps'] Hy.
    - apply setProperty_Some_inv in Hy. cbn in Hy. destruct Hy as [-> Hy].
      destruct ps' as [ps'|]; [|contradiction]. cbn.
      assert (Hd : propDesc name ps' = propDesc name ps).
      { unfold propDesc.
        destruct (setSchemaRecursive_at_root _ _ _ Hy) as (-> & -> & _). reflexivity. }
      rewrite Hd. cbn in Hps. rewrite (Hps _ _ Hy). reflexivity.
    - apply setProperty_Some_inv in Hy. cbn in Hy. destruct Hy as [-> Hy].
      destruct ps' as [ps'|]; [contradiction|]. reflexivity. }
  assert (Hi' : setItems items' = Some items').
  { destruct items as [[item its]|]; cbn [setItems] in Hi.
    - destruct Hitems as [Hitem Hits].
      apply bind_Some in Hi as (item' & Hitem' & Hi).
      apply bind_Some in Hi as (its' & Hits' & Hi).
      injection Hi as <-. cbn [setItems].
      assert (Hagain : mapM setEntry its' = Some its').
      { apply (mapM_Some_again setEntry its its'); [|exact Hits'].
        eapply Forall_impl; [exact Hits|]. intros d Hd y Hy.
        destruct (setEntry_Some_inv d y Hy) as (x & x' & -> & -> & Hx).
        cbn in Hd. cbn. rewrite (Hd _ _ Hx). reflexivity. }
      rewrite Hagain.
      destruct item as [i|].
      + apply bind_Some in Hitem' as (i' & Hi' & Hitem').
        injection Hitem' as <-. cbn in Hitem. rewrite (Hitem _ _ Hi'). reflexivity.
      + injection Hitem' as <-. reflexivity.
    - injection Hi as <-. reflexivity. }
  rewrite Hp', Hi', (Hmembers _ _ HallOf Ha), (Hmembers _ _ HoneOf Ho),
    (Hmembers _ _ HanyOf Hn).
  cbn. rewrite tagged_tagged. reflexivity.
Qed.

Lemma tagged_lookup (description : string) (extensions : gmap string ogen.yamlNode) :
  description <> EmptyString ->
  tagged description extensions !! "x-oapi-codegen-extra-tags"
  = Some (descriptionTag description).
Proof.
  intros Hd. unfold tagged.
  destruct (String.eqb_spec description EmptyString) as [?|_]; [contradiction|].
  apply lookup_insert_eq.
Qed.

(** X25.  Where the tags go.  The schema that [setSchemaRecursive] is
    called on is tagged with the description it is called with, and left
    as it was when that description is empty.  Each property keeps its
    name and is tagged with its own description, else its summary, else
    its name; only a property with none of the three is left untagged. *)
Theorem setSchemaRecursive_tags_properties (schema schema' : ogen.Schema)
  (description : string) :
  setSchemaRecursive (Some schema) description = Some schema' ->
  (description <> EmptyString ->
   ogen.Extensions schema' !! "x-oapi-codegen-extra-tags"
   = Some (descriptionTag description))
  /\ (description = EmptyString ->
      ogen.Extensions schema' = ogen.Extensions schema)
  /\ Forall2
       (fun prop prop' : string * option ogen.Schema =>
          fst prop' = fst prop
          /\ match snd prop, snd prop' with
             | Some ps, Some ps' =>
                 ogen.Extensions ps' !! "x-oapi-codegen-extra-tags"
                 = Some (descriptionTag (propDesc (fst prop) ps))
                 \/ (ogen.Description ps = EmptyString
                     /\ ogen.Summary ps = EmptyString
                     /\ fst prop = EmptyString
                     /\ ogen.Extensions ps' = ogen.Extensions ps)
             | None, None => True
             | _, _ => False
             end)
       (ogen.Properties schema) (ogen.Properties schema').
Proof.
  cbn [setSchemaRecursive]. intros Hset.
  destruct (setSchemaRecursive_at_root _ _ _ Hset) as (_ & _ & Hext).
  split; [|split].
  - intros Hd. rewrite Hext. apply tagged_lookup, Hd.
  - intros ->. rewrite Hext. reflexivity.
  - destruct schema as [desc summ extensions properties items allOf oneOf anyOf].
    rewrite setSchemaRecursive_at_eq in Hset.
    apply bind_Some in Hset as (properties' & Hp & Hset).
    apply bind_Some in Hset as (items' & _ & Hset).
    apply bind_Some in Hset as (allOf' & _ & Hset).
    apply bind_Some in Hset as (oneOf' & _ & Hset).
    apply bind_Some in Hset as (anyOf' & _ & Hset).
    injection Hset as <-. cbn [ogen.Properties].
    apply mapM_Some in Hp. eapply Forall2_impl; [exact Hp|].
    intros prop prop' Hprop. apply setProperty_Some_inv in Hprop.
    destruct Hprop as [Hname Hprop]. split; [exact Hname|].
    destruct (snd prop) as [ps|], (snd prop') as [ps'|]; try exact Hprop.
    destruct (setSchemaRecursive_at_root _ _ _ Hprop) as (_ & _ & Hps).
    rewrite Hps.
    destruct (String.eqb_spec (propDesc (fst prop) ps) EmptyString) as [Hempty|Hne].
    + right. rewrite Hempty. unfold propDesc in Hempty.
      destruct (String.eqb_spec (ogen.Description ps) EmptyString) as [Hdesc|Hdesc].
      * destruct (String.eqb_spec (ogen.Summary ps) EmptyString) as [Hsumm|Hsumm].
        -- auto.
        -- contradiction.
      * destruct (String.eqb_spec (ogen.Description ps) EmptyString); contradiction.
    + left. apply tagged_lookup, Hne.
Qed.

(** X26.  The schemas of the items of an array are never tagged by the
    call on the array: [Items.Item] and every entry of [Items.Items] come
    back with the extensions they had, whatever their description is. *)
Theorem setSchemaRecursive_leaves_items_untagged (schema schema' : ogen.Schema)
  (description : string) :
  setSchemaRecursive (Some schema) description = Some schema' ->
  match ogen.Items schema, ogen.Items schema' with
  | Some (item, its), Some (item', its') =>
      sameExtensions item item' /\ Forall2 sameExtensions its its'
  | None, None => True
  | _, _ => False
  end.
Proof.
  cbn [setSchemaRecursive]. intros Hset.
  destruct schema as [desc summ extensions properties items allOf oneOf anyOf].
  rewrite setSchemaRecursive_at_eq in Hset.
  apply bind_Some in Hset as (properties' & _ & Hset).
  apply bind_Some in Hset as (items' & Hi & Hset).
  apply bind_Some in Hset as (allOf' & _ & Hset).
  apply bind_Some in Hset as (oneOf' & _ & Hset).
  apply bind_Some in Hset as (anyOf' & _ & Hset).
  injection Hset as <-. cbn [ogen.Items].
  destruct items as [[item its]|]; cbn [setItems] in Hi.
  - apply bind_Some in Hi as (item' & Hitem' & Hi).
    apply bind_Some in Hi as (its' & Hits' & Hi).
    injection Hi as <-. split.
    + destruct item as [i|].
      * apply bind_Some in Hitem' as (i' & Hi' & Hitem').
        injection Hitem' as <-. cbn.
        destruct (setSchemaRecursive_at_root _ _ _ Hi') as (_ & _ & ->).
        reflexivity.
      * injection Hitem' as <-. exact I.
    + apply mapM_Some in Hits'. eapply Forall2_impl; [exact Hits'|].
      intros d y Hy.
      destruct (setEntry_Some_inv d y Hy) as (x & x' & -> & -> & Hx). cbn.
      destruct (setSchemaRecursive_at_root _ _ _ Hx) as (_ & _ & ->).
      reflexivity.
  - injection Hi as <-. exact I.
Qed.

(** X27.  [setParameter] returns exactly when no entry of the list is
    nil and the schema of every described parameter has no nil entry.
    When it returns, a parameter without a description is left as it was,
    down to the properties of its schema, and the schema of a described
    parameter is tagged with the parameter's description. *)
Theorem setParameter_tags_described_parameters
  (parameters : list (option ogen.Param)) :
  (is_Some (setParameter parameters)
   <-> Forall (fun param : option ogen.Param =>
                 exists p, param = Some p
                           /\ (ogen.Param_Description p = EmptyString
                               \/ onPointer (fun s => noNilEntry s = true)
                                    (ogen.Param_Schema p)))
         parameters)
  /\ (forall parameters',
         setParameter parameters = Some parameters' ->
         Forall2
           (fun param param' : option ogen.Param =>
              match param, param' with
              | Some p, Some p' =>
                  ogen.Param_Description p' = ogen.Param_Description p
                  /\ (ogen.Param_Description p = EmptyString -> p' = p)
                  /\ (ogen.Param_Description p <> EmptyString ->
                      match ogen.Param_Schema p, ogen.Param_Schema p' with
                      | Some s, Some s' =>
                          ogen.Extensions s' !! "x-oapi-codegen-extra-tags"
                          = Some (descriptionTag (ogen.Param_Description p))
                      | None, None => True
                      | _, _ => False
                      end)
              | _, _ => False
              end)
           parameters parameters').
Proof.
  split.
  - unfold setParameter. rewrite mapM_is_Some.
    apply Forall_iff. intros [p|]; cbn.
    + destruct p as [d [s|]]; cbn.
      * destruct (String.eqb_spec d EmptyString) as [->|Hd].
        -- split; [intros _; eexists; split; [reflexivity|left; reflexivity]
                  | intros _; eexists; reflexivity].
        -- pose proof (setSchemaRecursive_at_is_Some s d) as Hs.
           destruct (setSchemaRecursive_at s d) as [s'|]; cbn.
           ++ split; [|intros _; eexists; reflexivity].
              intros _. eexists. split; [reflexivity|]. right. cbn.
              apply Hs. eexists; reflexivity.
           ++ split; [intros [? ?]; discriminate|].
              intros (p & Hp & [Hempty|Hok]); injection Hp as <-; cbn in *.
              ** contradiction.
              ** apply Hs in Hok. destruct Hok as [? ?]. discriminate.
      * split; [|intros _; eexists; reflexivity].
        intros _. eexists. split; [reflexivity|]. right. exact I.
    + split; [intros [? ?]; discriminate | intros (p & ? & _); discriminate].
  - intros parameters' Hset. unfold setParameter in Hset.
    apply mapM_Some in Hset. eapply Forall2_impl; [exact Hset|].
    intros [p|] param' Hp; cbn in Hp; [|discriminate].
    destruct p as [d [s|]]; cbn in *.
    + destruct (String.eqb_spec d EmptyString) as [->|Hd].
      * injection Hp as <-. cbn. split; [reflexivity|]. split; [reflexivity|].
        intros Hne. contradiction.
      * apply bind_Some in Hp as (s' & Hs & Hp). injection Hp as <-. cbn.
        split; [reflexivity|]. split; [intros Hempty; contradiction|].
        intros _. destruct (setSchemaRecursive_at_root _ _ _ Hs) as (_ & _ & ->).
        apply tagged_lookup, Hd.
    + injection Hp as <-. cbn. split; [reflexivity|]. split; [reflexivity|].
      intros _. exact I.
Qed.

(** X28.  [setRequestBody] does nothing for a nil body.  For a body, it
    keeps the media keys; a media schema with a description is tagged
    with it, one with a summary only is tagged with the summary, and one
    with neither is left as it was, down to its properties. *)
Theorem setRequestBody_tags_described_media :
  setRequestBody None = Some None
  /\ forall b body',
      setRequestBody (Some b) = Some body' ->
      exists b',
        body' = Some b'
        /\ Forall2
             (fun entry entry' : string * ogen.Media =>
                fst entry' = fst entry
                /\ match ogen.Media_Schema (snd entry),
                         ogen.Media_Schema (snd entry') with
                   | Some s, Some s' =>
                       (ogen.Description s <> EmptyString ->
                        ogen.Extensions s' !! "x-oapi-codegen-extra-tags"
                        = Some (descriptionTag (ogen.Description s)))
                       /\ (ogen.Description s = EmptyString ->
                           ogen.Summary s <> EmptyString ->
                           ogen.Extensions s' !! "x-oapi-codegen-extra-tags"
                           = Some (descriptionTag (ogen.Summary s)))
                       /\ (ogen.Description s = EmptyString ->
                           ogen.Summary s = EmptyString -> s' = s)
                   | None, None => True
                   | _, _ => False
                   end)
             (ogen.Content b) (ogen.Content b').
Proof.
  split; [reflexivity|].
  intros b body' Hset. unfold setRequestBody in Hset.
  apply bind_Some in Hset as (content' & Hc & Hset). injection Hset as <-.
  eexists. split; [reflexivity|]. cbn [ogen.Content].
  apply mapM_Some in Hc. eapply Forall2_impl; [exact Hc|].
  intros [key [[s|]]] entry' He; cbn in He |- *.
  - destruct (String.eqb_spec (ogen.Description s) EmptyString) as [Hd|Hd];
      destruct (String.eqb_spec (ogen.Summary s) EmptyString) as [Hs|Hs];
      cbn in He.
    + injection He as <-. cbn. split; [reflexivity|].
      split; [intros; contradiction|]. split; [intros; contradiction|]. reflexivity.
    + apply bind_Some in He as (s' & Hs' & He). injection He as <-. cbn.
      split; [reflexivity|].
      destruct (setSchemaRecursive_at_root _ _ _ Hs') as (_ & _ & ->).
      split; [intros; contradiction|]. split; [|intros; contradiction].
      intros _ _. apply tagged_lookup, Hs.
    + apply bind_Some in He as (s' & Hs' & He). injection He as <-. cbn.
      split; [reflexivity|].
      destruct (setSchemaRecursive_at_root _ _ _ Hs') as (_ & _ & ->).
      split; [|split; intros; contradiction].
      intros _. apply tagged_lookup, Hd.
    + apply bind_Some in He as (s' & Hs' & He). injection He as <-. cbn.
      split; [reflexivity|].
      destruct (setSchemaRecursive_at_root _ _ _ Hs') as (_ & _ & ->).
      split; [|split; intros; contradiction].
      intros _. apply tagged_lookup, Hd.
  - injection He as <-. cbn. split; [reflexivity | exact I].
Qed.

(** ** [strings.HasPrefix] and [strings.HasSuffix] *)

Lemma append_cons (c : ascii) (s t : string) :
  (String c s ++ t)%string = String c (s ++ t)%string.
Proof. reflexivity. Qed.

Lemma append_empty_l (t : string) : (EmptyString ++ t)%string = t.
Proof. reflexivity. Qed.

Lemma substring_0_0 (s : string) : substring 0 0 s = EmptyString.
Proof. destruct s; reflexivity. Qed.

Lemma substring_0_length (s : string) : substring 0 (String.length s) s = s.
Proof. induction s as [|c s IH]; simpl; [reflexivity | f_equal; exact IH]. Qed.

Lemma substring_0_append (p t : string) :
  substring 0 (String.length p) (p ++ t) = p.
Proof.
  induction p as [|c p IH].
  - rewrite append_empty_l. apply substring_0_0.
  - rewrite append_cons. simpl. f_equal. exact IH.
Qed.

Lemma substring_at_length_append (t x : string) :
  substring (String.length t) (String.length x) (t ++ x) = x.
Proof.
  induction t as [|c t IH].
  - rewrite append_empty_l. apply substring_0_length.
  - rewrite append_cons. simpl. exact IH.
Qed.

Lemma substring_split (n : nat) (s : string) :
  (n <= String.length s)%nat ->
  s = (substring 0 n s ++ substring n (String.length s - n) s)%string.
Proof.
  revert s. induction n as [|n IH]; intros s Hn.
  - rewrite Nat.sub_0_r, substring_0_0, append_empty_l, substring_0_length.
    reflexivity.
  - destruct s as [|c s]; simpl in Hn; [lia|].
    simpl. rewrite append_cons. f_equal. apply IH. lia.
Qed.

Lemma string_length_append (s t : string) :
  String.length (s ++ t) = (String.length s + String.length t)%nat.
Proof.
  induction s as [|c s IH]; [reflexivity|].
  rewrite append_cons. simpl. f_equal. exact IH.
Qed.

Lemma HasPrefix_iff (s prefix : string) :
  strings.HasPrefix s prefix = true <-> exists rest, s = (prefix ++ rest)%string.
Proof.
  unfold strings.HasPrefix. rewrite andb_true_iff, Nat.leb_le, String.eqb_eq. split.
  - intros [Hlen Hsub]. eexists.
    rewrite (substring_split (String.length prefix) s Hlen) at 1.
    rewrite Hsub. reflexivity.
  - intros [rest ->]. rewrite string_length_append, substring_0_append. split; [lia | reflexivity].
Qed.

Lemma HasSuffix_iff (s suffix : string) :
  strings.HasSuffix s suffix = true <-> exists stem, s = (stem ++ suffix)%string.
Proof.
  unfold strings.HasSuffix. rewrite andb_true_iff, Nat.leb_le, String.eqb_eq. split.
  - intros [Hlen Hsub]. eexists.
    rewrite (substring_split (String.length s - String.length suffix) s) at 1 by lia.
    replace (String.length s - (String.length s - String.length suffix))%nat
      with (String.length suffix) by lia.
    rewrite Hsub. reflexivity.
  - intros [stem ->]. rewrite string_length_append.
    replace (String.length stem + String.length suffix - String.length suffix)%nat
      with (String.length stem) by lia.
    rewrite substring_at_length_append. split; [lia | reflexivity].
Qed.

(** ** [cleanDir] *)

Section CleanDirFacts.

Context {World E : Type}.
Variable os_Remove : string -> World -> World * option E.
Variable os_IsNotExist : E -> bool.
Variable filepath_Join : string -> string -> string.

Lemma cleanDir_step_spec (targetDir : string) (run : cleaning World E) (f : DirEntry) :
  let run' := cleanDir_step os_Remove os_IsNotExist filepath_Join targetDir run f in
  if isGenerated f
  then exists removal,
      removals run' = removals run ++ [removal]
      /\ fst removal = filepath_Join targetDir (DirEntry_Name f)
      /\ (rerr run' = None
          <-> rerr run = None /\ removedOrAbsent os_IsNotExist removal = true)
  else run' = run.
Proof.
  unfold cleanDir_step, isGenerated.
  destruct (IsDir f); cbn; [reflexivity|].
  destruct (strings.HasSuffix (DirEntry_Name f) "_gen.go"),
    (strings.HasSuffix (DirEntry_Name f) "_gen_test.go"); cbn; try reflexivity;
    destruct (strings.HasPrefix (DirEntry_Name f) "openapi"),
      (strings.HasPrefix (DirEntry_Name f) "oas"); cbn; try reflexivity;
    destruct (os_Remove (filepath_Join targetDir (DirEntry_Name f)) (world run))
      as [w [e|]]; cbn;
    eexists; (split; [reflexivity|]); (split; [reflexivity|]);
    unfold removedOrAbsent; cbn;
    try destruct (os_IsNotExist e); try destruct (rerr run); cbn;
    intuition discriminate.
Qed.

Lemma cleanDir_fold (targetDir : string) (files : list DirEntry) :
  forall run : cleaning World E,
    let run' :=
      fold_left (cleanDir_step os_Remove os_IsNotExist filepath_Join targetDir)
        files run in
    exists added,
      removals run' = removals run ++ added
      /\ map fst added
         = map (fun f => filepath_Join targetDir (DirEntry_Name f))
             (filter isGenerated files)
      /\ (rerr run' = None
          <-> rerr run = None
              /\ forallb (removedOrAbsent os_IsNotExist) added = true).
Proof.
  induction files as [|f files IH]; intros run; cbn.
  - exists []. rewrite app_nil_r. cbn. intuition.
  - specialize (IH (cleanDir_step os_Remove os_IsNotExist filepath_Join targetDir run f)).
    cbv zeta in IH. destruct IH as (added & Hrem & Hpaths & Herr).
    pose proof (cleanDir_step_spec targetDir run f) as Hstep. cbv zeta in Hstep.
    destruct (isGenerated f).
    + destruct Hstep as (removal & Hone & Hpath & Hnil).
      exists (removal :: added). split; [|split].
      * rewrite Hrem, Hone, <- app_assoc. reflexivity.
      * cbn. rewrite Hpath, Hpaths. reflexivity.
      * rewrite Herr, Hnil. cbn. rewrite andb_true_iff. tauto.
    + rewrite Hstep in *. exists added. auto.
Qed.

(** X29.  [cleanDir] calls [os.Remove] once for each listed entry that
    is a file whose name ends in [_gen.go] or [_gen_test.go] and begins
    with [openapi] or [oas], in the order of the list, on the path under
    [targetDir], and for no other entry; a failed removal does not stop
    the loop.  The error returned is nil exactly when every removal
    succeeded or failed because the file did not exist. *)
Theorem cleanDir_removes_generated_files (targetDir : string)
  (files : list DirEntry) (w : World) :
  let run := cleanDir os_Remove os_IsNotExist filepath_Join targetDir files w in
  map fst (removals run)
  = map (fun f => filepath_Join targetDir (DirEntry_Name f))
      (filter isGenerated files)
  /\ (rerr run = None
      <-> forallb (removedOrAbsent os_IsNotExist) (removals run) = true)
  /\ (forall f : DirEntry,
         isGenerated f = true
         <-> IsDir f = false
             /\ (exists stem, DirEntry_Name f = (stem ++ "_gen.go")%string
                              \/ DirEntry_Name f = (stem ++ "_gen_test.go")%string)
             /\ (exists rest, DirEntry_Name f = ("openapi" ++ rest)%string
                              \/ DirEntry_Name f = ("oas" ++ rest)%string)).
Proof.
  intros run.
  destruct (cleanDir_fold targetDir files {| world := w; removals := []; rerr := None |})
    as (added & Hrem & Hpaths & Herr).
  cbv zeta in Hrem, Herr. fold (cleanDir os_Remove os_IsNotExist filepath_Join targetDir files w) in Hrem, Herr.
  fold run in Hrem, Herr. cbn in Hrem, Herr.
  split; [|split].
  - rewrite Hrem. exact Hpaths.
  - rewrite Hrem, Herr. tauto.
  - intros f. unfold isGenerated.
    rewrite !andb_true_iff, !orb_true_iff, negb_true_iff, !HasSuffix_iff, !HasPrefix_iff.
    split.
    + intros [[Hdir Hsuf] Hpre]. split; [exact Hdir|]. split.
      * destruct Hsuf as [[stem Hs]|[stem Hs]]; exists stem; auto.
      * destruct Hpre as [[rest Hr]|[rest Hr]]; exists rest; auto.
    + intros (Hdir & [stem Hsuf] & [rest Hpre]). split; [split; [exact Hdir|]|].
      * destruct Hsuf as [Hs|Hs]; [left | right]; exists stem; exact Hs.
      * destruct Hpre as [Hr|Hr]; [left | right]; exists rest; exact Hr.
Qed.

End CleanDirFacts.

Lemma setSchemaRecursive_writes_only_the_tag_witness :
  exists schema' : ogen.Schema,
    setSchemaRecursive (Some petSchema) "A pet" = Some schema'
    /\ withoutTag schema' = withoutTag petSchema.
Proof.
  eexists. split; [vm_compute; reflexivity|].
  apply (setSchemaRecursive_writes_only_the_tag petSchema "A pet").
  vm_compute; reflexivity.
Defined.

Lemma setSchemaRecursive_idempotent_witness :
  exists schema' : ogen.Schema,
    setSchemaRecursive (Some petSchema) "A pet" = Some schema'
    /\ setSchemaRecursive (Some schema') "A pet" = Some schema'.
Proof.
  eexists. split; [vm_compute; reflexivity|].
  apply (setSchemaRecursive_idempotent petSchema "A pet").
  vm_compute; reflexivity.
Defined.

Lemma setSchemaRecursive_tags_properties_witness :
  exists schema' : ogen.Schema,
    setSchemaRecursive (Some petSchema) "A pet" = Some schema'
    /\ ogen.Extensions schema' !! "x-oapi-codegen-extra-tags"
       = Some (descriptionTag "A pet").
Proof.
  eexists. split; [vm_compute; reflexivity|].
  refine (proj1 (setSchemaRecursive_tags_properties petSchema _ "A pet" _) _).
  - vm_compute; reflexivity.
  - discriminate.
Defined.

Lemma setSchemaRecursive_leaves_items_untagged_witness :
  exists schema' : ogen.Schema,
    setSchemaRecursive (Some tagList) "Tags" = Some schema'
    /\ match ogen.Items tagList, ogen.Items schema' with
       | Some (item, its), Some (item', its') =>
           sameExtensions item item' /\ Forall2 sameExtensions its its'
       | None, None => True
       | _, _ => False
       end.
Proof.
  eexists. split; [vm_compute; reflexivity|].
  apply (setSchemaRecursive_leaves_items_untagged tagList _ "Tags").
  vm_compute; reflexivity.
Defined.

Lemma setParameter_tags_described_parameters_witness :
  is_Some (setParameter
             [Some {| ogen.Param_Description := "The id";
                      ogen.Param_Schema := Some petSchema |};
              Some {| ogen.Param_Description := EmptyString;
                      ogen.Param_Schema := None |}]).
Proof.
  refine (proj2 (proj1 (setParameter_tags_described_parameters _)) _).
  apply Forall_cons_2; [|apply Forall_cons_2; [|apply Forall_nil_2]].
  - eexists. split; [reflexivity|]. right. vm_compute; reflexivity.
  - eexists. split; [reflexivity|]. left. reflexivity.
Defined.
